(** * libgit2 [src/trailer.c]: locating and tokenizing message trailers

    A shallow embedding of [trailer.c].  A [const char *] into a buffer is an
    offset (a [Z]) into a [list ascii]; reading past the end of the list reads
    the terminating NUL.  C [int] and [size_t] values are [Z].  The
    conversion of the offset that [find_patch_start] returns to [int] is
    written out ([to_int]): it is where the length of the whole message
    enters.  The offsets that the other locators keep in an [int] are the
    code's as long as the buffer is at most [INT_MAX] bytes long, and the
    theorems about them assume so ([strlen buf <= INT_MAX], or
    [len <= INT_MAX] where only the region is read), so that no conversion
    to [int] changes a value.  Loops whose
    trip count is not syntactically bounded take a fuel argument and return
    [None] when it runs out; the theorems show that the fuel supplied by the
    callers is always enough. *)

From Stdlib Require Import ZArith List Ascii String Bool Lia.
Import ListNotations.
Open Scope Z_scope.

(** ** Bytes, C strings and <ctype.h> *)

Definition NUL : ascii := Ascii.zero.
Definition LF : ascii := "010"%char.
Definition TAB : ascii := "009"%char.
Definition SP : ascii := " "%char.

Definition code (c : ascii) : Z := Z.of_N (N_of_ascii c).

(** The greatest [int]: offsets up to it are not changed when the code
    stores them in an [int]. *)
Definition INT_MAX : Z := 2147483647.

(** What the conversion of [z] to a 32-bit [int] gives: the value in the
    range of [int] that equals [z] modulo 2^32. *)
Definition to_int (z : Z) : Z :=
  (z + 2147483648) mod 4294967296 - 2147483648.

(** [isspace] and [isalnum] in the "C" locale. *)
Definition isspace (c : ascii) : bool :=
  (code c =? 32) || ((9 <=? code c) && (code c <=? 13)).

Definition isalnum (c : ascii) : bool :=
  ((48 <=? code c) && (code c <=? 57))
  || ((65 <=? code c) && (code c <=? 90))
  || ((97 <=? code c) && (code c <=? 122)).

(** [buf + s]: the bytes from offset [s] on. *)
Definition suffix (buf : list ascii) (s : Z) : list ascii :=
  skipn (Z.to_nat s) buf.

(** [buf[i]]. *)
Definition get (buf : list ascii) (i : Z) : ascii :=
  if i <? 0 then NUL else nth (Z.to_nat i) buf NUL.

(** [buf[i] = c]. *)
Definition put (buf : list ascii) (i : Z) (c : ascii) : list ascii :=
  if (0 <=? i) && (i <? Z.of_nat (List.length buf))
  then firstn (Z.to_nat i) buf ++ c :: skipn (S (Z.to_nat i)) buf
  else buf.

Definition bytes (s : string) : list ascii := list_ascii_of_string s.

(** [strlen]. *)
Fixpoint strlen (str : list ascii) : Z :=
  match str with
  | [] => 0
  | c :: r => if Ascii.eqb c NUL then 0 else 1 + strlen r
  end.

(** The C string that starts at [str], without its terminator. *)
Fixpoint cstr (str : list ascii) : list ascii :=
  match str with
  | [] => []
  | c :: r => if Ascii.eqb c NUL then [] else c :: cstr r
  end.

(** [strchr(set, c) != NULL] for a byte [c] that is not NUL. *)
Definition strchr_in (set : list ascii) (c : ascii) : bool :=
  existsb (Ascii.eqb c) (cstr set).

(** [memchr(p, c, n)], as the offset of the hit from [p]. *)
Fixpoint memchr (p : list ascii) (c : ascii) (n : nat) {struct n}
    : option Z :=
  match n, p with
  | O, _ => None
  | S _, [] => None
  | S n', x :: r =>
      if Ascii.eqb x c then Some 0 else option_map Z.succ (memchr r c n')
  end.

(** Modelled from the spec: [git__prefixcmp] of util.c, the generic
    string-compare helper that is not among the sources; it returns 0 exactly
    when [str] begins with [prefix], and the difference of the first two
    bytes that differ otherwise. *)
Fixpoint git__prefixcmp (str prefix : list ascii) {struct prefix} : Z :=
  match prefix with
  | [] => 0
  | p :: prefix' =>
      if Ascii.eqb p NUL then 0
      else
        match str with
        | [] => 0 - code p
        | s :: str' =>
            if Ascii.eqb s p then git__prefixcmp str' prefix'
            else code s - code p
        end
  end.

(** ** Constants of the file *)

Definition COMMENT_LINE_CHAR : ascii := "#"%char.
Definition TRAILER_SEPARATORS : list ascii := bytes ":".

Definition git_generated_prefixes : list (list ascii) :=
  [ bytes "Signed-off-by: "; bytes "(cherry picked from commit " ].

(** Declared in git2/errors.h, which is not among the sources; the code only
    compares it with other return codes. *)
Definition GIT_ITEROVER : Z := -31.

(** ** Line helpers *)

(** [is_blank_line(str)]. *)
Fixpoint is_blank_line (str : list ascii) : bool :=
  match str with
  | [] => true
  | c :: r =>
      if Ascii.eqb c NUL then true
      else if Ascii.eqb c LF then true
      else if isspace c then is_blank_line r
      else false
  end.

(** [next_line(str) - str]: up to and including the first line feed, or up to
    the terminator when there is none. *)
Fixpoint line_span (str : list ascii) : Z :=
  match str with
  | [] => 0
  | c :: r =>
      if Ascii.eqb c NUL then 0
      else if Ascii.eqb c LF then 1
      else 1 + line_span r
  end.

(** [next_line(buf + s) - buf]. *)
Definition next_line (buf : list ascii) (s : Z) : Z :=
  s + line_span (suffix buf s).

(** The [for (; i >= 0; i--)] loop of [last_line]; [n] is [i + 1]. *)
Fixpoint last_line_loop (buf : list ascii) (n : nat) : Z :=
  match n with
  | O => 0
  | S i =>
      if Ascii.eqb (get buf (Z.of_nat i)) LF then Z.of_nat i + 1
      else last_line_loop buf i
  end.

(** [last_line(buf, len)]. *)
Definition last_line (buf : list ascii) (len : Z) : Z :=
  if len =? 0 then -1
  else if len =? 1 then 0
  else last_line_loop buf (Z.to_nat (len - 1)).

(** The loop of [find_separator]; [pos] is [c - line]. *)
Fixpoint find_separator_loop (c separators : list ascii) (pos : Z)
    (whitespace_found : bool) : Z :=
  match c with
  | [] => -1
  | x :: r =>
      if Ascii.eqb x NUL then -1
      else if strchr_in separators x then pos
      else if negb whitespace_found && (isalnum x || Ascii.eqb x "-"%char)
      then find_separator_loop r separators (pos + 1) whitespace_found
      else if negb (pos =? 0) && (Ascii.eqb x SP || Ascii.eqb x TAB)
      then find_separator_loop r separators (pos + 1) true
      else -1
  end.

(** [find_separator(line, separators)]. *)
Definition find_separator (line separators : list ascii) : Z :=
  find_separator_loop line separators 0 false.

(** ** The three locators *)

(** The [while (bol < cutoff)] loop of [ignore_non_trailer]; [cutoff] is
    [len] throughout. *)
Fixpoint ignore_non_trailer_loop (fuel : nat) (buf : list ascii) (len : Z)
    (boc bol : Z) (in_old_conflicts_block : bool) : option Z :=
  if bol <? len then
    match fuel with
    | O => None
    | S fuel' =>
        let next_line :=
          match memchr (suffix buf bol) LF (Z.to_nat (len - bol)) with
          | None => len
          | Some k => bol + k + 1
          end in
        let c := get buf bol in
        if Ascii.eqb c COMMENT_LINE_CHAR || Ascii.eqb c LF then
          ignore_non_trailer_loop fuel' buf len
            (if boc =? 0 then bol else boc) next_line in_old_conflicts_block
        else if git__prefixcmp (suffix buf bol)
                  (bytes "Conflicts:" ++ [LF]) =? 0 then
          ignore_non_trailer_loop fuel' buf len
            (if boc =? 0 then bol else boc) next_line true
        else if in_old_conflicts_block && Ascii.eqb c TAB then
          ignore_non_trailer_loop fuel' buf len boc next_line
            in_old_conflicts_block
        else if negb (boc =? 0) then
          ignore_non_trailer_loop fuel' buf len 0 next_line false
        else
          ignore_non_trailer_loop fuel' buf len boc next_line
            in_old_conflicts_block
    end
  else Some (if negb (boc =? 0) then len - boc else len - len).

(** [ignore_non_trailer(buf, len)]. *)
Definition ignore_non_trailer (buf : list ascii) (len : Z) : option Z :=
  ignore_non_trailer_loop (S (Z.to_nat len)) buf len 0 0 false.

(** The [for (s = str; *s; s = next_line(s))] loop of [find_patch_start]. *)
Fixpoint find_patch_start_loop (fuel : nat) (str : list ascii) (s : Z)
    : option Z :=
  if Ascii.eqb (get str s) NUL then Some s
  else
    match fuel with
    | O => None
    | S fuel' =>
        if git__prefixcmp (suffix str s) (bytes "---") =? 0 then Some s
        else find_patch_start_loop fuel' str (next_line str s)
    end.

(** [find_patch_start(str)]: the offset [s - str] at which the loop ends,
    returned as an [int]. *)
Definition find_patch_start (str : list ascii) : option Z :=
  option_map to_int (find_patch_start_loop (List.length str) str 0).

(** The locals of [find_trailer_start] that its second loop updates. *)
Record counters : Type := Counters {
  only_spaces : bool;
  recognized_prefix : bool;
  trailer_lines : Z;
  non_trailer_lines : Z;
  possible_continuation_lines : Z
}.

Definition counters0 : counters := Counters true false 0 0 0.

(** How the second loop of [find_trailer_start] ends: at a blank line [l],
    after the pending continuation lines were added to
    [non_trailer_lines], or because [l] fell below [end_of_title]. *)
Inductive scan_exit : Type :=
| AtBlankLine (l : Z) (c : counters)
| BelowTitle (c : counters).

(** The first loop of [find_trailer_start]: the first paragraph is the title. *)
Fixpoint end_of_title_loop (fuel : nat) (buf : list ascii) (len s : Z)
    : option Z :=
  if s <? len then
    match fuel with
    | O => None
    | S fuel' =>
        if Ascii.eqb (get buf s) COMMENT_LINE_CHAR
        then end_of_title_loop fuel' buf len (next_line buf s)
        else if is_blank_line (suffix buf s) then Some s
        else end_of_title_loop fuel' buf len (next_line buf s)
    end
  else Some s.

Definition end_of_title (buf : list ascii) (len : Z) : option Z :=
  end_of_title_loop (S (Z.to_nat len)) buf len 0.

(** One non-blank, non-comment line [bol] of the backward scan. *)
Definition classify_line (bol : list ascii) (c : counters) : counters :=
  if existsb (fun p => git__prefixcmp bol p =? 0) git_generated_prefixes
  then Counters false true (trailer_lines c + 1) (non_trailer_lines c) 0
  else
    let separator_pos := find_separator bol TRAILER_SEPARATORS in
    if (separator_pos >=? 1) && negb (isspace (hd NUL bol))
    then Counters false (recognized_prefix c) (trailer_lines c + 1)
           (non_trailer_lines c) 0
    else if isspace (hd NUL bol)
    then Counters false (recognized_prefix c) (trailer_lines c)
           (non_trailer_lines c) (possible_continuation_lines c + 1)
    else Counters false (recognized_prefix c) (trailer_lines c)
           (non_trailer_lines c + 1 + possible_continuation_lines c) 0.

(** The second loop of [find_trailer_start], from line [l] backwards. *)
Fixpoint backward_scan (fuel : nat) (buf : list ascii) (end_of_title l : Z)
    (c : counters) : option scan_exit :=
  if l >=? end_of_title then
    match fuel with
    | O => None
    | S fuel' =>
        let bol := suffix buf l in
        if Ascii.eqb (hd NUL bol) COMMENT_LINE_CHAR then
          backward_scan fuel' buf end_of_title (last_line buf l)
            (Counters (only_spaces c) (recognized_prefix c) (trailer_lines c)
               (non_trailer_lines c + possible_continuation_lines c) 0)
        else if is_blank_line bol then
          if only_spaces c
          then backward_scan fuel' buf end_of_title (last_line buf l) c
          else Some (AtBlankLine l
                 (Counters (only_spaces c) (recognized_prefix c)
                    (trailer_lines c)
                    (non_trailer_lines c + possible_continuation_lines c)
                    (possible_continuation_lines c)))
        else
          backward_scan fuel' buf end_of_title (last_line buf l)
            (classify_line bol c)
    end
  else Some (BelowTitle c).

(** What [find_trailer_start] returns once the scan has ended. *)
Definition trailer_start_of (buf : list ascii) (len : Z) (e : scan_exit) : Z :=
  match e with
  | AtBlankLine l c =>
      if recognized_prefix c
         && (trailer_lines c * 3 >=? non_trailer_lines c)
      then next_line buf l
      else if negb (trailer_lines c =? 0) && (non_trailer_lines c =? 0)
      then next_line buf l
      else len
  | BelowTitle _ => len
  end.

(** The scan of [find_trailer_start(buf, len)]. *)
Definition trailer_scan (buf : list ascii) (len : Z) : option scan_exit :=
  match end_of_title buf len with
  | None => None
  | Some e =>
      backward_scan (S (Z.to_nat len)) buf e (last_line buf len) counters0
  end.

(** [find_trailer_start(buf, len)]. *)
Definition find_trailer_start (buf : list ascii) (len : Z) : option Z :=
  option_map (trailer_start_of buf len) (trailer_scan buf len).

(** [find_trailer_end(buf, len)]. *)
Definition find_trailer_end (buf : list ascii) (len : Z) : option Z :=
  option_map (fun n => len - n) (ignore_non_trailer buf len).

(** [extract_trailer_block(message, &len)] without the allocation: the bytes
    copied by [memcpy] and their number. *)
Definition trailer_block_of (message : list ascii) : option (list ascii * Z) :=
  match find_patch_start message with
  | None => None
  | Some patch_start =>
      match find_trailer_end message patch_start with
      | None => None
      | Some trailer_end =>
          match find_trailer_start message trailer_end with
          | None => None
          | Some trailer_start =>
              let trailer_len := trailer_end - trailer_start in
              Some (firstn (Z.to_nat trailer_len)
                      (suffix message trailer_start),
                    trailer_len)
          end
      end
  end.

(** ** Allocation

    The heap records which allocations are live.  [room] is how many more
    allocations succeed before [git__malloc] starts returning NULL. *)

Record heap : Type := Heap {
  live : list nat;
  brk : nat;
  room : nat
}.

(** Modelled from the spec: [git__malloc], [git__calloc] and [git__free], the
    memory allocation primitives that are not among the sources.  An
    allocation returns a fresh address or NULL ([None]); [git__free] ends the
    life of an address. *)
Definition git__malloc (h : heap) : option nat * heap :=
  match room h with
  | O => (None, h)
  | S r => (Some (brk h), Heap (brk h :: live h) (S (brk h)) r)
  end.

Definition git__calloc (h : heap) : option nat * heap := git__malloc h.

Definition git__free (a : nat) (h : heap) : heap :=
  Heap (List.remove Nat.eq_dec a (live h)) (brk h) (room h).

(** ** The iterator *)

Inductive trailer_state : Type :=
| S_START | S_KEY | S_KEY_WS | S_SEP_WS
| S_VALUE | S_VALUE_NL | S_VALUE_END | S_IGNORE.

(** [trailer_iterator]: the buffer [trailer_block] points to, where that
    buffer was allocated, and [ptr] as an offset into it. *)
Record trailer_iterator : Type := Iterator {
  trailer_block_addr : nat;
  trailer_block : list ascii;
  block_len : Z;
  ptr : Z
}.

(** A [git_message_trailer_iterator *]. *)
Inductive iterator_ptr : Type :=
| NULL
| At (addr : nat) (iter : trailer_iterator).

(** [extract_trailer_block(message, &len)].  The result of [git__malloc] is
    not checked: when it is NULL the [memcpy] has no defined result. *)
Definition extract_trailer_block (h : heap) (message : list ascii)
    : option (nat * list ascii * Z * heap) :=
  match trailer_block_of message with
  | None => None
  | Some (buffer, trailer_len) =>
      match git__malloc h with
      | (None, _) => None
      | (Some a, h') => Some (a, buffer, trailer_len, h')
      end
  end.

(** [git_message_trailer_iterator_new(&out, message)]: the return code, what
    was stored in [*out] if anything, and the heap. *)
Definition git_message_trailer_iterator_new (h : heap) (message : list ascii)
    : option (Z * option iterator_ptr * heap) :=
  match git__calloc h with
  | (None, h1) => Some (-1, None, h1)
  | (Some a, h1) =>
      match extract_trailer_block h1 message with
      | None => None
      | Some (b, buffer, len, h2) =>
          Some (0, Some (At a (Iterator b buffer len 0)), h2)
      end
  end.

(** [git_message_trailer_iterator_free(_iter)]. *)
Definition git_message_trailer_iterator_free (_iter : iterator_ptr) (h : heap)
    : heap :=
  match _iter with
  | NULL => h
  | At a iter => git__free a (git__free (trailer_block_addr iter) h)
  end.

(** The locals and the iterator fields that the loop of
    [git_message_trailer_iterator_next] works on.  [m_key] and [m_value] are
    [*key_out] and [*value_out], offsets into the block; [None] is a pointer
    that was never assigned. *)
Record machine : Type := Machine {
  m_block : list ascii;
  m_ptr : Z;
  m_state : trailer_state;
  m_key : option Z;
  m_value : option Z
}.

(** [NEXT(st)] and [GOTO(st)]. *)
Definition NEXT (st : trailer_state) (m : machine) : machine :=
  Machine (m_block m) (m_ptr m + 1) st (m_key m) (m_value m).

Definition GOTO (st : trailer_state) (m : machine) : machine :=
  Machine (m_block m) (m_ptr m) st (m_key m) (m_value m).

(** [iter->ptr[d] = 0]. *)
Definition poke (d : Z) (m : machine) : machine :=
  Machine (put (m_block m) (m_ptr m + d) NUL) (m_ptr m) (m_state m)
    (m_key m) (m_value m).

Definition is_sp_tab (c : ascii) : bool := Ascii.eqb c SP || Ascii.eqb c TAB.

(** One turn of the [while]/[switch]: [inl] to go round again, [inr] for
    [goto ret]. *)
Definition step (m : machine) : machine + machine :=
  let c := get (m_block m) (m_ptr m) in
  match m_state m with
  | S_START =>
      if Ascii.eqb c NUL then inr m
      else inl (GOTO S_KEY
                  (Machine (m_block m) (m_ptr m) (m_state m)
                     (Some (m_ptr m)) (m_value m)))
  | S_KEY =>
      if Ascii.eqb c NUL then inr m
      else if isalnum c || Ascii.eqb c "-"%char then inl (NEXT S_KEY m)
      else if is_sp_tab c then inl (NEXT S_KEY_WS (poke 0 m))
      else if strchr_in TRAILER_SEPARATORS c
      then inl (NEXT S_SEP_WS (poke 0 m))
      else inl (GOTO S_IGNORE m)
  | S_KEY_WS =>
      if Ascii.eqb c NUL then inr m
      else if is_sp_tab c then inl (NEXT S_KEY_WS m)
      else if strchr_in TRAILER_SEPARATORS c then inl (NEXT S_SEP_WS m)
      else inl (GOTO S_IGNORE m)
  | S_SEP_WS =>
      if Ascii.eqb c NUL then inr m
      else if is_sp_tab c then inl (NEXT S_SEP_WS m)
      else inl (NEXT S_VALUE
                  (Machine (m_block m) (m_ptr m) (m_state m)
                     (m_key m) (Some (m_ptr m))))
  | S_VALUE =>
      if Ascii.eqb c NUL then inl (GOTO S_VALUE_END m)
      else if Ascii.eqb c LF then inl (NEXT S_VALUE_NL m)
      else inl (NEXT S_VALUE m)
  | S_VALUE_NL =>
      if Ascii.eqb c SP then inl (NEXT S_VALUE m)
      else inl (GOTO S_VALUE_END (poke (-1) m))
  | S_VALUE_END => inr m
  | S_IGNORE =>
      if Ascii.eqb c NUL then inr m
      else if Ascii.eqb c LF then inl (NEXT S_START m)
      else inl (NEXT S_IGNORE m)
  end.

Fixpoint run (fuel : nat) (m : machine) : option machine :=
  match fuel with
  | O => None
  | S fuel' =>
      match step m with
      | inl m' => run fuel' m'
      | inr m' => Some m'
      end
  end.

(** Turns of the loop that are enough from offset [p] of [block]. *)
Definition run_fuel (block : list ascii) (p : Z) : nat :=
  Z.to_nat (3 * (Z.of_nat (List.length block) - p) + 3).

(** [git_message_trailer_iterator_next(key_out, value_out, _iter)]: the return
    code, [*key_out], [*value_out] and the iterator afterwards. *)
Definition git_message_trailer_iterator_next (key_out value_out : option Z)
    (iter : trailer_iterator)
    : option (Z * option Z * option Z * trailer_iterator) :=
  let rc := 0 in
  if Ascii.eqb (get (trailer_block iter) (ptr iter)) NUL
  then Some (GIT_ITEROVER, key_out, value_out, iter)
  else
    match run (run_fuel (trailer_block iter) (ptr iter))
            (Machine (trailer_block iter) (ptr iter) S_START
               key_out value_out) with
    | None => None
    | Some m =>
        Some (rc, m_key m, m_value m,
              Iterator (trailer_block_addr iter) (m_block m)
                (block_len iter) (m_ptr m))
    end.

(** What a caller reads through a [const char *] into the block. *)
Definition view (iter : trailer_iterator) (p : option Z)
    : option (list ascii) :=
  option_map (fun k => cstr (suffix (trailer_block iter) k)) p.

(** [git_message_trailer_cb]: the callback gets the two strings and the
    payload and returns its code and the payload afterwards. *)
Definition git_message_trailer_cb (P : Type) : Type :=
  option (list ascii) -> option (list ascii) -> P -> Z * P.

(** The [while (rc != GIT_ITEROVER)] loop of [git_message_trailers]; [key]
    and [value] are fresh, unassigned locals in every turn. *)
Fixpoint trailers_loop {P : Type} (fuel : nat) (cb : git_message_trailer_cb P)
    (rc : Z) (iter : trailer_iterator) (payload : P)
    : option (Z * trailer_iterator * P) :=
  if rc =? GIT_ITEROVER then Some (rc, iter, payload)
  else
    match fuel with
    | O => None
    | S fuel' =>
        match git_message_trailer_iterator_next None None iter with
        | None => None
        | Some (rc, key, value, iter) =>
            if negb (rc =? 0) then Some (rc, iter, payload)
            else
              let '(rc, payload) :=
                cb (view iter key) (view iter value) payload in
              if negb (rc =? 0) then Some (rc, iter, payload)
              else trailers_loop fuel' cb rc iter payload
        end
    end.

(** [git_message_trailers(message, cb, payload)]: the return code, the
    payload and the heap afterwards. *)
Definition git_message_trailers {P : Type} (h : heap) (message : list ascii)
    (cb : git_message_trailer_cb P) (payload : P) : option (Z * P * heap) :=
  match git_message_trailer_iterator_new h message with
  | None => None
  | Some (rc, iterator, h1) =>
      if negb (rc =? 0) then Some (rc, payload, h1)
      else
        match iterator with
        | Some (At a iter) =>
            match trailers_loop (S (List.length (trailer_block iter)))
                    cb rc iter payload with
            | None => None
            | Some (_, iter', payload') =>
                Some (0, payload',
                      git_message_trailer_iterator_free (At a iter') h1)
            end
        | _ => None
        end
  end.

(** ** The emitted sequence *)

Definition pair : Type := option (list ascii) * option (list ascii).

(** The callback that records every pair it is given and asks for more. *)
Definition record_pair : git_message_trailer_cb (list pair) :=
  fun key value seen => (0, seen ++ [(key, value)]).

Definition heap0 : heap := Heap [] 1 2.

(** Create, advance until the end, dispose: the pairs handed out for
    [message]. *)
Definition trailers (message : list ascii) : option (list pair) :=
  match git_message_trailers heap0 message record_pair [] with
  | Some (_, seen, _) => Some seen
  | None => None
  end.

(** A message given line by line, every line ended by a line feed. *)
Definition msg (lines : list string) : list ascii :=
  flat_map (fun s => bytes s ++ [LF]) lines.

(** * Notions used to state the properties *)

(** ** Lines *)

(** [i] is where a line of [buf] starts. *)
Definition line_start (buf : list ascii) (i : Z) : Prop :=
  i = 0 \/ (0 < i /\ get buf (i - 1) = LF).

Definition begins_with (prefix str : list ascii) : Prop :=
  firstn (List.length prefix) str = prefix.

(** [r] is the first line start of [str] at which "---" begins, or the
    length of [str] when no line begins so. *)
Definition patch_boundary (str : list ascii) (r : Z) : Prop :=
  (0 <= r < strlen str
   /\ line_start str r
   /\ begins_with (bytes "---") (suffix str r)
   /\ forall j, 0 <= j < r -> line_start str j ->
        ~ begins_with (bytes "---") (suffix str j))
  \/ (r = strlen str
      /\ forall j, 0 <= j < strlen str -> line_start str j ->
           ~ begins_with (bytes "---") (suffix str j)).

(** A line that the scans treat as blank: not a comment, and nothing but
    white space up to its end. *)
Definition blank_at (buf : list ascii) (l : Z) : Prop :=
  get buf l <> COMMENT_LINE_CHAR /\ is_blank_line (suffix buf l) = true.

(** A line the backward scan passes over while [only_spaces] holds. *)
Definition ignorable_at (buf : list ascii) (p : Z) : Prop :=
  get buf p = COMMENT_LINE_CHAR \/ is_blank_line (suffix buf p) = true.

(** A line that is neither a comment nor blank. *)
Definition content_at (buf : list ascii) (p : Z) : Prop :=
  get buf p <> COMMENT_LINE_CHAR /\ is_blank_line (suffix buf p) = false.

(** No blank line above [l] is followed, below [len], by a line with
    content. *)
Definition no_paragraph_above (buf : list ascii) (len l : Z) : Prop :=
  forall a b,
    line_start buf a -> line_start buf b -> l < a -> a < b -> b < len ->
    blank_at buf a -> content_at buf b -> False.

(** ** The backward scan *)

(** While only blank lines and comments were seen, no trailer was counted. *)
Definition quiet (c : counters) : Prop :=
  0 <= trailer_lines c
  /\ (only_spaces c = true ->
      trailer_lines c = 0 /\ recognized_prefix c = false).

(** What is known of the scan's exit when it started at or above a blank
    line [e] and at or below [hi]. *)
Definition exit_ok (buf : list ascii) (e hi : Z) (x : scan_exit) : Prop :=
  match x with
  | AtBlankLine l c =>
      e <= l <= hi /\ line_start buf l /\ blank_at buf l
      /\ 0 <= trailer_lines c /\ only_spaces c = false
  | BelowTitle c => trailer_lines c = 0 /\ recognized_prefix c = false
  end.


(** ** The lines of a paragraph and what the dual rule counts *)

(** What a line is to the scan of section 4.3: a comment, a blank line, a
    line with a generated prefix, a well-formed trailer line (a separator at
    an index of at least 1, and no white space at the start), a line that
    begins with white space, or any other line. *)
Inductive line_kind : Type :=
| CommentLine
| BlankLine
| PrefixLine
| TrailerLine
| ContinuationLine
| OtherLine.

Definition kind_of (bol : list ascii) : line_kind :=
  if Ascii.eqb (hd NUL bol) COMMENT_LINE_CHAR then CommentLine
  else if is_blank_line bol then BlankLine
  else if existsb (fun p => git__prefixcmp bol p =? 0) git_generated_prefixes
  then PrefixLine
  else if (find_separator bol TRAILER_SEPARATORS >=? 1)
          && negb (isspace (hd NUL bol))
  then TrailerLine
  else if isspace (hd NUL bol) then ContinuationLine
  else OtherLine.

(** The starts of the lines of [buf] from the line start [s] up to [len], in
    the order of the text. *)
Fixpoint lines_from (fuel : nat) (buf : list ascii) (len s : Z) : list Z :=
  match fuel with
  | O => []
  | S fuel' =>
      if s <? len then s :: lines_from fuel' buf len (next_line buf s)
      else []
  end.

Definition lines_between (buf : list ascii) (s len : Z) : list Z :=
  lines_from (Z.to_nat (len - s)) buf len s.

Definition kinds_between (buf : list ascii) (s len : Z) : list line_kind :=
  map (fun p => kind_of (suffix buf p)) (lines_between buf s len).

(** What the dual rule looks at: whether a line with a generated prefix was
    found, the number of trailer lines and the number of non-trailer
    lines. *)
Record tally : Type := Tally {
  with_prefix : bool;
  trailer_count : Z;
  non_trailer_count : Z
}.

(** The tally of a paragraph whose lines, from the first one down, have the
    kinds [ks].  Trailer lines are the lines with a generated prefix and the
    well-formed trailer lines.  Non-trailer lines are the other lines and
    the lines that begin with white space without continuing a trailer: such
    a line continues a trailer when the nearest line above it that does not
    begin with white space is a trailer line ([after_trailer]); at the top
    of the paragraph, and after a comment or another line, it does not. *)
Fixpoint tally_of (after_trailer : bool) (ks : list line_kind) : tally :=
  match ks with
  | [] => Tally false 0 0
  | CommentLine :: r => tally_of false r
  | BlankLine :: r => tally_of after_trailer r
  | PrefixLine :: r =>
      let t := tally_of true r in
      Tally true (trailer_count t + 1) (non_trailer_count t)
  | TrailerLine :: r =>
      let t := tally_of true r in
      Tally (with_prefix t) (trailer_count t + 1) (non_trailer_count t)
  | ContinuationLine :: r =>
      if after_trailer then tally_of true r
      else
        let t := tally_of false r in
        Tally (with_prefix t) (trailer_count t) (non_trailer_count t + 1)
  | OtherLine :: r =>
      let t := tally_of false r in
      Tally (with_prefix t) (trailer_count t) (non_trailer_count t + 1)
  end.

(** The tally of the lines of [buf] from the line start [s] up to [len]. *)
Definition paragraph_tally (buf : list ascii) (s len : Z) : tally :=
  tally_of false (kinds_between buf s len).


(** The blank line at which the decision is made: the last blank line of
    the region that has a line with content below it. *)
Definition qualifying_blank_line (buf : list ascii) (len l : Z) : Prop :=
  0 <= l < len /\ line_start buf l /\ blank_at buf l
  /\ (exists b, line_start buf b /\ l < b < len /\ content_at buf b)
  /\ no_paragraph_above buf len l.

(** The counters of the scan, above the line it is at, are the tally of the
    lines [ks] it has passed: the pending continuation lines are not yet
    counted, and are non-trailer lines unless they come after a trailer. *)
Definition tallied (c : counters) (ks : list line_kind) : Prop :=
  tally_of true ks
  = Tally (recognized_prefix c) (trailer_lines c) (non_trailer_lines c)
  /\ tally_of false ks
     = Tally (recognized_prefix c) (trailer_lines c)
         (non_trailer_lines c + possible_continuation_lines c).

(** ** TrailingNoiseTrimmer: the walk that the specification describes *)

(** The walk of section 4.2 in its own words: forward, line by line, tracking
    the start of the current run of ignorable lines, which is none after any
    other line.  A comment line begins with the comment marker, a blank line
    is an empty line, a pathname line begins with a tab in a conflicts
    listing.  Here "none" is [None]; [ignore_non_trailer] writes it 0. *)
Fixpoint noise_walk (fuel : nat) (buf : list ascii) (len : Z)
    (run : option Z) (bol : Z) (in_conflicts : bool) : option Z :=
  if bol <? len then
    match fuel with
    | O => None
    | S fuel' =>
        let next :=
          match memchr (suffix buf bol) LF (Z.to_nat (len - bol)) with
          | None => len
          | Some k => bol + k + 1
          end in
        let c := get buf bol in
        let started :=
          match run with Some b => Some b | None => Some bol end in
        if Ascii.eqb c COMMENT_LINE_CHAR || Ascii.eqb c LF then
          noise_walk fuel' buf len started next in_conflicts
        else if git__prefixcmp (suffix buf bol)
                  (bytes "Conflicts:" ++ [LF]) =? 0 then
          noise_walk fuel' buf len started next true
        else if in_conflicts && Ascii.eqb c TAB then
          noise_walk fuel' buf len run next in_conflicts
        else
          noise_walk fuel' buf len None next false
    end
  else Some (match run with Some b => len - b | None => 0 end).

(** The length of the trailing run of ignorable lines of the region. *)
Definition trailing_noise_spec (buf : list ascii) (len : Z) : option Z :=
  noise_walk (S (Z.to_nat len)) buf len None 0 false.

(** The region's first line opens a run of ignorable lines. *)
Definition opens_run (buf : list ascii) : bool :=
  Ascii.eqb (get buf 0) COMMENT_LINE_CHAR
  || Ascii.eqb (get buf 0) LF
  || (git__prefixcmp (suffix buf 0) (bytes "Conflicts:" ++ [LF]) =? 0).

(** ** Progress of the tokenizer, iterators and heaps *)

(** How many turns a state can take without moving [ptr]. *)
Definition rank (st : trailer_state) : Z :=
  match st with
  | S_START => 2
  | S_KEY | S_KEY_WS | S_VALUE | S_VALUE_NL => 1
  | S_SEP_WS | S_VALUE_END | S_IGNORE => 0
  end.

Definition turns_left (m : machine) : Z :=
  3 * (Z.of_nat (List.length (m_block m)) - m_ptr m) + rank (m_state m).

(** Before [ptr] has moved, the machine is in a state that moves it. *)
Definition not_moved (p0 : Z) (m : machine) : Prop :=
  m_ptr m = p0
  /\ get (m_block m) p0 <> NUL
  /\ (m_state m = S_START \/ m_state m = S_KEY \/ m_state m = S_IGNORE).

(** An iterator whose [ptr] lies in its block. *)
Definition iterator_ok (iter : trailer_iterator) : Prop :=
  0 <= ptr iter <= Z.of_nat (List.length (trailer_block iter)).

(** Live addresses lie below the next address to be handed out. *)
Definition heap_ok (h : heap) : Prop :=
  forall a, In a (live h) -> (a < brk h)%nat.

(** ** Messages of the scenarios *)

Definition scenario_C : list ascii :=
  msg ["Subject"; ""; "Key: val"; "NotATrailerLine"; "Other: v2"]%string.

Definition text (s : string) : option (list ascii) := Some (bytes s).

(** ** Lines of the trimmed tail *)

(** The "Conflicts:" marker line begins at [p]. *)
Definition conflicts_marker_at (buf : list ascii) (p : Z) : Prop :=
  git__prefixcmp (suffix buf p) (bytes "Conflicts:" ++ [LF]) = 0.

(** A line that can open the ignored tail: a comment, an empty line or the
    marker. *)
Definition opens_tail (buf : list ascii) (p : Z) : Prop :=
  get buf p = COMMENT_LINE_CHAR \/ get buf p = LF
  \/ conflicts_marker_at buf p.

(** A line that can lie in the ignored tail: one that opens it, or one that
    begins with a tab. *)
Definition tail_line (buf : list ascii) (p : Z) : Prop :=
  opens_tail buf p \/ get buf p = TAB.

(** What the loop knows of the run it tracks when it is at line [bol]. *)
Definition run_ok (buf : list ascii) (boc bol : Z) : Prop :=
  boc = 0
  \/ (0 < boc < bol /\ get buf (boc - 1) = LF /\ opens_tail buf boc
      /\ forall p, boc <= p < bol -> line_start buf p -> tail_line buf p).

(** A line that the backward scan counts as a trailer: it begins with a
    generated prefix, or it does not begin with white space and has a
    separator after a non-empty token. *)
Definition trailer_line_at (buf : list ascii) (p : Z) : Prop :=
  existsb (fun q => git__prefixcmp (suffix buf p) q =? 0)
    git_generated_prefixes = true
  \/ (find_separator (suffix buf p) TRAILER_SEPARATORS >= 1
      /\ isspace (get buf p) = false).

(** ** Notions of the further properties *)

(** [len] ends a line of [buf]: it is its end or the start of a line. *)
Definition line_aligned (buf : list ascii) (len : Z) : Prop :=
  len = strlen buf \/ line_start buf len.

(** While the scan is above [l], every trailer it counted is a line above
    [l], and a recognized prefix was counted as a trailer. *)
Definition counted_ok (buf : list ascii) (len l : Z) (c : counters) : Prop :=
  (recognized_prefix c = true -> trailer_lines c >= 1)
  /\ 0 <= trailer_lines c
  /\ (trailer_lines c >= 1 ->
      exists p, line_start buf p /\ l < p < len /\ trailer_line_at buf p).

(** A byte of a token: alphanumeric or a hyphen. *)
Definition token_char (c : ascii) : bool :=
  isalnum c || Ascii.eqb c "-"%char.

(** [line] has a separator at [k], after a run of token bytes and then a run
    of spaces and tabs, none of them a separator; the loop is at offset
    [pos] of the line and has seen white space or not. *)
Definition separator_after (line separators : list ascii) (pos : Z)
    (whitespace_found : bool) (k : Z) : Prop :=
  0 <= k
  /\ strchr_in separators (get line k) = true
  /\ exists t,
       0 <= t <= k
       /\ (whitespace_found = true -> t = 0)
       /\ (pos = 0 -> t = 0 -> k = 0)
       /\ (forall i, 0 <= i < t ->
             token_char (get line i) = true
             /\ strchr_in separators (get line i) = false)
       /\ (forall i, t <= i < k ->
             is_sp_tab (get line i) = true
             /\ strchr_in separators (get line i) = false).

(** [b'] is [b] but for NUL bytes written at offsets from [p0] and below
    [q]. *)
Definition touched (p0 q : Z) (b b' : list ascii) : Prop :=
  List.length b' = List.length b
  /\ forall i, get b' i = get b i \/ (p0 <= i < q /\ get b' i = NUL).

(** The bytes of [b] in [k, e) are token bytes. *)
Definition tokens (b : list ascii) (k e : Z) : Prop :=
  forall i, k <= i < e -> token_char (get b i) = true.

(** The key starts at [k] and was ended by a NUL at [e]; the value starts
    after it at [v], with a byte that is neither NUL, a space nor a tab. *)
Definition key_value (p0 : Z) (m : machine) (k e v : Z) : Prop :=
  m_key m = Some k /\ m_value m = Some v
  /\ p0 <= k <= e /\ e < v
  /\ get (m_block m) e = NUL /\ tokens (m_block m) k e
  /\ get (m_block m) v <> NUL /\ is_sp_tab (get (m_block m) v) = false.

(** The invariant of the loop of [git_message_trailer_iterator_next], for a
    call that started at offset [p0] with [*value_out] holding [vo]. *)
Definition tok_inv (p0 : Z) (vo : option Z) (m : machine) : Prop :=
  0 <= p0 <= m_ptr m
  /\ m_ptr m <= Z.of_nat (List.length (m_block m))
  /\ match m_state m with
     | S_START | S_IGNORE => m_value m = vo
     | S_KEY =>
         m_value m = vo
         /\ exists k, m_key m = Some k /\ p0 <= k <= m_ptr m
              /\ tokens (m_block m) k (m_ptr m)
     | S_KEY_WS | S_SEP_WS =>
         m_value m = vo
         /\ exists k e, m_key m = Some k /\ p0 <= k <= e /\ e < m_ptr m
              /\ get (m_block m) e = NUL /\ tokens (m_block m) k e
     | S_VALUE => exists k e v, key_value p0 m k e v /\ v < m_ptr m
     | S_VALUE_NL => exists k e v, key_value p0 m k e v /\ v + 1 < m_ptr m
     | S_VALUE_END =>
         exists k e v, key_value p0 m k e v /\ v < m_ptr m
           /\ (get (m_block m) (m_ptr m) = NUL
               \/ (get (m_block m) (m_ptr m - 1) = NUL /\ v + 1 < m_ptr m))
     end.

(** How the loop is left: at the terminator without a value of this call,
    or from [S_VALUE_END] with the key and the value of this call. *)
Definition exit_shape (p0 : Z) (vo : option Z) (m : machine) : Prop :=
  (m_value m = vo /\ get (m_block m) (m_ptr m) = NUL)
  \/ exists k e v,
       key_value p0 m k e v /\ v < m_ptr m
       /\ (get (m_block m) (m_ptr m) = NUL
           \/ (get (m_block m) (m_ptr m - 1) = NUL /\ v + 1 < m_ptr m)).

(** [iter2] is [iter] after some more calls of
    [git_message_trailer_iterator_next]. *)
Inductive later : trailer_iterator -> trailer_iterator -> Prop :=
| later_now (iter : trailer_iterator) : later iter iter
| later_next (iter iter1 iter2 : trailer_iterator)
    (key_out value_out k v : option Z) (rc : Z) :
    git_message_trailer_iterator_next key_out value_out iter
    = Some (rc, k, v, iter1) ->
    later iter1 iter2 ->
    later iter iter2.

(** What a callback has made of the payload after it was given the pairs of
    [pairs] in order, up to the first one it answered with a code other
    than 0. *)
Fixpoint feed {P : Type} (cb : git_message_trailer_cb P) (pairs : list pair)
    (payload : P) : P :=
  match pairs with
  | [] => payload
  | (key, value) :: rest =>
      let '(rc, payload') := cb key value payload in
      if negb (rc =? 0) then payload' else feed cb rest payload'
  end.

(** A line feed can only be the last byte of [prefix]. *)
Fixpoint lf_last (prefix : list ascii) : Prop :=
  match prefix with
  | [] => True
  | x :: r => (x = LF -> r = []) /\ lf_last r
  end.

(** The bytes of [b] from [a] up to [z]. *)
Definition region (b : list ascii) (a z : Z) : list ascii :=
  firstn (Z.to_nat (z - a)) (suffix b a).

(** The line that starts at [p0] in [b] is well formed: token bytes up to
    [t], spaces and tabs up to the separator at [s], spaces and tabs up to
    [v], and from [v] a value that does not begin with a space or a tab and
    runs up to [e], which is the end of the block or a line feed that is not
    followed by a space.  Inside the value every line feed is followed by a
    space: the value goes on over continuation lines. *)
Definition well_formed_line (b : list ascii) (p0 t s v e : Z) : Prop :=
  0 <= p0 <= t /\ t <= s /\ s < v /\ v < e
  /\ tokens b p0 t
  /\ (forall i, t <= i < s -> is_sp_tab (get b i) = true)
  /\ strchr_in TRAILER_SEPARATORS (get b s) = true
  /\ (forall i, s < i < v -> is_sp_tab (get b i) = true)
  /\ is_sp_tab (get b v) = false
  /\ (forall i, v <= i < e ->
        get b i <> NUL
        /\ (get b i = LF -> i + 1 < e /\ get b (i + 1) = SP))
  /\ (get b e = NUL \/ (get b e = LF /\ get b (e + 1) <> SP)).

(** The line that starts at [p0] in [b] is malformed: after its token bytes
    comes, at [t], a byte that is neither a token byte, a space, a tab nor a
    separator; the line ends with the line feed at [e] and another line
    follows. *)
Definition malformed_line (b : list ascii) (p0 t e : Z) : Prop :=
  0 <= p0 <= t /\ t <= e
  /\ tokens b p0 t
  /\ token_char (get b t) = false
  /\ is_sp_tab (get b t) = false
  /\ strchr_in TRAILER_SEPARATORS (get b t) = false
  /\ (forall i, t <= i < e -> get b i <> NUL /\ get b i <> LF)
  /\ get b e = LF
  /\ get b (e + 1) <> NUL.

(** The block and [ptr] after a call on a well-formed line whose key ends at
    [t] and whose value ends at [e]. *)
Definition block_after_line (b : list ascii) (t e : Z) : list ascii :=
  if Ascii.eqb (get b e) NUL then put b t NUL
  else put (put b t NUL) e NUL.

Definition ptr_after_line (b : list ascii) (e : Z) : Z :=
  if Ascii.eqb (get b e) NUL then e else e + 1.


(** * Properties *)

(** ** Reading buffers *)

Lemma geb_true (a b : Z) : b <= a -> (a >=? b) = true.
Proof. intros H. rewrite Z.geb_leb. apply Z.leb_le. exact H. Qed.

Lemma geb_false (a b : Z) : a < b -> (a >=? b) = false.
Proof. intros H. rewrite Z.geb_leb. apply Z.leb_gt. exact H. Qed.

Lemma geb_true_inv (a b : Z) : (a >=? b) = true -> b <= a.
Proof. rewrite Z.geb_leb. apply Z.leb_le. Qed.

Lemma geb_false_inv (a b : Z) : (a >=? b) = false -> a < b.
Proof. rewrite Z.geb_leb. apply Z.leb_gt. Qed.

Lemma ascii_eqb_true (a b : ascii) : Ascii.eqb a b = true <-> a = b.
Proof. apply Ascii.eqb_eq. Qed.

Lemma ascii_eqb_false (a b : ascii) : Ascii.eqb a b = false <-> a <> b.
Proof. apply Ascii.eqb_neq. Qed.

Ltac ascii_cases :=
  repeat match goal with
  | H : Ascii.eqb _ _ = true |- _ => apply ascii_eqb_true in H
  | H : Ascii.eqb _ _ = false |- _ => apply ascii_eqb_false in H
  end.

Lemma suffix_0 (buf : list ascii) : suffix buf 0 = buf.
Proof. reflexivity. Qed.

Lemma suffix_nil (buf : list ascii) (s : Z) :
  Z.of_nat (List.length buf) <= s -> suffix buf s = [].
Proof. intros H. unfold suffix. apply skipn_all2. lia. Qed.

Lemma suffix_cons (buf : list ascii) (s : Z) :
  0 <= s < Z.of_nat (List.length buf) ->
  suffix buf s = get buf s :: suffix buf (s + 1).
Proof.
  intros H. unfold suffix, get.
  replace (s <? 0) with false by (symmetry; apply Z.ltb_ge; lia).
  replace (Z.to_nat (s + 1)) with (S (Z.to_nat s)) by lia.
  assert (Hn : (Z.to_nat s < List.length buf)%nat) by lia.
  revert Hn. generalize (Z.to_nat s). clear H s.
  induction buf as [|x buf IH]; intros n Hn; simpl in *; [lia|].
  destruct n as [|n]; [reflexivity|]. simpl. apply IH. lia.
Qed.

Lemma get_nil (buf : list ascii) (s : Z) :
  Z.of_nat (List.length buf) <= s -> get buf s = NUL.
Proof.
  intros H. unfold get. destruct (s <? 0); [reflexivity|].
  apply nth_overflow. lia.
Qed.

Lemma get_neg (buf : list ascii) (s : Z) : s < 0 -> get buf s = NUL.
Proof. intros H. unfold get. apply Z.ltb_lt in H. now rewrite H. Qed.

Lemma get_in_range (buf : list ascii) (s : Z) :
  get buf s <> NUL -> 0 <= s < Z.of_nat (List.length buf).
Proof.
  intros H.
  destruct (Z_lt_ge_dec s 0) as [Hn|Hn]; [now rewrite get_neg in H|].
  destruct (Z_lt_ge_dec s (Z.of_nat (List.length buf))) as [Hl|Hl]; [lia|].
  rewrite get_nil in H by lia. contradiction.
Qed.

Lemma hd_suffix (buf : list ascii) (s : Z) :
  0 <= s -> hd NUL (suffix buf s) = get buf s.
Proof.
  intros H.
  destruct (Z_lt_ge_dec s (Z.of_nat (List.length buf))) as [Hl|Hl].
  - now rewrite suffix_cons by lia.
  - rewrite suffix_nil, get_nil by lia. reflexivity.
Qed.

Lemma get_cons (x : ascii) (buf : list ascii) (s : Z) :
  0 <= s -> get (x :: buf) (s + 1) = get buf s.
Proof.
  intros H. unfold get.
  replace (s + 1 <? 0) with false by (symmetry; apply Z.ltb_ge; lia).
  replace (s <? 0) with false by (symmetry; apply Z.ltb_ge; lia).
  replace (Z.to_nat (s + 1)) with (S (Z.to_nat s)) by lia. reflexivity.
Qed.

Lemma get_suffix (buf : list ascii) (s k : Z) :
  0 <= s -> 0 <= k -> get (suffix buf s) k = get buf (s + k).
Proof.
  intros Hs Hk. unfold get, suffix.
  replace (k <? 0) with false by (symmetry; apply Z.ltb_ge; lia).
  replace (s + k <? 0) with false by (symmetry; apply Z.ltb_ge; lia).
  replace (Z.to_nat (s + k)) with (Z.to_nat s + Z.to_nat k)%nat by lia.
  generalize (Z.to_nat s) as n. generalize (Z.to_nat k) as m. clear.
  intros m n. revert buf. induction n as [|n IH]; intros buf; simpl.
  - reflexivity.
  - destruct buf as [|x buf]; simpl; [now destruct m|]. apply IH.
Qed.

Lemma suffix_suffix (buf : list ascii) (s k : Z) :
  0 <= s -> 0 <= k -> suffix (suffix buf s) k = suffix buf (s + k).
Proof.
  intros Hs Hk. unfold suffix. rewrite skipn_skipn. f_equal. lia.
Qed.

(** ** [strlen] and the lines of a C string *)

Lemma strlen_bounds (str : list ascii) :
  0 <= strlen str <= Z.of_nat (List.length str).
Proof.
  induction str as [|c r IH]; [simpl; lia|].
  cbn [strlen List.length]. rewrite Nat2Z.inj_succ.
  destruct (Ascii.eqb c NUL); lia.
Qed.

Lemma strlen_get_end (str : list ascii) : get str (strlen str) = NUL.
Proof.
  induction str as [|c r IH]; cbn [strlen]; [reflexivity|].
  destruct (Ascii.eqb c NUL) eqn:E; ascii_cases.
  - now subst.
  - pose proof (strlen_bounds r).
    replace (1 + strlen r) with (strlen r + 1) by lia.
    now rewrite get_cons by lia.
Qed.

Lemma strlen_get_before (str : list ascii) (i : Z) :
  0 <= i < strlen str -> get str i <> NUL.
Proof.
  revert i. induction str as [|c r IH]; cbn [strlen]; intros i Hi; [lia|].
  destruct (Ascii.eqb c NUL) eqn:E; ascii_cases; [lia|].
  destruct (Z.eq_dec i 0) as [->|Hn]; [exact E|].
  replace i with (i - 1 + 1) by lia. rewrite get_cons by lia.
  apply IH. lia.
Qed.

Lemma strlen_least (str : list ascii) (i : Z) :
  0 <= i -> get str i = NUL -> strlen str <= i.
Proof.
  intros Hi Hg. destruct (Z_lt_ge_dec i (strlen str)) as [Hl|Hl]; [|lia].
  exfalso. now apply (strlen_get_before str i).
Qed.

Lemma strlen_suffix (buf : list ascii) (s : Z) :
  0 <= s <= strlen buf -> strlen (suffix buf s) = strlen buf - s.
Proof.
  intros Hs.
  pose proof (strlen_bounds (suffix buf s)) as Hb.
  assert (H1 : strlen (suffix buf s) <= strlen buf - s).
  { apply strlen_least; [lia|]. rewrite get_suffix by lia.
    replace (s + (strlen buf - s)) with (strlen buf) by lia.
    apply strlen_get_end. }
  assert (H2 : strlen buf <= s + strlen (suffix buf s)).
  { apply strlen_least; [lia|]. rewrite <- get_suffix by lia.
    apply strlen_get_end. }
  lia.
Qed.

Lemma line_span_spec (str : list ascii) :
  0 <= line_span str <= strlen str
  /\ (forall k, 0 <= k < line_span str - 1 -> get str k <> LF)
  /\ (0 < line_span str ->
      get str (line_span str - 1) = LF \/ line_span str = strlen str)
  /\ (hd NUL str <> NUL -> 0 < line_span str).
Proof.
  induction str as [|c r IH]; cbn [line_span strlen hd].
  - repeat split; try lia. intros H. now elim H.
  - destruct (Ascii.eqb c NUL) eqn:E0; ascii_cases.
    + repeat split; try lia. intros H. now elim H.
    + destruct (Ascii.eqb c LF) eqn:E1; ascii_cases.
      * pose proof (strlen_bounds r). repeat split; try lia.
        intros _. left. now subst.
      * destruct IH as (Hb & Hno & Hend & Hpos).
        repeat split; try lia.
        -- intros k Hk. destruct (Z.eq_dec k 0) as [->|Hk0]; [exact E1|].
           replace k with (k - 1 + 1) by lia. rewrite get_cons by lia.
           apply Hno. lia.
        -- intros _. destruct (Z.eq_dec (line_span r) 0) as [Hz|Hz].
           ++ right. rewrite Hz in *.
              assert (strlen r = 0); [|lia].
              destruct r as [|c' r']; [reflexivity|]. simpl in Hpos |- *.
              destruct (Ascii.eqb c' NUL) eqn:E2; [reflexivity|].
              ascii_cases. specialize (Hpos E2). lia.
           ++ destruct Hend as [Hl|Hl]; [lia| |].
              ** left. replace (1 + line_span r - 1)
                   with (line_span r - 1 + 1) by lia.
                 now rewrite get_cons by lia.
              ** right. lia.
Qed.

Lemma next_line_spec (buf : list ascii) (s : Z) :
  0 <= s ->
  s <= next_line buf s <= s + strlen (suffix buf s)
  /\ (forall j, s < j < next_line buf s -> get buf (j - 1) <> LF)
  /\ (s < next_line buf s ->
      get buf (next_line buf s - 1) = LF
      \/ next_line buf s = s + strlen (suffix buf s))
  /\ (get buf s <> NUL -> s < next_line buf s).
Proof.
  intros Hs. unfold next_line.
  destruct (line_span_spec (suffix buf s)) as (Hb & Hno & Hend & Hpos).
  repeat split; try lia.
  - intros j Hj. replace (j - 1) with (s + (j - 1 - s)) by lia.
    rewrite <- get_suffix by lia. apply Hno. lia.
  - intros Hlt. destruct Hend as [Hl|Hl]; [lia| |].
    + left. replace (s + line_span (suffix buf s) - 1)
        with (s + (line_span (suffix buf s) - 1)) by lia.
      now rewrite <- get_suffix by lia.
    + right. lia.
  - intros Hg. rewrite <- hd_suffix in Hg by lia. specialize (Hpos Hg). lia.
Qed.

Lemma last_line_loop_spec (buf : list ascii) (n : nat) :
  0 <= last_line_loop buf n <= Z.of_nat n
  /\ line_start buf (last_line_loop buf n)
  /\ (forall j, last_line_loop buf n < j <= Z.of_nat n ->
      get buf (j - 1) <> LF).
Proof.
  induction n as [|i IH]; cbn [last_line_loop].
  - repeat split; try lia. now left.
  - rewrite Nat2Z.inj_succ.
    destruct (Ascii.eqb (get buf (Z.of_nat i)) LF) eqn:E; ascii_cases.
    + repeat split; try lia. right. split; [lia|].
      now replace (Z.of_nat i + 1 - 1) with (Z.of_nat i) by lia.
    + destruct IH as (Hb & Hl & Hno). repeat split; try lia; [exact Hl|].
      intros j Hj. destruct (Z.eq_dec j (Z.succ (Z.of_nat i))) as [->|Hne].
      * now replace (Z.succ (Z.of_nat i) - 1) with (Z.of_nat i) by lia.
      * apply Hno. lia.
Qed.

(** [last_line(buf, len)] is the last line start below [len]. *)
Lemma last_line_spec (buf : list ascii) (len : Z) :
  0 < len ->
  0 <= last_line buf len < len
  /\ line_start buf (last_line buf len)
  /\ (forall j, last_line buf len < j < len -> ~ line_start buf j).
Proof.
  intros Hlen. unfold last_line.
  replace (len =? 0) with false by (symmetry; apply Z.eqb_neq; lia).
  destruct (len =? 1) eqn:E1.
  - apply Z.eqb_eq in E1. subst. repeat split; try lia. now left.
  - apply Z.eqb_neq in E1.
    destruct (last_line_loop_spec buf (Z.to_nat (len - 1))) as (Hb & Hl & Hno).
    repeat split; try lia; [exact Hl|].
    intros j Hj [->|[_ Hlf]]; [lia|]. revert Hlf. apply Hno. lia.
Qed.

Lemma last_line_0 (buf : list ascii) : last_line buf 0 = -1.
Proof. reflexivity. Qed.

Lemma last_line_of_next_line (buf : list ascii) (s : Z) :
  line_start buf s -> get buf s <> NUL ->
  last_line buf (next_line buf s) = s.
Proof.
  intros Hs Hnz.
  assert (Hs0 : 0 <= s) by (destruct Hs as [->|[H _]]; lia).
  destruct (next_line_spec buf s Hs0) as (_ & Hno & _ & Hpos).
  specialize (Hpos Hnz).
  destruct (last_line_spec buf (next_line buf s) ltac:(lia))
    as (Hb & Hl & Hnone).
  destruct (Z_lt_ge_dec (last_line buf (next_line buf s)) s) as [Hlt|Hge].
  - exfalso. apply (Hnone s); [lia|exact Hs].
  - destruct (Z.eq_dec (last_line buf (next_line buf s)) s) as [He|Hne];
      [exact He|].
    exfalso. destruct Hl as [H0|[_ Hlf]]; [lia|].
    revert Hlf. apply Hno. lia.
Qed.

Lemma next_line_of_last_line (buf : list ascii) (l : Z) :
  line_start buf l -> 0 < l <= strlen buf ->
  next_line buf (last_line buf l) = l.
Proof.
  intros Hl Hr.
  destruct (last_line_spec buf l ltac:(lia)) as (Hb & Hp & Hnone).
  assert (Hnz : get buf (last_line buf l) <> NUL)
    by (apply strlen_get_before; lia).
  destruct (next_line_spec buf (last_line buf l) ltac:(lia))
    as (Hnb & Hno & Hend & Hpos).
  specialize (Hpos Hnz). specialize (Hend Hpos).
  rewrite strlen_suffix in Hnb, Hend by lia.
  destruct Hl as [->|[_ Hlf]]; [lia|].
  destruct (Z_lt_ge_dec l (next_line buf (last_line buf l))) as [Hlt|Hge].
  - exfalso. revert Hlf. apply Hno. lia.
  - destruct (Z.eq_dec (next_line buf (last_line buf l)) l) as [He|Hne];
      [exact He|].
    exfalso. destruct Hend as [Hlf'|Hlen]; [|lia].
    apply (Hnone (next_line buf (last_line buf l))); [lia|].
    right. split; [lia|exact Hlf'].
Qed.

(** ** [git__prefixcmp] *)

Lemma code_inj (a b : ascii) : code a = code b -> a = b.
Proof.
  unfold code. intros H. apply N2Z.inj in H.
  rewrite <- (ascii_N_embedding a), <- (ascii_N_embedding b). now f_equal.
Qed.

Lemma git__prefixcmp_spec (prefix str : list ascii) :
  Forall (fun c => c <> NUL) prefix ->
  git__prefixcmp str prefix = 0 <-> begins_with prefix str.
Proof.
  unfold begins_with. intros Hp. revert str.
  induction Hp as [|p prefix Hp0 Hp IH]; intros str; cbn [git__prefixcmp].
  - split; intros _; reflexivity.
  - apply ascii_eqb_false in Hp0. rewrite Hp0.
    destruct str as [|s str]; cbn [List.length firstn].
    + split; [|discriminate]. intros H. exfalso.
      apply ascii_eqb_false in Hp0. apply Hp0. apply code_inj.
      change (code NUL) with 0. lia.
    + destruct (Ascii.eqb s p) eqn:E; ascii_cases.
      * subst. rewrite IH. split; intros H; [now f_equal|now injection H].
      * split; intros H.
        -- exfalso. apply E. apply code_inj. lia.
        -- injection H as H1 _. contradiction.
Qed.

Lemma three_dashes_no_nul : Forall (fun c => c <> NUL) (bytes "---").
Proof. repeat constructor; discriminate. Qed.

(** ** PatchBoundaryLocator: [find_patch_start] *)

Lemma find_patch_start_loop_spec (str : list ascii) (fuel : nat) :
  forall s,
    0 <= s <= strlen str ->
    strlen str - s <= Z.of_nat fuel ->
    (s < strlen str -> line_start str s) ->
    (forall j, 0 <= j < s -> line_start str j ->
       ~ begins_with (bytes "---") (suffix str j)) ->
    exists r, find_patch_start_loop fuel str s = Some r /\ patch_boundary str r.
Proof.
  induction fuel as [|fuel IH]; intros s Hs Hfuel Hline Hbefore.
  - assert (s = strlen str) by lia. subst s.
    cbn [find_patch_start_loop]. rewrite strlen_get_end.
    exists (strlen str). split; [reflexivity|]. right. split; [reflexivity|].
    exact Hbefore.
  - cbn [find_patch_start_loop].
    destruct (Ascii.eqb (get str s) NUL) eqn:E; ascii_cases.
    + assert (s = strlen str).
      { pose proof (strlen_least str s ltac:(lia) E). lia. }
      subst s. exists (strlen str). split; [reflexivity|]. right.
      split; [reflexivity|exact Hbefore].
    + assert (Hlt : s < strlen str).
      { destruct (Z_lt_ge_dec s (strlen str)); [assumption|].
        assert (s = strlen str) by lia. subst s.
        now rewrite strlen_get_end in E. }
      destruct (git__prefixcmp (suffix str s) (bytes "---") =? 0) eqn:Ep.
      * apply Z.eqb_eq in Ep.
        apply (git__prefixcmp_spec _ _ three_dashes_no_nul) in Ep.
        exists s. split; [reflexivity|]. left.
        split; [lia|]. split; [auto|]. split; [exact Ep|exact Hbefore].
      * apply Z.eqb_neq in Ep.
        rewrite (git__prefixcmp_spec _ _ three_dashes_no_nul) in Ep.
        destruct (next_line_spec str s ltac:(lia)) as (Hb & Hno & Hend & Hpos).
        specialize (Hpos E). rewrite strlen_suffix in Hb, Hend by lia.
        apply IH; try lia.
        -- intros Hs'. destruct (Hend Hpos) as [Hl|Hl]; [|lia].
           right. split; [lia|exact Hl].
        -- intros j Hj Hlj. destruct (Z_lt_ge_dec j s) as [Hjs|Hjs].
           ++ apply Hbefore; [lia|exact Hlj].
           ++ destruct (Z.eq_dec j s) as [->|Hne]; [exact Ep|].
              exfalso. destruct Hlj as [->|[_ Hlf]]; [lia|].
              revert Hlf. apply Hno. lia.
Qed.

Lemma find_patch_start_loop_boundary (message : list ascii) :
  exists r,
    find_patch_start_loop (List.length message) message 0 = Some r
    /\ patch_boundary message r.
Proof.
  pose proof (strlen_bounds message) as Hb.
  apply find_patch_start_loop_spec; try lia.
  intros _. now left.
Qed.

Lemma patch_boundary_range (message : list ascii) (r : Z) :
  patch_boundary message r -> 0 <= r <= strlen message.
Proof.
  pose proof (strlen_bounds message).
  intros [(Hr & _)|(Hr & _)]; lia.
Qed.

Lemma to_int_small (z : Z) : -2147483648 <= z <= INT_MAX -> to_int z = z.
Proof.
  unfold to_int, INT_MAX. intros H. rewrite Z.mod_small by lia. lia.
Qed.

(** For a message of at most [INT_MAX] bytes the conversion to [int] keeps
    the offset. *)
Lemma find_patch_start_spec (message : list ascii) :
  strlen message <= INT_MAX ->
  exists r, find_patch_start message = Some r /\ patch_boundary message r.
Proof.
  intros Hfit.
  destruct (find_patch_start_loop_boundary message) as (r & Hr & Hb).
  exists r. split; [|exact Hb].
  unfold find_patch_start. rewrite Hr. cbn [option_map]. f_equal.
  apply to_int_small. apply patch_boundary_range in Hb. lia.
Qed.


Lemma get_repeat (c : ascii) (n : nat) (i : Z) :
  get (repeat c n) i = c \/ get (repeat c n) i = NUL.
Proof.
  unfold get. destruct (i <? 0); [now right|].
  destruct (nth_in_or_default (Z.to_nat i) (repeat c n) NUL) as [Hin|Hd];
    [left; exact (repeat_spec _ _ _ Hin)|right; exact Hd].
Qed.



(** ** TrailerBlockLocator: [find_trailer_start] *)

Lemma end_of_title_loop_spec (buf : list ascii) (len : Z) (fuel : nat) :
  len <= strlen buf ->
  forall s,
    0 <= s ->
    (s < len -> line_start buf s) ->
    len - s <= Z.of_nat fuel ->
    exists e, end_of_title_loop fuel buf len s = Some e
      /\ s <= e
      /\ (e < len -> line_start buf e /\ blank_at buf e).
Proof.
  intros Hlen. induction fuel as [|fuel IH]; intros s Hs Hline Hfuel.
  - cbn [end_of_title_loop].
    replace (s <? len) with false by (symmetry; apply Z.ltb_ge; lia).
    exists s. repeat split; lia.
  - cbn [end_of_title_loop]. destruct (s <? len) eqn:Elt.
    2:{ apply Z.ltb_ge in Elt. exists s. repeat split; lia. }
    apply Z.ltb_lt in Elt.
    assert (Hnz : get buf s <> NUL) by (apply strlen_get_before; lia).
    destruct (next_line_spec buf s Hs) as (Hb & _ & Hend & Hpos).
    specialize (Hpos Hnz). rewrite strlen_suffix in Hb, Hend by lia.
    assert (Hnext : exists e,
      end_of_title_loop fuel buf len (next_line buf s) = Some e
      /\ s <= e /\ (e < len -> line_start buf e /\ blank_at buf e)).
    { destruct (IH (next_line buf s)) as (e & He & Hle & Hprop); try lia.
      - intros Hn. destruct (Hend Hpos) as [Hl|Hl]; [|lia].
        right. split; [lia|exact Hl].
      - exists e. split; [exact He|]. split; [lia|exact Hprop]. }
    destruct (Ascii.eqb (get buf s) COMMENT_LINE_CHAR) eqn:Ec;
      [exact Hnext|]. ascii_cases.
    destruct (is_blank_line (suffix buf s)) eqn:Eb; [|exact Hnext].
    exists s. split; [reflexivity|]. split; [lia|].
    intros _. split; [auto|]. split; assumption.
Qed.

Lemma end_of_title_spec (buf : list ascii) (len : Z) :
  0 <= len <= strlen buf ->
  exists e, end_of_title buf len = Some e
    /\ 0 <= e
    /\ (e < len -> line_start buf e /\ blank_at buf e).
Proof.
  intros Hlen. unfold end_of_title.
  apply end_of_title_loop_spec; try lia. intros _. now left.
Qed.

Lemma classify_line_props (bol : list ascii) (c : counters) :
  only_spaces (classify_line bol c) = false
  /\ (0 <= trailer_lines c -> 0 <= trailer_lines (classify_line bol c)).
Proof.
  unfold classify_line. cbn [recognized_prefix trailer_lines
    non_trailer_lines possible_continuation_lines].
  destruct (existsb _ _); [cbn; split; [reflexivity|lia]|].
  destruct (_ && _); [cbn; split; [reflexivity|lia]|].
  destruct (isspace _); cbn; split; try reflexivity; lia.
Qed.

Lemma exit_ok_weaken (buf : list ascii) (e hi hi' : Z) (x : scan_exit) :
  hi <= hi' -> exit_ok buf e hi x -> exit_ok buf e hi' x.
Proof. destruct x; cbn; intuition lia. Qed.

(** A line start [e] below the line start [l] is not skipped by
    [last_line]. *)
Lemma last_line_keeps (buf : list ascii) (e l : Z) :
  0 <= e < l -> line_start buf e ->
  e <= last_line buf l < l /\ line_start buf (last_line buf l).
Proof.
  intros He Hl. destruct (last_line_spec buf l ltac:(lia)) as (Hb & Hs & Hno).
  repeat split; try lia; [|exact Hs].
  destruct (Z_le_gt_dec e (last_line buf l)); [assumption|].
  exfalso. apply (Hno e); [lia|exact Hl].
Qed.

Lemma last_line_below (buf : list ascii) (e : Z) :
  0 <= e -> last_line buf e < e.
Proof.
  intros He. destruct (Z.eq_dec e 0) as [->|Hne]; [rewrite last_line_0; lia|].
  destruct (last_line_spec buf e ltac:(lia)) as (Hb & _). lia.
Qed.

Lemma backward_scan_below (fuel : nat) (buf : list ascii) (e l : Z)
    (c : counters) :
  l < e -> backward_scan fuel buf e l c = Some (BelowTitle c).
Proof.
  intros H. destruct fuel; cbn [backward_scan];
    rewrite geb_false by lia; reflexivity.
Qed.

Lemma backward_scan_spec (buf : list ascii) (e : Z) :
  0 <= e -> line_start buf e -> blank_at buf e ->
  forall (fuel : nat) (l : Z) (c : counters),
    e <= l -> line_start buf l -> l < Z.of_nat fuel -> quiet c ->
    exists x, backward_scan fuel buf e l c = Some x /\ exit_ok buf e l x.
Proof.
  intros He Hle [Hec Heb]. induction fuel as [|fuel IH];
    intros l c Hl Hll Hfuel [Hq0 Hq]; [lia|].
  cbn [backward_scan].
  rewrite geb_true by lia.
  rewrite hd_suffix by lia.
  assert (Hstep : forall c', quiet c' -> e < l ->
    exists x, backward_scan fuel buf e (last_line buf l) c' = Some x
      /\ exit_ok buf e l x).
  { intros c' Hq' Hlt.
    destruct (last_line_keeps buf e l ltac:(lia) Hle) as (Hb & Hs).
    destruct (IH (last_line buf l) c') as (x & Hx & Hok);
      try assumption; try lia.
    exists x. split; [exact Hx|]. apply exit_ok_weaken with (2 := Hok). lia. }
  destruct (Ascii.eqb (get buf l) COMMENT_LINE_CHAR) eqn:Ec; ascii_cases.
  - apply Hstep.
    + split; cbn; assumption.
    + destruct (Z.eq_dec l e) as [->|Hne]; [contradiction|lia].
  - destruct (is_blank_line (suffix buf l)) eqn:Eb.
    + destruct (only_spaces c) eqn:Eo.
      * destruct (Z.eq_dec l e) as [->|Hne].
        -- rewrite backward_scan_below by (apply last_line_below; lia).
           exists (BelowTitle c). split; [reflexivity|]. cbn. now apply Hq.
        -- apply Hstep; [|lia]. split; [assumption|]. now rewrite Eo.
      * eexists. split; [reflexivity|]. cbn.
        repeat split; try assumption; lia.
    + apply Hstep.
      * destruct (classify_line_props (suffix buf l) c) as (Ho & Ht).
        split; [auto|]. rewrite Ho. discriminate.
      * destruct (Z.eq_dec l e) as [->|Hne]; [congruence|lia].
Qed.



Lemma trailer_scan_spec (buf : list ascii) (len : Z) :
  0 <= len <= strlen buf ->
  exists e x, end_of_title buf len = Some e
    /\ trailer_scan buf len = Some x
    /\ 0 <= e
    /\ match x with
       | AtBlankLine l c =>
           e <= l < len /\ line_start buf l /\ blank_at buf l
           /\ 0 <= trailer_lines c /\ only_spaces c = false
       | BelowTitle c => trailer_lines c = 0 /\ recognized_prefix c = false
       end.
Proof.
  intros Hlen. unfold trailer_scan.
  destruct (end_of_title_spec buf len Hlen) as (e & He & He0 & Hprop).
  rewrite He. exists e.
  destruct (Z_lt_ge_dec e len) as [Hlt|Hge].
  - destruct (Hprop Hlt) as (Hle & Hbl).
    assert (Hl0 : e <= last_line buf len < len
                  /\ line_start buf (last_line buf len)).
    { destruct (last_line_spec buf len ltac:(lia)) as (Hb & Hs & Hno).
      repeat split; try lia; [|exact Hs].
      destruct (Z_le_gt_dec e (last_line buf len)); [assumption|].
      exfalso. apply (Hno e); [lia|exact Hle]. }
    destruct Hl0 as (Hb & Hs).
    destruct (backward_scan_spec buf e He0 Hle Hbl (S (Z.to_nat len))
                (last_line buf len) counters0) as (x & Hx & Hok);
      try assumption; try lia.
    { split; cbn; [lia|auto]. }
    exists x. repeat split; try assumption.
    destruct x as [l c|c]; cbn in Hok |- *; intuition lia.
  - rewrite backward_scan_below.
    + exists (BelowTitle counters0). repeat split; assumption || reflexivity.
    + destruct (Z.eq_dec len 0) as [->|Hne]; [rewrite last_line_0; lia|].
      destruct (last_line_spec buf len ltac:(lia)) as (Hb & _). lia.
Qed.

(** ** TrailingNoiseTrimmer: [ignore_non_trailer] always returns *)

Lemma memchr_bound (p : list ascii) (c : ascii) (n : nat) (k : Z) :
  memchr p c n = Some k -> 0 <= k < Z.of_nat n.
Proof.
  revert p k. induction n as [|n IH]; intros p k; cbn [memchr];
    [discriminate|].
  destruct p as [|x r]; [discriminate|].
  destruct (Ascii.eqb x c).
  - intros [= <-]. lia.
  - destruct (memchr r c n) as [k'|] eqn:E; cbn [option_map]; [|discriminate].
    intros [= <-]. specialize (IH r k' E). lia.
Qed.

Lemma ignore_non_trailer_loop_total (buf : list ascii) (len : Z) (fuel : nat) :
  forall boc bol in_old,
    0 <= boc <= bol -> bol <= len -> len - bol <= Z.of_nat fuel ->
    exists n,
      ignore_non_trailer_loop fuel buf len boc bol in_old = Some n
      /\ 0 <= n <= len.
Proof.
  induction fuel as [|fuel IH]; intros boc bol in_old Hboc Hbol Hfuel.
  - cbn [ignore_non_trailer_loop].
    replace (bol <? len) with false by (symmetry; apply Z.ltb_ge; lia).
    eexists. split; [reflexivity|]. destruct (negb (boc =? 0)); lia.
  - cbn [ignore_non_trailer_loop]. destruct (bol <? len) eqn:Elt.
    2:{ eexists. split; [reflexivity|]. destruct (negb (boc =? 0)); lia. }
    apply Z.ltb_lt in Elt.
    set (nl := match memchr (suffix buf bol) LF (Z.to_nat (len - bol)) with
               | Some k => bol + k + 1
               | None => len
               end).
    assert (Hnl : bol < nl <= len).
    { subst nl. destruct (memchr _ _ _) as [k|] eqn:E; [|lia].
      apply memchr_bound in E. lia. }
    clearbody nl.
    assert (Hgo : forall boc' flag, 0 <= boc' <= bol ->
      exists n,
        ignore_non_trailer_loop fuel buf len boc' nl flag = Some n
        /\ 0 <= n <= len).
    { intros boc' flag Hb. apply IH; lia. }
    destruct (_ || _); [apply Hgo; destruct (boc =? 0); lia|].
    destruct (_ =? 0); [apply Hgo; destruct (boc =? 0); lia|].
    destruct (_ && _); [apply Hgo; lia|].
    destruct (negb _); apply Hgo; lia.
Qed.

Lemma ignore_non_trailer_total (buf : list ascii) (len : Z) :
  0 <= len ->
  exists n, ignore_non_trailer buf len = Some n /\ 0 <= n <= len.
Proof.
  intros Hlen. unfold ignore_non_trailer.
  apply ignore_non_trailer_loop_total; lia.
Qed.

Lemma find_trailer_end_total (buf : list ascii) (len : Z) :
  0 <= len ->
  exists e, find_trailer_end buf len = Some e /\ 0 <= e <= len.
Proof.
  intros Hlen. unfold find_trailer_end.
  destruct (ignore_non_trailer_total buf len Hlen) as (n & Hn & Hb).
  rewrite Hn. eexists. split; [reflexivity|]. lia.
Qed.

Lemma find_patch_start_total (message : list ascii) :
  strlen message <= INT_MAX ->
  exists p, find_patch_start message = Some p /\ 0 <= p <= strlen message.
Proof.
  intros Hfit.
  destruct (find_patch_start_spec message Hfit) as (p & Hp & Hb).
  exists p. split; [exact Hp|]. now apply patch_boundary_range.
Qed.

(** ** Paragraphs seen by the backward scan *)

Lemma last_line_next_start (buf : list ascii) (l a : Z) :
  0 <= l -> line_start buf a -> last_line buf l < a -> l <= a.
Proof.
  intros Hl Ha Hlt. destruct (Z.eq_dec l 0) as [->|Hne].
  - destruct Ha as [->|[Ha _]]; lia.
  - destruct (last_line_spec buf l ltac:(lia)) as (_ & _ & Hno).
    destruct (Z_le_gt_dec l a); [assumption|].
    exfalso. apply (Hno a); [lia|exact Ha].
Qed.

(** The text after the blank line at which the scan stops has no blank line
    that is followed by a line with content. *)
Lemma backward_scan_paragraph (buf : list ascii) (len e : Z) :
  0 <= e ->
  forall (fuel : nat) (l : Z) (c : counters) (l0 : Z) (c0 : counters),
    no_paragraph_above buf len l ->
    (only_spaces c = true ->
     forall b, line_start buf b -> l < b < len -> ignorable_at buf b) ->
    backward_scan fuel buf e l c = Some (AtBlankLine l0 c0) ->
    no_paragraph_above buf len l0.
Proof.
  intros He. induction fuel as [|fuel IH]; intros l c l0 c0 Hpar Hign;
    cbn [backward_scan]; destruct (l >=? e) eqn:Ege; try discriminate.
  apply geb_true_inv in Ege. rewrite hd_suffix by lia.
  pose proof (last_line_next_start buf l) as Hnext.
  destruct (Ascii.eqb (get buf l) COMMENT_LINE_CHAR) eqn:Ec; ascii_cases.
  - apply IH.
    + intros a b Ha Hb Hla Hab Hblen Hbl Hct.
      specialize (Hnext a ltac:(lia) Ha Hla).
      destruct (Z.eq_dec a l) as [->|Hne].
      * destruct Hbl as [Hbl _]. contradiction.
      * apply (Hpar a b); try assumption. lia.
    + cbn [only_spaces]. intros Ho b Hb Hlb.
      specialize (Hnext b ltac:(lia) Hb ltac:(lia)).
      destruct (Z.eq_dec b l) as [->|Hne]; [now left|].
      apply Hign; try assumption. lia.
  - destruct (is_blank_line (suffix buf l)) eqn:Eb.
    + destruct (only_spaces c) eqn:Eo.
      * apply IH.
        -- intros a b Ha Hb Hla Hab Hblen Hbl Hct.
           specialize (Hnext a ltac:(lia) Ha Hla).
           destruct (Z.eq_dec a l) as [->|Hne].
           ++ destruct (Hign eq_refl b Hb ltac:(lia)) as [Hc|Hc];
                destruct Hct as [Hct1 Hct2]; congruence.
           ++ apply (Hpar a b); try assumption. lia.
        -- intros Ho b Hb Hlb.
           specialize (Hnext b ltac:(lia) Hb ltac:(lia)).
           destruct (Z.eq_dec b l) as [->|Hne]; [now right|].
           apply Hign; first [reflexivity | assumption | lia].
      * intros [= <- <-]. exact Hpar.
    + apply IH.
      * intros a b Ha Hb Hla Hab Hblen Hbl Hct.
        specialize (Hnext a ltac:(lia) Ha Hla).
        destruct (Z.eq_dec a l) as [->|Hne].
        -- destruct Hbl as [_ Hbl]. congruence.
        -- apply (Hpar a b); try assumption. lia.
      * destruct (classify_line_props (suffix buf l) c) as (Ho & _).
        rewrite Ho. discriminate.
Qed.

(** Over comments and blank lines only, the scan falls below the title. *)
Lemma backward_scan_ignorable (buf : list ascii) (e : Z) :
  0 <= e ->
  forall (fuel : nat) (l : Z) (c : counters) (x : scan_exit),
    only_spaces c = true ->
    (forall p, line_start buf p -> e <= p <= l -> ignorable_at buf p) ->
    (l < e \/ line_start buf l) ->
    backward_scan fuel buf e l c = Some x ->
    exists c', x = BelowTitle c'.
Proof.
  intros He. induction fuel as [|fuel IH]; intros l c x Ho Hign Hl;
    cbn [backward_scan]; destruct (l >=? e) eqn:Ege; try discriminate;
    try (intros [= <-]; now eexists).
  apply geb_true_inv in Ege. rewrite hd_suffix by lia.
  destruct Hl as [Hl|Hl]; [lia|].
  assert (Hrec : forall c', only_spaces c' = true ->
    backward_scan fuel buf e (last_line buf l) c' = Some x ->
    exists c'', x = BelowTitle c'').
  { intros c' Ho'. apply IH; [exact Ho'| |].
    - intros p Hp Hr. apply Hign; [exact Hp|].
      pose proof (last_line_below buf l ltac:(lia)). lia.
    - destruct (Z.eq_dec l 0) as [->|Hne];
        [left; rewrite last_line_0; lia|].
      right. now destruct (last_line_spec buf l ltac:(lia)) as (_ & Hs & _). }
  destruct (Ascii.eqb (get buf l) COMMENT_LINE_CHAR) eqn:Ec; ascii_cases.
  - apply Hrec. exact Ho.
  - destruct (is_blank_line (suffix buf l)) eqn:Eb.
    + rewrite Ho. apply Hrec. exact Ho.
    + destruct (Hign l Hl ltac:(lia)) as [Hc|Hc]; congruence.
Qed.

(** ** The dual rule on the lines of the last paragraph *)

Lemma lines_from_enough (buf : list ascii) (len : Z) :
  len <= strlen buf ->
  forall (f1 f2 : nat) (s : Z),
    0 <= s -> len - s <= Z.of_nat f1 -> len - s <= Z.of_nat f2 ->
    lines_from f1 buf len s = lines_from f2 buf len s.
Proof.
  intros Hlen. induction f1 as [|f1 IH]; intros f2 s Hs H1 H2.
  - destruct f2; cbn [lines_from]; [reflexivity|].
    replace (s <? len) with false by (symmetry; apply Z.ltb_ge; lia).
    reflexivity.
  - destruct f2 as [|f2]; cbn [lines_from];
      destruct (s <? len) eqn:Elt; try reflexivity.
    + apply Z.ltb_lt in Elt. lia.
    + apply Z.ltb_lt in Elt. f_equal.
      assert (Hnz : get buf s <> NUL) by (apply strlen_get_before; lia).
      destruct (next_line_spec buf s Hs) as (_ & _ & _ & Hpos).
      specialize (Hpos Hnz). apply IH; lia.
Qed.

Lemma lines_between_nil (buf : list ascii) (s len : Z) :
  len <= s -> lines_between buf s len = [].
Proof.
  intros H. unfold lines_between.
  replace (Z.to_nat (len - s)) with O by lia. reflexivity.
Qed.

Lemma lines_between_cons (buf : list ascii) (s len : Z) :
  0 <= s < len -> len <= strlen buf ->
  lines_between buf s len = s :: lines_between buf (next_line buf s) len.
Proof.
  intros Hs Hlen. unfold lines_between.
  destruct (Z.to_nat (len - s)) as [|f] eqn:Ef; [lia|].
  cbn [lines_from].
  replace (s <? len) with true by (symmetry; apply Z.ltb_lt; lia).
  f_equal.
  assert (Hnz : get buf s <> NUL) by (apply strlen_get_before; lia).
  destruct (next_line_spec buf s ltac:(lia)) as (_ & _ & _ & Hpos).
  specialize (Hpos Hnz). apply (lines_from_enough buf len Hlen); lia.
Qed.

(** The lines between a line start and [len] are the line starts there. *)
Lemma lines_between_in (buf : list ascii) (len : Z) :
  len <= strlen buf ->
  forall (fuel : nat) (s p : Z),
    0 <= s -> (s < len -> line_start buf s) ->
    In p (lines_from fuel buf len s) ->
    line_start buf p /\ s <= p < len.
Proof.
  intros Hlen. induction fuel as [|fuel IH]; intros s p Hs Hls;
    cbn [lines_from]; [intros []|].
  destruct (s <? len) eqn:Elt; [|intros []].
  apply Z.ltb_lt in Elt. intros [<-|Hin]; [split; [auto|lia]|].
  assert (Hnz : get buf s <> NUL) by (apply strlen_get_before; lia).
  destruct (next_line_spec buf s Hs) as (Hb & _ & Hend & Hpos).
  specialize (Hpos Hnz). rewrite strlen_suffix in Hend by lia.
  destruct (IH (next_line buf s) p) as (Hp & Hr); try assumption; try lia.
  - intros Hn. destruct (Hend Hpos) as [Hlf|Heq]; [|lia].
    right. split; [lia|exact Hlf].
  - split; [exact Hp|lia].
Qed.

(** The last line of a region ends at or after the end of the region. *)
Lemma next_line_of_last_line_end (buf : list ascii) (len : Z) :
  0 < len <= strlen buf -> len <= next_line buf (last_line buf len).
Proof.
  intros Hlen.
  destruct (last_line_spec buf len ltac:(lia)) as (Hb & Hl & Hnone).
  assert (Hnz : get buf (last_line buf len) <> NUL)
    by (apply strlen_get_before; lia).
  destruct (next_line_spec buf (last_line buf len) ltac:(lia))
    as (_ & _ & Hend & Hpos).
  specialize (Hpos Hnz). rewrite strlen_suffix in Hend by lia.
  destruct (Z_le_gt_dec len (next_line buf (last_line buf len)));
    [assumption|].
  exfalso. destruct (Hend Hpos) as [Hlf|Heq]; [|lia].
  apply (Hnone (next_line buf (last_line buf len))); [lia|].
  right. split; [lia|exact Hlf].
Qed.

(** *** The counters are the tally of the lines passed *)

Lemma tallied_start : tallied counters0 [].
Proof. split; reflexivity. Qed.

Lemma tallied_comment (c : counters) (ks : list line_kind) :
  tallied c ks ->
  tallied
    (Counters (only_spaces c) (recognized_prefix c) (trailer_lines c)
       (non_trailer_lines c + possible_continuation_lines c) 0)
    (CommentLine :: ks).
Proof.
  intros [_ Hf]. unfold tallied.
  cbn [tally_of recognized_prefix trailer_lines non_trailer_lines
       possible_continuation_lines].
  rewrite Z.add_0_r. split; exact Hf.
Qed.

Lemma tallied_blank (c : counters) (ks : list line_kind) :
  tallied c ks -> tallied c (BlankLine :: ks).
Proof. intros [Ht Hf]. split; cbn [tally_of]; assumption. Qed.

Lemma tallied_classify (bol : list ascii) (c : counters)
    (ks : list line_kind) :
  hd NUL bol <> COMMENT_LINE_CHAR -> is_blank_line bol = false ->
  tallied c ks ->
  tallied (classify_line bol c) (kind_of bol :: ks).
Proof.
  intros Hc Hb [Ht Hf]. unfold tallied, kind_of, classify_line.
  apply ascii_eqb_false in Hc. rewrite Hc, Hb.
  destruct (existsb _ _).
  { cbn [tally_of recognized_prefix trailer_lines non_trailer_lines
         possible_continuation_lines].
    rewrite Ht. cbn [with_prefix trailer_count non_trailer_count].
    rewrite Z.add_0_r. split; reflexivity. }
  destruct (_ && _).
  { cbn [tally_of recognized_prefix trailer_lines non_trailer_lines
         possible_continuation_lines].
    rewrite Ht. cbn [with_prefix trailer_count non_trailer_count].
    rewrite Z.add_0_r. split; reflexivity. }
  destruct (isspace _).
  { cbn [tally_of recognized_prefix trailer_lines non_trailer_lines
         possible_continuation_lines].
    rewrite Ht, Hf. cbn [with_prefix trailer_count non_trailer_count].
    split; [reflexivity|]. f_equal. lia. }
  cbn [tally_of recognized_prefix trailer_lines non_trailer_lines
       possible_continuation_lines].
  rewrite Hf. cbn [with_prefix trailer_count non_trailer_count].
  rewrite Z.add_0_r. split; f_equal; lia.
Qed.

(** At the blank line where the scan stops, its counters are the tally of
    the lines below that line. *)
Lemma backward_scan_tallied (buf : list ascii) (len e : Z) :
  0 <= e -> len <= strlen buf ->
  forall (fuel : nat) (l : Z) (c : counters) (l0 : Z) (c0 : counters),
    line_start buf l -> l < len ->
    tallied c (kinds_between buf (next_line buf l) len) ->
    backward_scan fuel buf e l c = Some (AtBlankLine l0 c0) ->
    Tally (recognized_prefix c0) (trailer_lines c0) (non_trailer_lines c0)
    = paragraph_tally buf (next_line buf l0) len.
Proof.
  intros He Hlen. induction fuel as [|fuel IH]; intros l c l0 c0 Hls Hl Ht;
    cbn [backward_scan]; destruct (l >=? e) eqn:Ege; try discriminate.
  apply geb_true_inv in Ege. rewrite hd_suffix by lia.
  assert (Hrec : forall c',
    tallied c' (kind_of (suffix buf l) :: kinds_between buf (next_line buf l)
                                            len) ->
    backward_scan fuel buf e (last_line buf l) c' = Some (AtBlankLine l0 c0) ->
    Tally (recognized_prefix c0) (trailer_lines c0) (non_trailer_lines c0)
    = paragraph_tally buf (next_line buf l0) len).
  { intros c' Ht' Hx.
    destruct (Z_lt_ge_dec (last_line buf l) e) as [Hlt|Hge].
    { rewrite backward_scan_below in Hx by exact Hlt. discriminate Hx. }
    assert (Hl0 : 0 < l).
    { destruct (Z.eq_dec l 0) as [->|Hne]; [rewrite last_line_0 in Hge|];
        lia. }
    destruct (last_line_spec buf l Hl0) as (Hb & Hs & _).
    apply (IH (last_line buf l) c'); try assumption; try lia.
    rewrite (next_line_of_last_line buf l Hls) by lia.
    unfold kinds_between. rewrite lines_between_cons by lia.
    exact Ht'. }
  destruct (Ascii.eqb (get buf l) COMMENT_LINE_CHAR) eqn:Ec.
  - apply Hrec. unfold kind_of. rewrite hd_suffix by lia. rewrite Ec.
    now apply tallied_comment.
  - destruct (is_blank_line (suffix buf l)) eqn:Eb.
    + destruct (only_spaces c) eqn:Eo.
      * apply Hrec. unfold kind_of. rewrite hd_suffix by lia.
        rewrite Ec, Eb. now apply tallied_blank.
      * intros [= <- <-].
        cbn [recognized_prefix trailer_lines non_trailer_lines].
        unfold paragraph_tally. destruct Ht as [_ Hf]. now rewrite Hf.
    + apply Hrec. apply tallied_classify; [|exact Eb|exact Ht].
      rewrite hd_suffix by lia. now apply ascii_eqb_false.
Qed.

(** The scan stops at a blank line only below a line with content. *)
Lemma backward_scan_content (buf : list ascii) (len e : Z) :
  0 <= e ->
  forall (fuel : nat) (l : Z) (c : counters) (l0 : Z) (c0 : counters),
    line_start buf l -> l < len ->
    (only_spaces c = false ->
     exists b, line_start buf b /\ l < b < len /\ content_at buf b) ->
    backward_scan fuel buf e l c = Some (AtBlankLine l0 c0) ->
    exists b, line_start buf b /\ l0 < b < len /\ content_at buf b.
Proof.
  intros He. induction fuel as [|fuel IH]; intros l c l0 c0 Hls Hl Hc;
    cbn [backward_scan]; destruct (l >=? e) eqn:Ege; try discriminate.
  apply geb_true_inv in Ege. rewrite hd_suffix by lia.
  assert (Hrec : forall c',
    (only_spaces c' = false ->
     exists b, line_start buf b /\ last_line buf l < b < len
               /\ content_at buf b) ->
    backward_scan fuel buf e (last_line buf l) c' = Some (AtBlankLine l0 c0) ->
    exists b, line_start buf b /\ l0 < b < len /\ content_at buf b).
  { intros c' Hc' Hx.
    destruct (Z_lt_ge_dec (last_line buf l) e) as [Hlt|Hge].
    { rewrite backward_scan_below in Hx by exact Hlt. discriminate Hx. }
    assert (Hl0 : 0 < l).
    { destruct (Z.eq_dec l 0) as [->|Hne]; [rewrite last_line_0 in Hge|];
        lia. }
    destruct (last_line_spec buf l Hl0) as (Hb & Hs & _).
    apply (IH (last_line buf l) c' l0 c0); try assumption; lia. }
  assert (Hbelow : last_line buf l < l) by (apply last_line_below; lia).
  assert (Hkeep : only_spaces c = false ->
    exists b, line_start buf b /\ last_line buf l < b < len
              /\ content_at buf b).
  { intros Ho. destruct (Hc Ho) as (b & Hb & Hr & Hct).
    exists b. split; [exact Hb|]. split; [lia|exact Hct]. }
  destruct (Ascii.eqb (get buf l) COMMENT_LINE_CHAR) eqn:Ec; ascii_cases.
  - apply Hrec. exact Hkeep.
  - destruct (is_blank_line (suffix buf l)) eqn:Eb.
    + destruct (only_spaces c) eqn:Eo.
      * apply Hrec. rewrite Eo. intros H. discriminate H.
      * intros [= <- <-]. apply Hc. reflexivity.
    + apply Hrec. intros _. exists l. split; [exact Hls|].
      split; [lia|]. split; assumption.
Qed.

(** When the scan falls below the title, every line from the first blank
    line on is a blank line or a comment. *)
Lemma backward_scan_all_ignorable (buf : list ascii) (len e : Z) :
  0 <= e -> line_start buf e -> blank_at buf e ->
  forall (fuel : nat) (l : Z) (c c' : counters),
    e <= l -> line_start buf l -> l < len ->
    (only_spaces c = true ->
     forall b, line_start buf b -> l < b < len -> ignorable_at buf b) ->
    backward_scan fuel buf e l c = Some (BelowTitle c') ->
    forall b, line_start buf b -> e <= b < len -> ignorable_at buf b.
Proof.
  intros He Hle [Hec Heb]. induction fuel as [|fuel IH];
    intros l c c' Hl Hls Hlen Hign; cbn [backward_scan];
    rewrite geb_true by lia; [discriminate|].
  rewrite hd_suffix by lia.
  pose proof (last_line_next_start buf l) as Hnext.
  assert (Hrec : forall c1,
    e < l ->
    (only_spaces c1 = true ->
     forall b, line_start buf b -> last_line buf l < b < len ->
       ignorable_at buf b) ->
    backward_scan fuel buf e (last_line buf l) c1 = Some (BelowTitle c') ->
    forall b, line_start buf b -> e <= b < len -> ignorable_at buf b).
  { intros c1 Hlt Hign1.
    destruct (last_line_keeps buf e l ltac:(lia) Hle) as (Hb & Hs).
    apply IH; try assumption; lia. }
  destruct (Ascii.eqb (get buf l) COMMENT_LINE_CHAR) eqn:Ec; ascii_cases.
  - destruct (Z.eq_dec l e) as [->|Hne]; [contradiction|].
    apply Hrec; [lia|]. cbn [only_spaces]. intros Ho b Hb Hr.
    specialize (Hnext b ltac:(lia) Hb ltac:(lia)).
    destruct (Z.eq_dec b l) as [->|Hbl]; [now left|].
    apply Hign; [exact Ho|exact Hb|lia].
  - destruct (is_blank_line (suffix buf l)) eqn:Eb.
    + destruct (only_spaces c) eqn:Eo; [|discriminate].
      assert (Hall : forall b, line_start buf b -> last_line buf l < b < len ->
                ignorable_at buf b).
      { intros b Hb Hr.
        specialize (Hnext b ltac:(lia) Hb ltac:(lia)).
        destruct (Z.eq_dec b l) as [->|Hbl]; [now right|].
        apply Hign; [reflexivity|exact Hb|lia]. }
      destruct (Z.eq_dec l e) as [->|Hne].
      * rewrite backward_scan_below by (apply last_line_below; lia).
        intros _ b Hb Hr. apply Hall; [exact Hb|].
        pose proof (last_line_below buf e ltac:(lia)). lia.
      * apply Hrec; [lia|]. intros _. exact Hall.
    + destruct (Z.eq_dec l e) as [->|Hne]; [congruence|].
      apply Hrec; [lia|].
      destruct (classify_line_props (suffix buf l) c) as (Ho & _).
      rewrite Ho. discriminate.
Qed.

(** No line above the end of the title is blank. *)
Lemma end_of_title_loop_first (buf : list ascii) (len : Z) (fuel : nat) :
  len <= strlen buf ->
  forall s e,
    0 <= s ->
    (forall a, line_start buf a -> 0 <= a < s -> a < len ->
       ~ blank_at buf a) ->
    end_of_title_loop fuel buf len s = Some e ->
    forall a, line_start buf a -> 0 <= a < e -> a < len -> ~ blank_at buf a.
Proof.
  intros Hlen. induction fuel as [|fuel IH]; intros s e Hs Hbefore;
    cbn [end_of_title_loop]; destruct (s <? len) eqn:Elt;
    try discriminate; try (intros [= <-]; exact Hbefore).
  apply Z.ltb_lt in Elt.
  assert (Hnz : get buf s <> NUL) by (apply strlen_get_before; lia).
  destruct (next_line_spec buf s Hs) as (_ & Hno & _ & Hpos).
  specialize (Hpos Hnz).
  assert (Hnext : ~ blank_at buf s ->
    end_of_title_loop fuel buf len (next_line buf s) = Some e ->
    forall a, line_start buf a -> 0 <= a < e -> a < len -> ~ blank_at buf a).
  { intros Hnb. apply IH; [lia|].
    intros a Ha Hr Hal. destruct (Z_lt_ge_dec a s) as [Hlt|Hge].
    - apply Hbefore; [exact Ha|lia|exact Hal].
    - destruct (Z.eq_dec a s) as [->|Hne]; [exact Hnb|].
      exfalso. destruct Ha as [->|[_ Hlf]]; [lia|].
      revert Hlf. apply Hno. lia. }
  destruct (Ascii.eqb (get buf s) COMMENT_LINE_CHAR) eqn:Ec; ascii_cases.
  - apply Hnext. intros [Hc _]. contradiction.
  - destruct (is_blank_line (suffix buf s)) eqn:Eb.
    + intros [= <-]. exact Hbefore.
    + apply Hnext. intros [_ Hb]. congruence.
Qed.


(** The tally of blank lines and comments is empty. *)
Lemma tally_of_ignorable (ks : list line_kind) :
  Forall (fun k => k = CommentLine \/ k = BlankLine) ks ->
  forall after_trailer, tally_of after_trailer ks = Tally false 0 0.
Proof.
  induction 1 as [|k ks [->| ->] _ IH]; intros after_trailer;
    cbn [tally_of]; [reflexivity| |]; apply IH.
Qed.

Lemma kind_of_ignorable (buf : list ascii) (p : Z) :
  0 <= p -> ignorable_at buf p ->
  kind_of (suffix buf p) = CommentLine \/ kind_of (suffix buf p) = BlankLine.
Proof.
  intros Hp Hi. unfold kind_of. rewrite hd_suffix by lia.
  destruct (Ascii.eqb (get buf p) COMMENT_LINE_CHAR) eqn:Ec; [now left|].
  ascii_cases. destruct Hi as [Hc|Hb]; [contradiction|].
  rewrite Hb. now right.
Qed.

(** How the scan of a region ends, in terms of the lines of the region: at
    the qualifying blank line, with the tally of the lines below it in its
    counters, or below the title, when there is no qualifying blank line
    and every line from a blank line on is a blank line or a comment. *)
Lemma trailer_scan_lines (buf : list ascii) (len : Z) :
  0 <= len <= strlen buf ->
  (exists l c,
     trailer_scan buf len = Some (AtBlankLine l c)
     /\ qualifying_blank_line buf len l
     /\ 0 <= trailer_lines c
     /\ Tally (recognized_prefix c) (trailer_lines c) (non_trailer_lines c)
        = paragraph_tally buf (next_line buf l) len)
  \/ (exists c,
        trailer_scan buf len = Some (BelowTitle c)
        /\ (forall l, ~ qualifying_blank_line buf len l)
        /\ forall e, line_start buf e -> 0 <= e < len -> blank_at buf e ->
             paragraph_tally buf e len = Tally false 0 0).
Proof.
  intros Hlen.
  destruct (trailer_scan_spec buf len Hlen) as (e & x & He & Hx & He0 & Hok).
  assert (Hfirst : forall a, line_start buf a -> 0 <= a < e -> a < len ->
            ~ blank_at buf a).
  { unfold end_of_title in He.
    apply (end_of_title_loop_first buf len (S (Z.to_nat len)) ltac:(lia)
             0 e); try lia. exact He. }
  assert (Hnone : e >= len -> forall l, ~ qualifying_blank_line buf len l).
  { intros Hge l (Hr & Hls & Hbl & _). apply (Hfirst l); try assumption; lia. }
  pose proof Hx as Hscan. unfold trailer_scan in Hscan. rewrite He in Hscan.
  destruct (Z_lt_ge_dec e len) as [Hlt|Hge].
  2:{ right. rewrite backward_scan_below in Hscan.
      2:{ pose proof (last_line_below buf len ltac:(lia)). lia. }
      injection Hscan as <-. exists counters0.
      split; [exact Hx|]. split; [apply Hnone; lia|].
      intros a Ha Hr Hbl. exfalso.
      apply (Hfirst a); try assumption; lia. }
  destruct (end_of_title_spec buf len Hlen) as (e' & He' & _ & Hprop).
  assert (e' = e) by congruence. subst e'.
  destruct (Hprop Hlt) as (Hels & Hebl).
  destruct (last_line_spec buf len ltac:(lia)) as (Hlb & Hlls & Hlno).
  assert (Hempty : kinds_between buf (next_line buf (last_line buf len)) len
                   = []).
  { unfold kinds_between. rewrite lines_between_nil; [reflexivity|].
    apply next_line_of_last_line_end. lia. }
  assert (Hle : e <= last_line buf len).
  { destruct (Z_le_gt_dec e (last_line buf len)); [assumption|].
    exfalso. apply (Hlno e); [lia|exact Hels]. }
  destruct x as [l c|c].
  - left. exists l, c. destruct Hok as (Hl & Hls & Hbl & Ht & Ho).
    split; [exact Hx|]. split; [|split; [exact Ht|]].
    + split; [lia|]. split; [exact Hls|]. split; [exact Hbl|]. split.
      * apply (backward_scan_content buf len e He0 _ _ _ _ _ Hlls
                 ltac:(lia)) with (2 := Hscan).
        intros H. discriminate H.
      * apply (backward_scan_paragraph buf len e He0 _ _ _ _ _)
          with (3 := Hscan).
        -- intros a b Ha Hb Hla Hab Hblen _ _. apply (Hlno b); [lia|exact Hb].
        -- intros _ b Hb Hr. exfalso. apply (Hlno b); [lia|exact Hb].
    + apply (backward_scan_tallied buf len e He0 ltac:(lia) _ _ _ _ _ Hlls
               ltac:(lia)) with (2 := Hscan).
      rewrite Hempty. exact tallied_start.
  - right. exists c. split; [exact Hx|].
    assert (Hall : forall b, line_start buf b -> e <= b < len ->
              ignorable_at buf b).
    { apply (backward_scan_all_ignorable buf len e He0 Hels Hebl _ _ _ _
               Hle Hlls ltac:(lia)) with (2 := Hscan).
      intros _ b Hb Hr. exfalso. apply (Hlno b); [lia|exact Hb]. }
    split.
    + intros l (Hr & Hls & Hbl & (b & Hb & Hbr & Hct) & _).
      assert (Hel : e <= l).
      { destruct (Z_le_gt_dec e l); [assumption|].
        exfalso. apply (Hfirst l); try assumption; lia. }
      destruct (Hall b Hb ltac:(lia)) as [Hc|Hc];
        destruct Hct as [Hct1 Hct2]; congruence.
    + intros a Ha Hr Hbl.
      assert (Hea : e <= a).
      { destruct (Z_le_gt_dec e a); [assumption|].
        exfalso. apply (Hfirst a); try assumption; lia. }
      unfold paragraph_tally. apply tally_of_ignorable.
      unfold kinds_between. apply Forall_map. apply Forall_forall.
      intros p Hin.
      destruct (lines_between_in buf len ltac:(lia) _ a p ltac:(lia)
                  (fun _ => Ha) Hin) as (Hp & Hpr).
      apply kind_of_ignorable; [lia|]. apply Hall; [exact Hp|lia].
Qed.


(** ** A copied range of a buffer *)

Lemma is_blank_line_firstn_false (n : nat) (str : list ascii) :
  is_blank_line (firstn n str) = false -> is_blank_line str = false.
Proof.
  revert str. induction n as [|n IH]; intros str; [discriminate|].
  destruct str as [|c r]; cbn [firstn is_blank_line]; [discriminate|].
  destruct (Ascii.eqb c NUL); [discriminate|].
  destruct (Ascii.eqb c LF); [discriminate|].
  destruct (isspace c); [apply IH|reflexivity].
Qed.

Lemma is_blank_line_firstn_lf (n k : nat) (str : list ascii) :
  (k < n)%nat -> nth k str NUL = LF ->
  is_blank_line (firstn n str) = is_blank_line str.
Proof.
  revert k str. induction n as [|n IH]; intros k str Hk Hlf; [lia|].
  destruct str as [|c r]; cbn [firstn is_blank_line]; [reflexivity|].
  destruct (Ascii.eqb c NUL); [reflexivity|].
  destruct (Ascii.eqb c LF) eqn:E; [reflexivity|]. ascii_cases.
  destruct (isspace c); [|reflexivity].
  destruct k as [|k]; [cbn in Hlf; contradiction|].
  apply (IH k); [lia|exact Hlf].
Qed.

Lemma get_nth (buf : list ascii) (k : nat) :
  nth k buf NUL = get buf (Z.of_nat k).
Proof.
  unfold get.
  replace (Z.of_nat k <? 0) with false by (symmetry; apply Z.ltb_ge; lia).
  now rewrite Nat2Z.id.
Qed.

Lemma get_firstn (buf : list ascii) (n : nat) (i : Z) :
  0 <= i < Z.of_nat n -> get (firstn n buf) i = get buf i.
Proof.
  intros Hi. unfold get.
  replace (i <? 0) with false by (symmetry; apply Z.ltb_ge; lia).
  rewrite nth_firstn.
  replace (Z.to_nat i <? n)%nat with true
    by (symmetry; apply Nat.ltb_lt; lia).
  reflexivity.
Qed.

Lemma suffix_firstn (buf : list ascii) (n : nat) (i : Z) :
  suffix (firstn n buf) i = firstn (n - Z.to_nat i) (suffix buf i).
Proof. unfold suffix. apply skipn_firstn_comm. Qed.

Section Block.

(** The bytes [T, E) of [M], copied out as [B]. *)
Variables (M : list ascii) (T E : Z).
Hypothesis HT : 0 <= T.

Let B : list ascii := firstn (Z.to_nat (E - T)) (suffix M T).

Lemma block_length : Z.of_nat (List.length B) <= Z.max 0 (E - T).
Proof.
  subst B. pose proof (firstn_le_length (Z.to_nat (E - T)) (suffix M T)).
  lia.
Qed.

Lemma block_get (i : Z) :
  0 <= i < Z.of_nat (List.length B) -> get B i = get M (T + i).
Proof.
  intros Hi. pose proof block_length. subst B.
  rewrite get_firstn by lia. apply get_suffix; lia.
Qed.

Lemma block_suffix (i : Z) :
  0 <= i ->
  suffix B i = firstn (Z.to_nat (E - T) - Z.to_nat i) (suffix M (T + i)).
Proof.
  intros Hi. subst B. rewrite suffix_firstn, suffix_suffix by lia.
  reflexivity.
Qed.

Lemma block_line_start (p : Z) :
  line_start M T -> p < Z.of_nat (List.length B) ->
  line_start B p -> line_start M (T + p).
Proof.
  intros HlT Hp [->|[Hp0 Hlf]].
  - now replace (T + 0) with T by lia.
  - right. split; [lia|].
    rewrite block_get in Hlf by lia.
    now replace (T + p - 1) with (T + (p - 1)) by lia.
Qed.

Lemma block_content (p : Z) :
  0 <= p < Z.of_nat (List.length B) ->
  content_at B p -> content_at M (T + p).
Proof.
  intros Hp [Hc Hb]. split.
  - now rewrite <- block_get.
  - rewrite block_suffix in Hb by lia.
    now apply is_blank_line_firstn_false in Hb.
Qed.

(** A blank line of [B] that ends inside [B] is a blank line of [M]. *)
Lemma block_blank (a p : Z) :
  0 <= a < p -> p < Z.of_nat (List.length B) ->
  get B (p - 1) = LF ->
  blank_at B a -> blank_at M (T + a).
Proof.
  intros Ha Hp Hlf [Hc Hb]. pose proof block_length as Hlen. split.
  - rewrite <- block_get by lia. exact Hc.
  - rewrite block_suffix in Hb by lia.
    rewrite <- Hb. symmetry.
    apply (is_blank_line_firstn_lf _ (Z.to_nat (p - 1 - a))); [lia|].
    rewrite get_nth, get_suffix by lia.
    rewrite block_get in Hlf by lia. rewrite <- Hlf. f_equal. lia.
Qed.

End Block.

(** ** Re-extraction from a trailer block *)

Lemma scan_from_last_line (buf : list ascii) (len : Z) :
  no_paragraph_above buf len (last_line buf len)
  /\ (forall b, line_start buf b -> last_line buf len < b < len -> False).
Proof.
  assert (Hno : forall b,
    line_start buf b -> last_line buf len < b < len -> False).
  { intros b Hb Hr. destruct (Z_le_gt_dec len 0) as [Hle|Hgt].
    - destruct Hb as [->|[Hb _]]; lia.
    - destruct (last_line_spec buf len ltac:(lia)) as (_ & _ & Hn).
      now apply (Hn b). }
  split; [|exact Hno].
  intros a b Ha Hb Hla Hab Hblen _ _. apply (Hno b Hb). lia.
Qed.

(** In the block that [find_trailer_start] delimits, no trailer block is
    found again: its first paragraph is its title. *)
Lemma no_trailer_in_block (M : list ascii) (E : Z) (x : scan_exit) :
  0 <= E <= strlen M ->
  trailer_scan M E = Some x ->
  forall E',
    let B := firstn (Z.to_nat (E - trailer_start_of M E x))
               (suffix M (trailer_start_of M E x)) in
    0 <= E' <= strlen B ->
    find_trailer_start B E' = Some E'.
Proof.
  intros HE Hx E' B HE'.
  destruct (end_of_title_spec B E' HE') as (e' & He' & He'0 & Htitle).
  destruct (trailer_scan_spec B E' HE') as (e'' & x' & He'' & Hx' & _ & _).
  assert (e'' = e') by congruence. subst e''. clear He''.
  unfold find_trailer_start. rewrite Hx'.
  enough (Hbelow : exists c', x' = BelowTitle c').
  { destruct Hbelow as (c' & ->). reflexivity. }
  unfold trailer_scan in Hx'. rewrite He' in Hx'.
  apply (backward_scan_ignorable B e' He'0 _ _ counters0 _ eq_refl)
    with (3 := Hx').
  2:{ destruct (Z.eq_dec E' 0) as [->|Hne];
        [left; rewrite last_line_0; lia|].
      right. now destruct (last_line_spec B E' ltac:(lia)) as (_ & Hs & _). }
  intros p Hp Hrange.
  destruct (Ascii.eqb (get B p) COMMENT_LINE_CHAR) eqn:Ec; ascii_cases;
    [now left|].
  destruct (is_blank_line (suffix B p)) eqn:Eb; [now right|].
  exfalso.
  assert (Hct : content_at B p) by (split; assumption).
  pose proof (last_line_below B E' ltac:(lia)) as HlE.
  pose proof (strlen_bounds B) as HsB.
  destruct (Htitle ltac:(lia)) as (Hle' & Hbl').
  assert (Hlt : e' < p).
  { destruct (Z.eq_dec e' p) as [->|Hne]; [|lia].
    destruct Hbl' as [_ Hbl']. congruence. }
  set (T := trailer_start_of M E x) in *.
  assert (HT : 0 <= T /\ T < E).
  { pose proof (block_length M T E) as Hlen. fold B in Hlen.
    destruct (trailer_scan_spec M E HE) as (e & x0 & _ & Hx0 & He0 & Hok).
    assert (x0 = x) by congruence. subst x0.
    split; [|lia]. subst T. destruct x as [l c|c]; cbn [trailer_start_of].
    - destruct Hok as (Hl & _).
      destruct (next_line_spec M l ltac:(lia)) as (Hb & _).
      destruct (_ && _); [lia|]. destruct (_ && _); lia.
    - lia. }
  pose proof (block_length M T E) as Hlen. fold B in Hlen.
  destruct (trailer_scan_spec M E HE) as (e & x0 & He & Hx0 & He0 & Hok).
  assert (x0 = x) by congruence. subst x0.
  destruct x as [l0 c0|c0]; [|subst T; cbn [trailer_start_of] in HT; lia].
  destruct Hok as (Hl0 & Hls0 & Hbl0 & _).
  assert (HTnext : T = next_line M l0).
  { subst T. cbn [trailer_start_of] in *.
    destruct (_ && _); [reflexivity|]. destruct (_ && _); [reflexivity|lia]. }
  assert (Hnz : get M l0 <> NUL) by (apply strlen_get_before; lia).
  destruct (next_line_spec M l0 ltac:(lia)) as (Hb & _ & Hend & Hpos).
  specialize (Hpos Hnz). rewrite strlen_suffix in Hb, Hend by lia.
  rewrite <- HTnext in *.
  assert (HlT : line_start M T).
  { destruct (Hend Hpos) as [Hlf|Hlf]; [|lia]. right. split; [lia|exact Hlf]. }
  unfold trailer_scan in Hx. rewrite He in Hx.
  destruct (scan_from_last_line M E) as (Hpar0 & Hnone).
  assert (Hpar : no_paragraph_above M E l0).
  { apply (backward_scan_paragraph M E e He0 _ _ _ _ _ Hpar0) with (2 := Hx).
    intros _ b Hb' Hr. exfalso. now apply (Hnone b). }
  assert (Hplf : get B (p - 1) = LF).
  { destruct Hp as [->|[_ Hlf]]; [lia|exact Hlf]. }
  assert (HpB : p < Z.of_nat (List.length B)) by lia.
  assert (He'B : e' < Z.of_nat (List.length B)) by lia.
  apply (Hpar (T + e') (T + p)); try lia.
  - exact (block_line_start M T E (proj1 HT) e' HlT He'B Hle').
  - exact (block_line_start M T E (proj1 HT) p HlT HpB Hp).
  - exact (block_blank M T E (proj1 HT) e' p (conj He'0 Hlt) HpB Hplf Hbl').
  - assert (Hp0 : 0 <= p) by lia.
    exact (block_content M T E (proj1 HT) p (conj Hp0 HpB) Hct).
Qed.

Lemma trailer_block_of_total (M : list ascii) :
  strlen M <= INT_MAX ->
  exists P E x,
    find_patch_start M = Some P
    /\ find_trailer_end M P = Some E
    /\ trailer_scan M E = Some x
    /\ 0 <= E <= P /\ P <= strlen M
    /\ trailer_block_of M =
       Some (firstn (Z.to_nat (E - trailer_start_of M E x))
               (suffix M (trailer_start_of M E x)),
             E - trailer_start_of M E x).
Proof.
  intros Hfit.
  destruct (find_patch_start_total M Hfit) as (P & HP & HPb).
  destruct (find_trailer_end_total M P ltac:(lia)) as (E & HE & HEb).
  destruct (trailer_scan_spec M E ltac:(lia)) as (e & x & _ & Hx & _).
  exists P, E, x. repeat split; try assumption; try lia.
  unfold trailer_block_of, find_trailer_start. rewrite HP, HE, Hx.
  reflexivity.
Qed.

(** A message whose trailer block is empty hands out no pair. *)
Lemma trailers_of_empty_block (M : list ascii) (n : Z) :
  trailer_block_of M = Some ([], n) -> trailers M = Some [].
Proof.
  intros H. unfold trailers, git_message_trailers,
    git_message_trailer_iterator_new, extract_trailer_block.
  rewrite H. reflexivity.
Qed.

(** The block extracted from a message of at most [INT_MAX] bytes, read as
    a message of its own, has an empty trailer block. *)
Lemma block_of_block_empty (M : list ascii) :
  strlen M <= INT_MAX ->
  exists B n,
    trailer_block_of M = Some (B, n)
    /\ trailer_block_of B = Some ([], 0).
Proof.
  intros Hfit.
  destruct (trailer_block_of_total M Hfit)
    as (P & E & x & HP & HE & Hx & HEb & HPb & HB).
  assert (HT0 : 0 <= trailer_start_of M E x).
  { destruct (trailer_scan_spec M E ltac:(lia))
      as (e & x0 & _ & Hx0 & He0 & Hok).
    assert (x0 = x) by congruence. subst x0.
    destruct x as [l c|c]; cbn [trailer_start_of]; [|lia].
    destruct Hok as (Hl & _).
    destruct (next_line_spec M l ltac:(lia)) as (Hb & _).
    destruct (_ && _); [lia|]. destruct (_ && _); lia. }
  eexists _, _. split; [exact HB|].
  pose proof (block_length M (trailer_start_of M E x) E) as HlenB.
  set (B := firstn _ _) in *.
  assert (HfitB : strlen B <= INT_MAX).
  { pose proof (strlen_bounds B) as HsB. lia. }
  destruct (trailer_block_of_total B HfitB)
    as (P' & E' & x' & HP' & HE' & Hx' & HEb' & HPb' & HB').
  rewrite HB'.
  pose proof (no_trailer_in_block M E x ltac:(lia) Hx E') as Hnone.
  cbn zeta in Hnone. fold B in Hnone. specialize (Hnone ltac:(lia)).
  unfold find_trailer_start in Hnone. rewrite Hx' in Hnone.
  cbn [option_map] in Hnone. injection Hnone as ->.
  replace (E' - E') with 0 by lia. reflexivity.
Qed.

(** ** TrailingNoiseTrimmer: [ignore_non_trailer] and the walk *)

(** [ignore_non_trailer] follows the walk from any line start after the
    first, where 0 is not the start of a line. *)
Lemma ignore_non_trailer_loop_follows (buf : list ascii) (len : Z)
    (fuel : nat) :
  forall boc bol in_old run,
    0 < bol ->
    (run = None /\ boc = 0 /\ in_old = false
     \/ run = Some boc /\ 0 < boc) ->
    ignore_non_trailer_loop fuel buf len boc bol in_old
    = noise_walk fuel buf len run bol in_old.
Proof.
  induction fuel as [|fuel IH]; intros boc bol in_old run Hbol Hrel;
    cbn [ignore_non_trailer_loop noise_walk].
  - destruct (bol <? len); [reflexivity|].
    destruct Hrel as [(-> & -> & _)|(-> & Hb)];
      [cbn [Z.eqb negb]; f_equal; lia|].
    replace (boc =? 0) with false by (symmetry; apply Z.eqb_neq; lia).
    reflexivity.
  - destruct (bol <? len) eqn:Elt.
    2:{ destruct Hrel as [(-> & -> & _)|(-> & Hb)];
          [cbn [Z.eqb negb]; f_equal; lia|].
        replace (boc =? 0) with false by (symmetry; apply Z.eqb_neq; lia).
        reflexivity. }
    apply Z.ltb_lt in Elt.
    set (nl := match memchr (suffix buf bol) LF (Z.to_nat (len - bol)) with
               | Some k => bol + k + 1
               | None => len
               end).
    assert (Hnl : 0 < nl).
    { subst nl. destruct (memchr _ _ _) as [k|] eqn:E; [|lia].
      apply memchr_bound in E. lia. }
    clearbody nl.
    destruct Hrel as [(-> & -> & ->)|(-> & Hb)].
    + cbn [Z.eqb negb andb].
      destruct (_ || _); [apply IH; [lia|right; split; [reflexivity|lia]]|].
      destruct (_ =? 0); [apply IH; [lia|right; split; [reflexivity|lia]]|].
      apply IH; [lia|now left].
    + replace (boc =? 0) with false by (symmetry; apply Z.eqb_neq; lia).
      cbn [negb].
      destruct (_ || _); [apply IH; [lia|now right]|].
      destruct (_ =? 0); [apply IH; [lia|now right]|].
      destruct (_ && _); [apply IH; [lia|now right]|].
      apply IH; [lia|now left].
Qed.

(** Unless the first line of the region opens a run, [ignore_non_trailer]
    returns what the walk of the specification returns. *)
Lemma ignore_non_trailer_follows_spec (buf : list ascii) (len : Z) :
  opens_run buf = false ->
  ignore_non_trailer buf len = trailing_noise_spec buf len.
Proof.
  unfold opens_run, ignore_non_trailer, trailing_noise_spec. intros Hopen.
  apply orb_false_elim in Hopen. destruct Hopen as (Hopen & Hmark).
  cbn [ignore_non_trailer_loop noise_walk].
  destruct (0 <? len) eqn:Elt; [|cbn [Z.eqb negb]; f_equal; lia].
  apply Z.ltb_lt in Elt.
  rewrite Hopen, Hmark. cbn [andb Z.eqb negb].
  apply ignore_non_trailer_loop_follows; [|now left].
  destruct (memchr _ _ _) as [k|] eqn:E; [|lia].
  apply memchr_bound in E. lia.
Qed.

(** ** The tokenizer always returns *)

Lemma put_length (buf : list ascii) (i : Z) (c : ascii) :
  List.length (put buf i c) = List.length buf.
Proof.
  unfold put. destruct (_ && _) eqn:E; [|reflexivity].
  apply andb_prop in E. destruct E as [E1 E2].
  apply Z.leb_le in E1. apply Z.ltb_lt in E2.
  rewrite <- (firstn_skipn (Z.to_nat i) buf) at 3.
  rewrite !length_app. f_equal. cbn [List.length].
  rewrite !length_skipn. lia.
Qed.

Lemma rank_bounds (st : trailer_state) : 0 <= rank st <= 2.
Proof. destruct st; cbn; lia. Qed.

Ltac step_cases :=
  repeat match goal with
  | |- context [if ?b then _ else _] => destruct b eqn:?
  end.

Lemma step_inl (m m' : machine) :
  0 <= m_ptr m <= Z.of_nat (List.length (m_block m)) ->
  step m = inl m' ->
  List.length (m_block m') = List.length (m_block m)
  /\ m_ptr m <= m_ptr m' <= Z.of_nat (List.length (m_block m))
  /\ turns_left m' < turns_left m.
Proof.
  intros Hp. unfold step, turns_left.
  assert (Hnz : get (m_block m) (m_ptr m) <> NUL ->
                m_ptr m < Z.of_nat (List.length (m_block m))).
  { intros H. apply get_in_range in H. lia. }
  assert (Hsp : Ascii.eqb (get (m_block m) (m_ptr m)) SP = true ->
                m_ptr m < Z.of_nat (List.length (m_block m))).
  { intros H. apply Hnz. ascii_cases. rewrite H. discriminate. }
  destruct (m_state m); step_cases; intros [= <-];
    cbn [NEXT GOTO poke m_block m_ptr m_state rank];
    rewrite ?put_length; ascii_cases;
    repeat match goal with
    | H : get _ _ <> NUL |- _ => apply Hnz in H
    end;
    try (specialize (Hsp eq_refl));
    lia.
Qed.

Lemma step_inr (m m' : machine) : step m = inr m' -> m' = m.
Proof.
  unfold step. destruct (m_state m); step_cases; intros [= <-]; reflexivity.
Qed.

Lemma run_total (fuel : nat) :
  forall m,
    0 <= m_ptr m <= Z.of_nat (List.length (m_block m)) ->
    turns_left m < Z.of_nat fuel ->
    exists m',
      run fuel m = Some m'
      /\ List.length (m_block m') = List.length (m_block m)
      /\ m_ptr m <= m_ptr m' <= Z.of_nat (List.length (m_block m)).
Proof.
  induction fuel as [|fuel IH]; intros m Hp Hfuel.
  - unfold turns_left in Hfuel. pose proof (rank_bounds (m_state m)). lia.
  - cbn [run]. destruct (step m) as [m1|m1] eqn:Es.
    + destruct (step_inl m m1 Hp Es) as (Hlen & Hptr & Hdec).
      destruct (IH m1) as (m' & Hrun & Hlen' & Hptr'); try lia.
      exists m'. split; [exact Hrun|]. split; [congruence|]. lia.
    + apply step_inr in Es. subst m1. exists m.
      split; [reflexivity|]. split; [reflexivity|]. lia.
Qed.

Lemma step_not_moved (p0 : Z) (m : machine) :
  not_moved p0 m ->
  exists m', step m = inl m' /\ (not_moved p0 m' \/ p0 < m_ptr m').
Proof.
  intros (Hp & Hnz & Hst). unfold step. rewrite Hp.
  apply ascii_eqb_false in Hnz.
  destruct Hst as [Hst|[Hst|Hst]]; rewrite Hst, Hnz; step_cases;
    eexists; (split; [reflexivity|]); unfold not_moved;
    cbn [NEXT GOTO poke m_block m_ptr m_state];
    try (right; lia);
    left; (split; [first [reflexivity | exact Hp]|]);
    apply ascii_eqb_false in Hnz;
    (split; [exact Hnz|]); auto.
Qed.

Lemma run_moves (p0 : Z) (fuel : nat) :
  forall m m',
    run fuel m = Some m' ->
    not_moved p0 m \/ p0 < m_ptr m ->
    0 <= m_ptr m <= Z.of_nat (List.length (m_block m)) ->
    p0 < m_ptr m'.
Proof.
  induction fuel as [|fuel IH]; intros m m' Hrun Hm Hp; [discriminate|].
  cbn [run] in Hrun. destruct Hm as [Hm|Hm].
  - destruct (step_not_moved p0 m Hm) as (m1 & Es & Hm1).
    rewrite Es in Hrun. destruct (step_inl m m1 Hp Es) as (Hlen & Hptr & _).
    apply (IH m1 m' Hrun Hm1). lia.
  - destruct (step m) as [m1|m1] eqn:Es.
    + destruct (step_inl m m1 Hp Es) as (Hlen & Hptr & _).
      apply (IH m1 m' Hrun); [right|]; lia.
    + apply step_inr in Es. subst m1. injection Hrun as <-. exact Hm.
Qed.

(** [git_message_trailer_iterator_next] returns for every iterator: either
    [GIT_ITEROVER] with the iterator unchanged, or 0 with [ptr] moved on. *)
Lemma iterator_next_total (key_out value_out : option Z)
    (iter : trailer_iterator) :
  iterator_ok iter ->
  exists rc k v iter',
    git_message_trailer_iterator_next key_out value_out iter
    = Some (rc, k, v, iter')
    /\ iterator_ok iter'
    /\ trailer_block_addr iter' = trailer_block_addr iter
    /\ List.length (trailer_block iter') = List.length (trailer_block iter)
    /\ (rc = GIT_ITEROVER /\ iter' = iter
        \/ rc = 0 /\ ptr iter < ptr iter').
Proof.
  intros Hok. unfold git_message_trailer_iterator_next.
  destruct (Ascii.eqb (get (trailer_block iter) (ptr iter)) NUL) eqn:E.
  - do 4 eexists. split; [reflexivity|]. split; [exact Hok|].
    split; [reflexivity|]. split; [reflexivity|]. now left.
  - ascii_cases.
    set (m0 := Machine (trailer_block iter) (ptr iter) S_START
                 key_out value_out).
    destruct (run_total (run_fuel (trailer_block iter) (ptr iter)) m0)
      as (m' & Hrun & Hlen & Hptr).
    { exact Hok. }
    { unfold turns_left, run_fuel, iterator_ok in *. cbn. lia. }
    rewrite Hrun. do 4 eexists. split; [reflexivity|].
    cbn [trailer_block trailer_block_addr ptr m_block m_ptr] in *.
    assert (Hmove : ptr iter < m_ptr m').
    { apply (run_moves (ptr iter) _ m0 m' Hrun); [left|exact Hok].
      split; [reflexivity|]. split; [exact E|]. now left. }
    unfold iterator_ok in *. cbn [trailer_block ptr].
    split; [lia|]. split; [reflexivity|]. split; [exact Hlen|].
    right. split; [reflexivity|exact Hmove].
Qed.

Lemma trailers_loop_total {P : Type} (cb : git_message_trailer_cb P)
    (fuel : nat) :
  forall rc iter payload,
    iterator_ok iter ->
    Z.of_nat (List.length (trailer_block iter)) - ptr iter < Z.of_nat fuel ->
    exists rc' iter' payload',
      trailers_loop fuel cb rc iter payload = Some (rc', iter', payload')
      /\ trailer_block_addr iter' = trailer_block_addr iter.
Proof.
  induction fuel as [|fuel IH]; intros rc iter payload Hok Hfuel.
  - unfold iterator_ok in Hok. lia.
  - cbn [trailers_loop]. destruct (rc =? GIT_ITEROVER).
    { do 3 eexists. split; reflexivity. }
    destruct (iterator_next_total None None iter Hok)
      as (rc1 & k & v & iter1 & Hnext & Hok1 & Haddr & Hlen & Hcase).
    rewrite Hnext.
    destruct Hcase as [(-> & ->)|(-> & Hmove)]; cbn [Z.eqb negb].
    { do 3 eexists. split; reflexivity. }
    destruct (cb (view iter1 k) (view iter1 v) payload) as [rc2 payload2].
    destruct (negb (rc2 =? 0)).
    { do 3 eexists. split; [reflexivity|exact Haddr]. }
    destruct (IH rc2 iter1 payload2 Hok1) as (rc' & iter' & payload' & H & Ha).
    { rewrite Hlen. lia. }
    exists rc', iter', payload'. split; [exact H|congruence].
Qed.

(** ** [git_message_trailers] always returns *)

Lemma free_two_fresh (h : heap) :
  heap_ok h ->
  live (git__free (brk h)
          (git__free (S (brk h))
             (Heap (S (brk h) :: brk h :: live h) (S (S (brk h)))
                (room h - 2))))
  = live h.
Proof.
  intros Hok. unfold git__free. cbn [live].
  rewrite remove_cons.
  assert (H1 : ~ In (brk h) (live h)) by (intros H; apply Hok in H; lia).
  assert (H2 : ~ In (S (brk h)) (live h)) by (intros H; apply Hok in H; lia).
  cbn [List.remove]. destruct (Nat.eq_dec (S (brk h)) (brk h)); [lia|].
  rewrite (notin_remove _ _ _ H2). rewrite remove_cons.
  apply notin_remove. exact H1.
Qed.

(** With room for its two allocations, on a message of at most [INT_MAX]
    bytes [git_message_trailers] returns 0 whatever the callback answers,
    and leaves live what was live before. *)
Lemma git_message_trailers_total {P : Type} (h : heap) (message : list ascii)
    (cb : git_message_trailer_cb P) (payload : P) :
  strlen message <= INT_MAX ->
  heap_ok h -> (2 <= room h)%nat ->
  exists payload' h',
    git_message_trailers h message cb payload = Some (0, payload', h')
    /\ live h' = live h.
Proof.
  intros Hfit Hok Hroom.
  unfold git_message_trailers, git_message_trailer_iterator_new,
    extract_trailer_block, git__calloc, git__malloc.
  destruct (room h) as [|[|r]] eqn:Er; try lia.
  destruct (trailer_block_of_total message Hfit)
    as (p & e & x & _ & _ & _ & _ & _ & HB).
  rewrite HB. cbn [room brk live Z.eqb negb].
  set (B := firstn _ _).
  destruct (trailers_loop_total cb (S (List.length B)) 0
              (Iterator (S (brk h)) B (e - trailer_start_of message e x) 0)
              payload)
    as (rc' & iter' & payload' & Hloop & Haddr).
  { unfold iterator_ok. cbn. lia. }
  { cbn [trailer_block ptr]. lia. }
  cbn [trailer_block]. rewrite Hloop.
  eexists _, _. split; [reflexivity|].
  cbn [git_message_trailer_iterator_free]. rewrite Haddr.
  cbn [trailer_block_addr].
  rewrite <- (free_two_fresh h Hok) at 2. rewrite Er.
  replace (S (S r) - 2)%nat with r by lia. reflexivity.
Qed.

(** Without room for the iterator, it returns the code of the failed
    creation and touches nothing. *)
Lemma git_message_trailers_no_memory {P : Type} (h : heap)
    (message : list ascii) (cb : git_message_trailer_cb P) (payload : P) :
  room h = O ->
  git_message_trailers h message cb payload = Some (-1, payload, h).
Proof.
  intros Hroom.
  unfold git_message_trailers, git_message_trailer_iterator_new,
    git__calloc, git__malloc.
  rewrite Hroom. reflexivity.
Qed.

(** Every message of at most [INT_MAX] bytes has its sequence of pairs. *)
Lemma trailers_total (message : list ascii) :
  strlen message <= INT_MAX ->
  exists seen, trailers message = Some seen.
Proof.
  intros Hfit. unfold trailers.
  destruct (git_message_trailers_total heap0 message record_pair [] Hfit)
    as (seen & h' & H & _).
  - intros a [].
  - cbn. lia.
  - rewrite H. now exists seen.
Qed.

(** ** The claims on concrete messages *)

(** Scenarios A, B, D and E of the specification. *)
Example scenario_A :
  trailers (msg ["Subject"; ""; "Signed-off-by: A <a@x>"]%string)
  = Some [ (text "Signed-off-by", text "A <a@x>") ].
Proof. vm_compute. reflexivity. Qed.

Example scenario_B :
  trailers (msg ["Subject"; ""; "Foo: bar"; " more"]%string)
  = Some [ (text "Foo", Some (bytes "bar" ++ LF :: bytes " more")) ].
Proof. vm_compute. reflexivity. Qed.

Example scenario_D :
  trailers (msg ["Subject"; ""; "Just some prose."]%string) = Some [].
Proof. vm_compute. reflexivity. Qed.

Example scenario_E :
  trailers (msg ["Subject"; ""; "Signed-off-by: A <a@x>";
                 "# stray comment"]%string)
  = Some [ (text "Signed-off-by", text "A <a@x>") ].
Proof. vm_compute. reflexivity. Qed.


(** C2, as stated: scenario C does not emit the two pairs. *)
Lemma scenario_C_not_two_pairs :
  trailers scenario_C
  <> Some [ (text "Key", text "val"); (text "Other", text "v2") ].
Proof. vm_compute. discriminate. Qed.

(** C2, amended.  On scenario C the backward scan stops at the blank line
    after the subject with two trailer lines, one non-trailer line and no
    recognized prefix; the dual rule rejects the paragraph, the trailer block
    is empty and no pair is emitted. *)
Theorem scenario_C_emits_nothing :
  find_trailer_end scenario_C 44 = Some 44
  /\ trailer_scan scenario_C 44
     = Some (AtBlankLine 8 (Counters false false 2 1 0))
  /\ trailer_block_of scenario_C = Some ([], 0)
  /\ trailers scenario_C = Some [].
Proof. vm_compute. repeat split. Qed.

(** C3, as stated: the block of a one-trailer message, fed back as a
    message, emits nothing, while the message emits its pair. *)
Lemma reextraction_differs :
  let m := msg ["Subject"; ""; "Key: val"]%string in
  let B := msg ["Key: val"]%string in
  trailer_block_of m = Some (B, 9)
  /\ trailers m = Some [ (text "Key", text "val") ]
  /\ trailers B = Some []
  /\ trailers B <> trailers m.
Proof. vm_compute. repeat split. discriminate. Qed.

(** C3, amended.  For every message of at most [INT_MAX] bytes the extracted
    block exists, and fed back as a fresh message it emits no pair, because
    its first paragraph is then the title; so the two sequences agree
    exactly when the message itself emits no pair. *)
Theorem reextraction_emits_nothing (message : list ascii) :
  strlen message <= INT_MAX ->
  exists B n,
    trailer_block_of message = Some (B, n)
    /\ trailers B = Some []
    /\ (trailers B = trailers message <-> trailers message = Some []).
Proof.
  intros Hfit.
  destruct (block_of_block_empty message Hfit) as (B & n & HB & Hempty).
  exists B, n. split; [exact HB|].
  pose proof (trailers_of_empty_block B 0 Hempty) as Hnone.
  split; [exact Hnone|]. rewrite Hnone. split; intros H; now symmetry.
Qed.

Lemma reextraction_emits_nothing_witness :
  exists B n,
    trailer_block_of (msg ["Subject"; ""; "Key: val"]%string) = Some (B, n)
    /\ trailers B = Some []
    /\ (trailers B = trailers (msg ["Subject"; ""; "Key: val"]%string)
        <-> trailers (msg ["Subject"; ""; "Key: val"]%string) = Some []).
Proof.
  apply (reextraction_emits_nothing (msg ["Subject"; ""; "Key: val"]%string)).
  apply Z.leb_le. reflexivity.
Defined.

(** C4.  A line that begins with the separator, accepted into the block next
    to a signed-off line, is emitted with an empty key. *)
Theorem empty_key_emitted :
  trailers (msg ["Subject"; ""; "Signed-off-by: A"; ": value"]%string)
  = Some [ (text "Signed-off-by", text "A"); (text "", text "value") ].
Proof. vm_compute. reflexivity. Qed.

(** C5.  When the last line of the block is malformed, the call that skips
    it returns 0 although it assigned no value: the first call yields the
    signed-off pair, the second returns 0 with [*value_out] never written
    and [*key_out] on the skipped line, and only the third returns
    [GIT_ITEROVER]. *)
Theorem success_without_pair :
  let m := msg ["Subject"; ""; "Signed-off-by: A"; "NotATrailer"]%string in
  exists B n it1 it2 k,
    trailer_block_of m = Some (B, n)
    /\ git_message_trailer_iterator_next None None (Iterator 0 B n 0)
       = Some (0, Some 0, Some 15, it1)
    /\ git_message_trailer_iterator_next None None it1
       = Some (0, Some k, None, it2)
    /\ view it2 (Some k) = Some (bytes "NotATrailer" ++ [LF])
    /\ git_message_trailer_iterator_next None None it2
       = Some (GIT_ITEROVER, None, None, it2).
Proof. vm_compute. do 5 eexists. repeat split. Qed.

(** C6.  A callback that answers 1 is called once and stops the iteration,
    and [git_message_trailers] returns 0, not 1; the iterator and its block
    are freed. *)
Theorem callback_signal_dropped :
  git_message_trailers heap0
    (msg ["Subject"; ""; "Key: val"; "Other: v2"]%string)
    (fun _ _ (calls : nat) => (1, S calls)) O
  = Some (0, 1%nat, Heap [] 3 0).
Proof. vm_compute. reflexivity. Qed.

(** C7.  After a separator that ends its line, the line feed is taken as the
    first byte of the value: the value of "Key:" is a line feed, not the
    empty string, and it swallows a trailer that follows. *)
Theorem empty_value_swallows_line_feed :
  trailers (msg ["Subject"; ""; "Key:"]%string)
  = Some [ (text "Key", Some [LF]) ]
  /\ trailers (msg ["Subject"; ""; "Key:"; "Other: v"]%string)
     = Some [ (text "Key", Some (LF :: bytes "Other: v")) ].
Proof. vm_compute. split; reflexivity. Qed.

(** C10.  Freeing a NULL iterator returns at once and leaves the heap as it
    was. *)
Theorem free_null_is_noop (h : heap) :
  git_message_trailer_iterator_free NULL h = h.
Proof. reflexivity. Qed.

(** C8.  When the run of ignorable lines starts at offset 0, its start is
    lost, 0 being also the value for no run: a region that is one comment
    line has a trailing run of its 4 bytes and [ignore_non_trailer] returns
    0; of two comment lines only the second is counted. *)
Theorem run_from_offset_0_lost :
  ignore_non_trailer (msg ["# c"]%string) 4 = Some 0
  /\ trailing_noise_spec (msg ["# c"]%string) 4 = Some 4
  /\ ignore_non_trailer (msg ["#a"; "#b"]%string) 6 = Some 3
  /\ trailing_noise_spec (msg ["#a"; "#b"]%string) 6 = Some 6.
Proof. vm_compute. repeat split. Qed.

(** * Further properties of the code *)

(** ** [memchr] *)

Lemma memchr_some (p : list ascii) (c : ascii) (n : nat) (k : Z) :
  memchr p c n = Some k ->
  0 <= k < Z.of_nat n /\ get p k = c
  /\ forall j, 0 <= j < k -> get p j <> c.
Proof.
  revert p k. induction n as [|n IH]; intros p k; cbn [memchr];
    [discriminate|].
  destruct p as [|x r]; [discriminate|].
  destruct (Ascii.eqb x c) eqn:E; ascii_cases.
  - intros [= <-]. split; [lia|]. split; [exact E|]. intros j Hj. lia.
  - destruct (memchr r c n) as [k'|] eqn:Em; cbn [option_map];
      [|discriminate].
    intros [= <-]. destruct (IH r k' Em) as (Hb & Hg & Hno).
    split; [lia|]. split.
    + unfold Z.succ. now rewrite get_cons by lia.
    + intros j Hj. destruct (Z.eq_dec j 0) as [->|Hne]; [exact E|].
      replace j with (j - 1 + 1) by lia. rewrite get_cons by lia.
      apply Hno. lia.
Qed.

Lemma memchr_none (p : list ascii) (c : ascii) (n : nat) :
  c <> NUL -> memchr p c n = None ->
  forall j, 0 <= j < Z.of_nat n -> get p j <> c.
Proof.
  intros Hc. revert p. induction n as [|n IH]; intros p Hm j Hj; [lia|].
  cbn [memchr] in Hm. destruct p as [|x r].
  - rewrite get_nil by (cbn; lia). congruence.
  - destruct (Ascii.eqb x c) eqn:E; [discriminate Hm|]. ascii_cases.
    destruct (memchr r c n) as [k'|] eqn:Em; [discriminate Hm|].
    destruct (Z.eq_dec j 0) as [->|Hne]; [exact E|].
    replace j with (j - 1 + 1) by lia. rewrite get_cons by lia.
    apply (IH r Em). lia.
Qed.

Lemma LF_not_NUL : LF <> NUL.
Proof. unfold LF, NUL. discriminate. Qed.

(** The next line start that the loop of [ignore_non_trailer] computes. *)
Lemma memchr_next_line (buf : list ascii) (len bol : Z) :
  0 <= bol < len ->
  let nl :=
    match memchr (suffix buf bol) LF (Z.to_nat (len - bol)) with
    | None => len
    | Some k => bol + k + 1
    end in
  bol < nl <= len
  /\ (nl < len -> get buf (nl - 1) = LF)
  /\ (forall j, bol < j < nl -> get buf (j - 1) <> LF).
Proof.
  intros Hb. cbn zeta.
  destruct (memchr _ _ _) as [k|] eqn:E.
  - destruct (memchr_some _ _ _ _ E) as (Hk & Hg & Hno).
    rewrite get_suffix in Hg by lia.
    split; [lia|]. split.
    + intros _. now replace (bol + k + 1 - 1) with (bol + k) by lia.
    + intros j Hj. replace (j - 1) with (bol + (j - 1 - bol)) by lia.
      rewrite <- get_suffix by lia. apply Hno. lia.
  - split; [lia|]. split; [lia|].
    intros j Hj. replace (j - 1) with (bol + (j - 1 - bol)) by lia.
    rewrite <- get_suffix by lia.
    apply (memchr_none (suffix buf bol) LF _ LF_not_NUL E). lia.
Qed.

(** ** The tail that [ignore_non_trailer] cuts off *)

Lemma ignore_non_trailer_loop_tail (buf : list ascii) (len : Z) (fuel : nat) :
  forall boc bol in_old n,
    0 <= bol -> (bol < len -> line_start buf bol) ->
    run_ok buf boc (Z.min bol len) ->
    ignore_non_trailer_loop fuel buf len boc bol in_old = Some n ->
    n = 0
    \/ (0 < n < len /\ get buf (len - n - 1) = LF
        /\ opens_tail buf (len - n)
        /\ forall p, len - n <= p < len -> line_start buf p ->
             tail_line buf p).
Proof.
  induction fuel as [|fuel IH]; intros boc bol in_old n Hbol Hls Hrun;
    cbn [ignore_non_trailer_loop]; destruct (bol <? len) eqn:Elt;
    try discriminate.
  1,3: apply Z.ltb_ge in Elt; intros [= <-];
    destruct (boc =? 0) eqn:E0; cbn [negb]; [left; lia|];
    apply Z.eqb_neq in E0; right;
    destruct Hrun as [Hrun|(Hb & Hlf & Hop & Hall)]; [lia|];
    replace (len - (len - boc)) with boc by lia;
    replace (len - (len - boc) - 1) with (boc - 1) by lia;
    (split; [lia|]); (split; [exact Hlf|]); (split; [exact Hop|]);
    intros p Hp; apply Hall; lia.
  apply Z.ltb_lt in Elt. specialize (Hls Elt).
  destruct (memchr_next_line buf len bol ltac:(lia)) as (Hnl & Hnlf & Hno).
  cbn zeta in Hnl, Hnlf, Hno.
  set (nl := match memchr (suffix buf bol) LF (Z.to_nat (len - bol)) with
             | Some k => bol + k + 1
             | None => len
             end) in *.
  clearbody nl.
  assert (Hmin : Z.min bol len = bol) by lia.
  assert (Hmin' : Z.min nl len = nl) by lia. rewrite Hmin in Hrun.
  assert (Honly : forall p, bol <= p < nl -> line_start buf p -> p = bol).
  { intros p Hp Hlp. destruct (Z.eq_dec p bol) as [->|Hne]; [reflexivity|].
    exfalso. destruct Hlp as [->|[_ Hlf]]; [lia|].
    revert Hlf. apply Hno. lia. }
  assert (Hkeep : forall boc',
    tail_line buf bol -> run_ok buf boc' bol -> run_ok buf boc' nl).
  { intros boc' Htl [->|(Hb & Hlf & Hop & Hall)]; [now left|].
    right. split; [lia|]. split; [exact Hlf|]. split; [exact Hop|].
    intros p Hp Hlp. destruct (Z_lt_ge_dec p bol) as [Hlt|Hge].
    - apply Hall; [lia|exact Hlp].
    - rewrite (Honly p ltac:(lia) Hlp). exact Htl. }
  assert (Hstart : opens_tail buf bol ->
    run_ok buf (if boc =? 0 then bol else boc) nl).
  { intros Hop. destruct (boc =? 0) eqn:E0.
    - destruct (Z.eq_dec bol 0) as [->|Hne]; [now left|].
      right. split; [lia|]. split.
      + destruct Hls as [->|[_ Hlf]]; [lia|exact Hlf].
      + split; [exact Hop|]. intros p Hp Hlp.
        rewrite (Honly p ltac:(lia) Hlp). now left.
    - apply Hkeep; [now left|exact Hrun]. }
  assert (Hnext : nl < len -> line_start buf nl).
  { intros H. right. split; [lia|]. now apply Hnlf. }
  destruct (Ascii.eqb (get buf bol) COMMENT_LINE_CHAR
            || Ascii.eqb (get buf bol) LF) eqn:Ec.
  { apply IH; [lia|exact Hnext|]. rewrite Hmin'. apply Hstart.
    apply orb_prop in Ec. destruct Ec as [Ec|Ec]; ascii_cases;
      [now left|right; now left]. }
  destruct (git__prefixcmp (suffix buf bol) (bytes "Conflicts:" ++ [LF]) =? 0)
    eqn:Em.
  { apply IH; [lia|exact Hnext|]. rewrite Hmin'. apply Hstart.
    right. right. apply Z.eqb_eq in Em. exact Em. }
  destruct (in_old && Ascii.eqb (get buf bol) TAB) eqn:Et.
  { apply IH; [lia|exact Hnext|]. rewrite Hmin'. apply Hkeep; [|exact Hrun].
    right. apply andb_prop in Et. destruct Et as [_ Et]. now ascii_cases. }
  destruct (negb (boc =? 0)) eqn:E0.
  { apply IH; [lia|exact Hnext|]. now left. }
  apply IH; [lia|exact Hnext|]. apply negb_false_iff, Z.eqb_eq in E0.
  left. exact E0.
Qed.

Lemma ignore_non_trailer_tail (buf : list ascii) (len : Z) :
  0 <= len ->
  exists n,
    ignore_non_trailer buf len = Some n
    /\ (n = 0
        \/ (0 < n < len /\ get buf (len - n - 1) = LF
            /\ opens_tail buf (len - n)
            /\ forall p, len - n <= p < len -> line_start buf p ->
                 tail_line buf p)).
Proof.
  intros Hlen.
  destruct (ignore_non_trailer_total buf len Hlen) as (n & Hn & _).
  exists n. split; [exact Hn|].
  unfold ignore_non_trailer in Hn.
  apply (ignore_non_trailer_loop_tail buf len (S (Z.to_nat len)) 0 0 false n);
    try lia.
  - intros _. now left.
  - now left.
  - exact Hn.
Qed.

(** X1.  On a region of at most [INT_MAX] bytes [ignore_non_trailer]
    returns the length of a tail that never is the whole region, that starts
    at the start of a line which is a comment, an empty line or the
    conflicts marker, and all of whose lines are comments, empty lines, the
    marker or lines that begin with a tab. *)
Theorem ignore_non_trailer_cuts_ignorable_tail (buf : list ascii) (len : Z) :
  0 <= len <= INT_MAX ->
  exists n,
    ignore_non_trailer buf len = Some n
    /\ (n = 0
        \/ (0 < n < len /\ get buf (len - n - 1) = LF
            /\ opens_tail buf (len - n)
            /\ forall p, len - n <= p < len -> line_start buf p ->
                 tail_line buf p)).
Proof. intros [Hlen _]. exact (ignore_non_trailer_tail buf len Hlen). Qed.

Lemma ignore_non_trailer_cuts_ignorable_tail_witness :
  exists n,
    ignore_non_trailer (msg ["a"; "# c"; ""]%string) 7 = Some n
    /\ (n = 0
        \/ (0 < n < 7
            /\ get (msg ["a"; "# c"; ""]%string) (7 - n - 1) = LF
            /\ opens_tail (msg ["a"; "# c"; ""]%string) (7 - n)
            /\ forall p, 7 - n <= p < 7 ->
                 line_start (msg ["a"; "# c"; ""]%string) p ->
                 tail_line (msg ["a"; "# c"; ""]%string) p)).
Proof.
  apply (ignore_non_trailer_cuts_ignorable_tail
           (msg ["a"; "# c"; ""]%string) 7).
  unfold INT_MAX. lia.
Defined.

(** X2.  When the last line of the region is not a comment, not empty, not
    the conflicts marker and does not begin with a tab, [ignore_non_trailer]
    returns 0: nothing is cut off. *)
Theorem ignore_non_trailer_keeps_content (buf : list ascii) (len : Z) :
  0 < len ->
  ~ tail_line buf (last_line buf len) ->
  ignore_non_trailer buf len = Some 0.
Proof.
  intros Hlen Hlast.
  destruct (ignore_non_trailer_tail buf len ltac:(lia))
    as (n & Hn & [->|(Hb & Hlf & _ & Hall)]); [exact Hn|].
  exfalso. apply Hlast.
  destruct (last_line_spec buf len Hlen) as (Hl & Hls & Hno).
  apply Hall; [|exact Hls]. split; [|lia].
  destruct (Z_le_gt_dec (len - n) (last_line buf len)); [assumption|].
  exfalso. apply (Hno (len - n)); [lia|]. right. split; [lia|exact Hlf].
Qed.

Lemma ignore_non_trailer_keeps_content_witness :
  ignore_non_trailer (msg ["# c"; "Key: v"]%string) 11 = Some 0.
Proof.
  apply (ignore_non_trailer_keeps_content (msg ["# c"; "Key: v"]%string) 11).
  - lia.
  - vm_compute. intros [[H|[H|H]]|H]; discriminate H.
Defined.

(** ** The offsets that [extract_trailer_block] computes *)

Lemma pipeline_offsets (M : list ascii) :
  strlen M <= INT_MAX ->
  exists P E x,
    find_patch_start M = Some P
    /\ find_trailer_end M P = Some E
    /\ trailer_scan M E = Some x
    /\ 0 <= E <= P /\ P <= strlen M
    /\ line_aligned M E.
Proof.
  intros Hfit.
  destruct (find_patch_start_spec M Hfit) as (P & HP & HPb).
  assert (HPr : 0 <= P <= strlen M /\ line_aligned M P).
  { pose proof (strlen_bounds M).
    destruct HPb as [(Hr & Hl & _)|(Hr & _)];
      [split; [lia|now right]|split; [lia|now left]]. }
  destruct HPr as (HPr & HPa).
  destruct (ignore_non_trailer_tail M P ltac:(lia)) as (n & Hn & Htail).
  destruct (ignore_non_trailer_total M P ltac:(lia)) as (n' & Hn' & Hnb).
  assert (n' = n) by congruence. subst n'.
  assert (HE : find_trailer_end M P = Some (P - n)).
  { unfold find_trailer_end. now rewrite Hn. }
  destruct (trailer_scan_spec M (P - n) ltac:(lia)) as (e & x & _ & Hx & _).
  exists P, (P - n), x. repeat split; try assumption; try lia.
  destruct Htail as [->|(Hb & Hlf & _)].
  - now replace (P - 0) with P by lia.
  - right. right. split; [lia|exact Hlf].
Qed.

Lemma next_line_within (buf : list ascii) (l len : Z) :
  0 <= l < len -> len <= strlen buf -> line_aligned buf len ->
  l < next_line buf l <= len.
Proof.
  intros Hl Hlen Hal.
  assert (Hnz : get buf l <> NUL) by (apply strlen_get_before; lia).
  destruct (next_line_spec buf l ltac:(lia)) as (Hb & Hno & _ & Hpos).
  specialize (Hpos Hnz). rewrite strlen_suffix in Hb by lia.
  split; [lia|].
  destruct (Z_le_gt_dec (next_line buf l) len) as [Hle|Hgt]; [assumption|].
  exfalso. destruct Hal as [->|[->|[_ Hlf]]]; try lia.
  revert Hlf. apply Hno. lia.
Qed.

Lemma trailer_start_bounds (M : list ascii) (E : Z) (x : scan_exit) :
  0 <= E <= strlen M -> line_aligned M E ->
  trailer_scan M E = Some x ->
  0 <= trailer_start_of M E x <= E.
Proof.
  intros HE Hal Hx.
  destruct (trailer_scan_spec M E HE) as (e & x0 & _ & Hx0 & He0 & Hok).
  assert (x0 = x) by congruence. subst x0.
  destruct x as [l c|c]; cbn [trailer_start_of]; [|lia].
  destruct Hok as (Hl & _).
  pose proof (next_line_within M l E ltac:(lia) ltac:(lia) Hal).
  destruct (_ && _); [lia|]. destruct (_ && _); lia.
Qed.

Lemma strlen_prefix_no_nul (buf : list ascii) (i : Z) :
  0 <= i < strlen buf -> get buf i <> NUL.
Proof. apply strlen_get_before. Qed.

(** X3.  For every message of at most [INT_MAX] bytes
    [extract_trailer_block] computes offsets with
    [0 <= trailer_start <= trailer_end <= patch_start <= strlen message], so
    the length it copies is never negative, and the block is exactly the
    [trailer_end - trailer_start] bytes of the message from [trailer_start],
    none of them NUL. *)
Theorem trailer_block_is_message_range (message : list ascii) :
  strlen message <= INT_MAX ->
  exists patch_start trailer_end trailer_start block,
    find_patch_start message = Some patch_start
    /\ find_trailer_end message patch_start = Some trailer_end
    /\ find_trailer_start message trailer_end = Some trailer_start
    /\ 0 <= trailer_start <= trailer_end
    /\ trailer_end <= patch_start <= strlen message
    /\ trailer_block_of message
       = Some (block, trailer_end - trailer_start)
    /\ Z.of_nat (List.length block) = trailer_end - trailer_start
    /\ forall i, 0 <= i < trailer_end - trailer_start ->
         get block i = get message (trailer_start + i)
         /\ get block i <> NUL.
Proof.
  intros Hfit.
  destruct (pipeline_offsets message Hfit)
    as (P & E & x & HP & HE & Hx & HEb & HPb & Hal).
  pose proof (trailer_start_bounds message E x ltac:(lia) Hal Hx) as HS.
  set (T := trailer_start_of message E x) in *.
  exists P, E, T, (firstn (Z.to_nat (E - T)) (suffix message T)).
  assert (HT : find_trailer_start message E = Some T).
  { unfold find_trailer_start. now rewrite Hx. }
  pose proof (strlen_bounds message) as Hsb.
  assert (Hlen : Z.of_nat (List.length
                   (firstn (Z.to_nat (E - T)) (suffix message T))) = E - T).
  { rewrite length_firstn. unfold suffix. rewrite length_skipn. lia. }
  repeat (split; [first [assumption | lia]|]).
  split.
  { unfold trailer_block_of. rewrite HP, HE, HT. reflexivity. }
  split; [exact Hlen|].
  intros i Hi.
  rewrite (block_get message T E (proj1 HS)) by lia.
  split; [reflexivity|]. apply strlen_get_before. lia.
Qed.

Lemma trailer_block_is_message_range_witness :
  exists patch_start trailer_end trailer_start block,
    find_patch_start (msg ["Subject"; ""; "Key: val"]%string)
    = Some patch_start
    /\ find_trailer_end (msg ["Subject"; ""; "Key: val"]%string) patch_start
       = Some trailer_end
    /\ find_trailer_start (msg ["Subject"; ""; "Key: val"]%string)
         trailer_end
       = Some trailer_start
    /\ 0 <= trailer_start <= trailer_end
    /\ trailer_end <= patch_start
       <= strlen (msg ["Subject"; ""; "Key: val"]%string)
    /\ trailer_block_of (msg ["Subject"; ""; "Key: val"]%string)
       = Some (block, trailer_end - trailer_start)
    /\ Z.of_nat (List.length block) = trailer_end - trailer_start
    /\ forall i, 0 <= i < trailer_end - trailer_start ->
         get block i
         = get (msg ["Subject"; ""; "Key: val"]%string) (trailer_start + i)
         /\ get block i <> NUL.
Proof.
  apply (trailer_block_is_message_range
           (msg ["Subject"; ""; "Key: val"]%string)).
  apply Z.leb_le. reflexivity.
Defined.

(** ** [next_line] and [last_line] walk the same lines *)

(** X4.  Stepping back from the line that follows a line gives that line:
    for a line start [s] that is not the end of the string and whose line
    ends at an offset of at most [INT_MAX],
    [last_line(buf, next_line(buf + s))] is [s]. *)
Theorem last_line_undoes_next_line (buf : list ascii) (s : Z) :
  line_start buf s -> get buf s <> NUL -> next_line buf s <= INT_MAX ->
  last_line buf (next_line buf s) = s.
Proof. intros Hs Hnz _. exact (last_line_of_next_line buf s Hs Hnz). Qed.

Lemma last_line_undoes_next_line_witness :
  last_line (msg ["ab"; "cd"]%string) (next_line (msg ["ab"; "cd"]%string) 3)
  = 3.
Proof.
  apply (last_line_undoes_next_line (msg ["ab"; "cd"]%string) 3).
  - right. split; [lia|reflexivity].
  - vm_compute. discriminate.
  - apply Z.leb_le. reflexivity.
Defined.

(** X5.  Stepping forward from the line before a line gives that line: for
    a line start [l] other than 0, inside the string and at most [INT_MAX],
    [next_line(buf + last_line(buf, l))] is [l]. *)
Theorem next_line_undoes_last_line (buf : list ascii) (l : Z) :
  line_start buf l -> 0 < l <= strlen buf -> l <= INT_MAX ->
  next_line buf (last_line buf l) = l.
Proof. intros Hl Hr _. exact (next_line_of_last_line buf l Hl Hr). Qed.

Lemma next_line_undoes_last_line_witness :
  next_line (msg ["ab"; "cd"]%string) (last_line (msg ["ab"; "cd"]%string) 3)
  = 3.
Proof.
  apply (next_line_undoes_last_line (msg ["ab"; "cd"]%string) 3).
  - right. split; [lia|reflexivity].
  - vm_compute. split; [reflexivity|discriminate].
  - unfold INT_MAX. lia.
Defined.

(** ** Where a trailer block can start *)

Lemma classify_line_counted (buf : list ascii) (len l l' : Z) (c : counters) :
  0 <= l < len -> l' < l -> line_start buf l ->
  counted_ok buf len l c ->
  counted_ok buf len l' (classify_line (suffix buf l) c).
Proof.
  intros Hl Hl' Hls (Hrec & Hnn & Hex).
  assert (Hold : trailer_lines c >= 1 ->
    exists p, line_start buf p /\ l' < p < len /\ trailer_line_at buf p).
  { intros H. destruct (Hex H) as (p & Hp & Hr & Ht).
    exists p. split; [exact Hp|]. split; [lia|exact Ht]. }
  unfold classify_line.
  destruct (existsb _ _) eqn:Eg.
  { unfold counted_ok.
    cbn [recognized_prefix trailer_lines].
    split; [intros _; lia|]. split; [lia|].
    intros _. exists l. split; [exact Hls|]. split; [lia|]. now left. }
  rewrite hd_suffix by lia.
  destruct ((find_separator (suffix buf l) TRAILER_SEPARATORS >=? 1)
            && negb (isspace (get buf l))) eqn:Es.
  { apply andb_prop in Es. destruct Es as [Es1 Es2].
    apply geb_true_inv in Es1. apply negb_true_iff in Es2.
    unfold counted_ok. cbn [recognized_prefix trailer_lines].
    split; [intros H; specialize (Hrec H); lia|]. split; [lia|].
    intros _. exists l. split; [exact Hls|]. split; [lia|].
    right. split; [lia|exact Es2]. }
  destruct (isspace (get buf l)); unfold counted_ok;
    cbn [recognized_prefix trailer_lines];
    (split; [exact Hrec|]); (split; [exact Hnn|]); exact Hold.
Qed.

Lemma backward_scan_counted (buf : list ascii) (len e : Z) :
  0 <= e ->
  forall (fuel : nat) (l : Z) (c : counters) (l0 : Z) (c0 : counters),
    l < len -> (e <= l -> line_start buf l) ->
    counted_ok buf len l c ->
    backward_scan fuel buf e l c = Some (AtBlankLine l0 c0) ->
    counted_ok buf len l0 c0.
Proof.
  intros He. induction fuel as [|fuel IH]; intros l c l0 c0 Hlen Hls Hc;
    cbn [backward_scan]; destruct (l >=? e) eqn:Ege; try discriminate.
  apply geb_true_inv in Ege. specialize (Hls Ege).
  pose proof (last_line_below buf l ltac:(lia)) as Hbelow.
  assert (Hnext : e <= last_line buf l -> line_start buf (last_line buf l)).
  { intros H. destruct (Z.eq_dec l 0) as [->|Hne];
      [rewrite last_line_0 in H; lia|].
    now destruct (last_line_spec buf l ltac:(lia)) as (_ & Hs & _). }
  assert (Hweak : forall c',
    recognized_prefix c' = recognized_prefix c ->
    trailer_lines c' = trailer_lines c ->
    counted_ok buf len (last_line buf l) c').
  { intros c' Hr Ht. destruct Hc as (Hrec & Hnn & Hex).
    unfold counted_ok. rewrite Hr, Ht.
    split; [exact Hrec|]. split; [exact Hnn|].
    intros H. destruct (Hex H) as (p & Hp & Hpr & Hpt).
    exists p. split; [exact Hp|]. split; [lia|exact Hpt]. }
  rewrite hd_suffix by lia.
  destruct (Ascii.eqb (get buf l) COMMENT_LINE_CHAR).
  - apply IH; [lia|exact Hnext|]. now apply Hweak.
  - destruct (is_blank_line (suffix buf l)).
    + destruct (only_spaces c).
      * apply IH; [lia|exact Hnext|]. now apply Hweak.
      * intros [= <- <-]. destruct Hc as (Hrec & Hnn & Hex).
        unfold counted_ok. cbn [recognized_prefix trailer_lines].
        split; [exact Hrec|]. split; [exact Hnn|exact Hex].
    + apply IH; [lia|exact Hnext|].
      apply classify_line_counted; try assumption; lia.
Qed.

Lemma accepted_has_trailer (buf : list ascii) (len l : Z) (c : counters) :
  counted_ok buf len l c ->
  trailer_start_of buf len (AtBlankLine l c) <> len ->
  trailer_lines c >= 1.
Proof.
  intros (Hrec & Hnn & _). cbn [trailer_start_of].
  destruct (recognized_prefix c) eqn:Er; cbn [andb].
  - intros _. now apply Hrec.
  - destruct (trailer_lines c =? 0) eqn:E0; cbn [negb andb];
      [intros H; now elim H|].
    apply Z.eqb_neq in E0. intros _. lia.
Qed.

(** X6.  In a buffer of at most [INT_MAX] bytes, a trailer block that
    [find_trailer_start] finds starts at the start of a line, right after a
    blank line that is not above the end of the title, and holds a line that
    counts as a trailer: a line with a generated prefix, or one that does
    not begin with white space and has a separator after a non-empty
    token. *)
Theorem trailer_block_follows_blank_line (buf : list ascii) (len : Z) :
  strlen buf <= INT_MAX ->
  0 <= len <= strlen buf ->
  exists e r,
    end_of_title buf len = Some e
    /\ find_trailer_start buf len = Some r
    /\ (r = len
        \/ (line_start buf r
            /\ e <= last_line buf r < r
            /\ blank_at buf (last_line buf r)
            /\ exists p, line_start buf p /\ r <= p < len
                 /\ trailer_line_at buf p)).
Proof.
  intros _ Hlen.
  destruct (trailer_scan_spec buf len Hlen) as (e & x & He & Hx & He0 & Hok).
  exists e, (trailer_start_of buf len x).
  split; [exact He|]. split; [unfold find_trailer_start; now rewrite Hx|].
  destruct (Z.eq_dec (trailer_start_of buf len x) len) as [Heq|Hne];
    [now left|right].
  destruct x as [l c|c]; [|cbn [trailer_start_of] in Hne; lia].
  destruct Hok as (Hl & Hls & Hbl & _).
  assert (Hr : trailer_start_of buf len (AtBlankLine l c) = next_line buf l).
  { cbn [trailer_start_of] in *.
    destruct (_ && _); [reflexivity|]. destruct (_ && _); [reflexivity|lia]. }
  assert (Hnz : get buf l <> NUL) by (apply strlen_get_before; lia).
  destruct (next_line_spec buf l ltac:(lia)) as (Hb & Hno & Hend & Hpos).
  specialize (Hpos Hnz).
  pose proof (last_line_of_next_line buf l Hls Hnz) as Hback.
  unfold trailer_scan in Hx. rewrite He in Hx.
  assert (Hl0 : last_line buf len < len).
  { destruct (Z.eq_dec len 0) as [->|H0]; [rewrite last_line_0; lia|].
    destruct (last_line_spec buf len ltac:(lia)) as (H & _). lia. }
  assert (Hc : counted_ok buf len l c).
  { apply (backward_scan_counted buf len e He0 _ _ _ _ _ Hl0) with (3 := Hx).
    - intros _. destruct (Z.eq_dec len 0) as [->|H0]; [lia|].
      now destruct (last_line_spec buf len ltac:(lia)) as (_ & H & _).
    - unfold counted_ok, counters0. cbn [recognized_prefix trailer_lines].
      split; [intros H; discriminate H|]. split; [lia|]. intros H. lia. }
  pose proof (accepted_has_trailer buf len l c Hc Hne) as Ht.
  destruct Hc as (_ & _ & Hex). destruct (Hex Ht) as (p & Hp & Hpr & Hpt).
  rewrite Hr in *. rewrite Hback.
  assert (Hrp : next_line buf l <= p).
  { destruct (Z_le_gt_dec (next_line buf l) p); [assumption|].
    exfalso. destruct Hp as [->|[_ Hlf]]; [lia|].
    revert Hlf. apply Hno. lia. }
  split.
  { destruct (Hend Hpos) as [Hlf|Heq].
    - right. split; [lia|exact Hlf].
    - exfalso. rewrite strlen_suffix in Heq by lia. lia. }
  split; [lia|]. split; [exact Hbl|].
  exists p. split; [exact Hp|]. split; [lia|exact Hpt].
Qed.

Lemma trailer_block_follows_blank_line_witness :
  exists e r,
    end_of_title (msg ["Subject"; ""; "Key: val"]%string) 18 = Some e
    /\ find_trailer_start (msg ["Subject"; ""; "Key: val"]%string) 18
       = Some r
    /\ (r = 18
        \/ (line_start (msg ["Subject"; ""; "Key: val"]%string) r
            /\ e <= last_line (msg ["Subject"; ""; "Key: val"]%string) r < r
            /\ blank_at (msg ["Subject"; ""; "Key: val"]%string)
                 (last_line (msg ["Subject"; ""; "Key: val"]%string) r)
            /\ exists p,
                 line_start (msg ["Subject"; ""; "Key: val"]%string) p
                 /\ r <= p < 18
                 /\ trailer_line_at
                      (msg ["Subject"; ""; "Key: val"]%string) p)).
Proof.
  apply (trailer_block_follows_blank_line
           (msg ["Subject"; ""; "Key: val"]%string) 18).
  - apply Z.leb_le. reflexivity.
  - split; [lia|vm_compute; discriminate].
Defined.

(** X7.  A message of at most [INT_MAX] bytes none of whose lines is blank
    is all title: its trailer block is empty and no pair is handed out. *)
Theorem single_paragraph_has_no_trailers (message : list ascii) :
  strlen message <= INT_MAX ->
  (forall p, line_start message p -> 0 <= p < strlen message ->
     ~ blank_at message p) ->
  trailer_block_of message = Some ([], 0)
  /\ trailers message = Some [].
Proof.
  intros Hfit Hnb.
  assert (Hblock : trailer_block_of message = Some ([], 0)).
  { destruct (pipeline_offsets message Hfit)
      as (P & E & x & HP & HE & Hx & HEb & HPb & _).
    destruct (end_of_title_spec message E ltac:(lia)) as (e & He & He0 & Ht).
    assert (Hge : E <= e).
    { destruct (Z_le_gt_dec E e); [assumption|]. exfalso.
      destruct (Ht ltac:(lia)) as (Hls & Hbl).
      apply (Hnb e Hls); [lia|exact Hbl]. }
    unfold trailer_scan in Hx. rewrite He in Hx.
    rewrite backward_scan_below in Hx.
    2:{ pose proof (last_line_below message E ltac:(lia)). lia. }
    injection Hx as <-.
    unfold trailer_block_of, find_trailer_start, trailer_scan.
    rewrite HP, HE, He. rewrite backward_scan_below.
    2:{ pose proof (last_line_below message E ltac:(lia)). lia. }
    cbn [option_map trailer_start_of].
    replace (E - E) with 0 by lia. reflexivity. }
  split; [exact Hblock|]. exact (trailers_of_empty_block message 0 Hblock).
Qed.

Lemma single_paragraph_has_no_trailers_witness :
  trailer_block_of (bytes "Key: v") = Some ([], 0)
  /\ trailers (bytes "Key: v") = Some [].
Proof.
  apply (single_paragraph_has_no_trailers (bytes "Key: v"));
    [apply Z.leb_le; reflexivity|].
  intros p Hp Hr [_ Hb].
  change (strlen (bytes "Key: v")) with 6 in Hr.
  assert (Hc : p = 0 \/ p = 1 \/ p = 2 \/ p = 3 \/ p = 4 \/ p = 5) by lia.
  destruct Hc as [->|Hc]; [vm_compute in Hb; discriminate Hb|].
  destruct Hp as [->|[_ Hlf]]; [lia|].
  repeat (destruct Hc as [->|Hc]; [vm_compute in Hlf; discriminate Hlf|]).
  subst p. vm_compute in Hlf. discriminate Hlf.
Defined.

(** ** [find_separator] *)

Lemma strchr_in_NUL (set : list ascii) : strchr_in set NUL = false.
Proof.
  unfold strchr_in. induction set as [|c r IH]; cbn [cstr existsb];
    [reflexivity|].
  destruct (Ascii.eqb c NUL) eqn:E; [reflexivity|]. cbn [existsb].
  rewrite IH. rewrite Ascii.eqb_sym, E. reflexivity.
Qed.

Lemma sp_tab_not_token (c : ascii) :
  is_sp_tab c = true -> token_char c = false.
Proof.
  unfold is_sp_tab. intros H. apply orb_prop in H.
  destruct H as [H|H]; ascii_cases; subst c; reflexivity.
Qed.

Lemma get_head (x : ascii) (r : list ascii) : get (x :: r) 0 = x.
Proof. reflexivity. Qed.

Lemma find_separator_loop_range (separators c : list ascii) :
  forall pos ws,
    find_separator_loop c separators pos ws = -1
    \/ pos <= find_separator_loop c separators pos ws.
Proof.
  induction c as [|x r IH]; intros pos ws; cbn [find_separator_loop];
    [now left|].
  destruct (Ascii.eqb x NUL); [now left|].
  destruct (strchr_in separators x); [right; lia|].
  destruct (_ && _); [destruct (IH (pos + 1) ws); [now left|right; lia]|].
  destruct (_ && _); [destruct (IH (pos + 1) true); [now left|right; lia]|].
  now left.
Qed.

Lemma find_separator_loop_finds (separators c : list ascii) :
  forall pos ws k,
    0 <= pos ->
    separator_after c separators pos ws k ->
    find_separator_loop c separators pos ws = pos + k.
Proof.
  induction c as [|x r IH]; intros pos ws k Hpos
    (Hk & Hsep & t & Ht & Hws & Hfirst & Htok & Hsp).
  - rewrite get_nil in Hsep by (cbn; lia).
    rewrite strchr_in_NUL in Hsep. discriminate.
  - cbn [find_separator_loop].
    destruct (Ascii.eqb x NUL) eqn:E0; ascii_cases.
    { exfalso. subst x. destruct (Z.eq_dec k 0) as [->|Hk0].
      - rewrite get_head, strchr_in_NUL in Hsep. discriminate.
      - destruct (Z.eq_dec t 0) as [->|Ht0].
        + destruct (Hsp 0 ltac:(lia)) as [H _]. rewrite get_head in H.
          discriminate H.
        + destruct (Htok 0 ltac:(lia)) as [H _]. rewrite get_head in H.
          discriminate H. }
    destruct (Z.eq_dec k 0) as [->|Hk0].
    { rewrite get_head in Hsep. rewrite Hsep. lia. }
    assert (Hrest : forall ws' t',
      0 <= t' <= k - 1 -> (ws' = true -> t' = 0) ->
      (forall i, 0 <= i < t' ->
         token_char (get (x :: r) (i + 1)) = true
         /\ strchr_in separators (get (x :: r) (i + 1)) = false) ->
      (forall i, t' <= i < k - 1 ->
         is_sp_tab (get (x :: r) (i + 1)) = true
         /\ strchr_in separators (get (x :: r) (i + 1)) = false) ->
      find_separator_loop r separators (pos + 1) ws' = pos + k).
    { intros ws' t' Ht' Hws' Htok' Hsp'.
      replace (pos + k) with (pos + 1 + (k - 1)) by lia.
      apply IH; [lia|]. split; [lia|]. split.
      - rewrite <- (get_cons x) by lia.
        now replace (k - 1 + 1) with k by lia.
      - exists t'. split; [lia|]. split; [exact Hws'|].
        split; [intros; lia|]. split.
        + intros i Hi. rewrite <- (get_cons x) by lia. now apply Htok'.
        + intros i Hi. rewrite <- (get_cons x) by lia. now apply Hsp'. }
    destruct (Z.eq_dec t 0) as [->|Ht0].
    + destruct (Hsp 0 ltac:(lia)) as [Hx Hns]. rewrite get_head in Hx, Hns.
      rewrite Hns. fold (token_char x). rewrite (sp_tab_not_token x Hx).
      rewrite andb_false_r. fold (is_sp_tab x). rewrite Hx.
      replace (pos =? 0) with false
        by (symmetry; apply Z.eqb_neq; intros H; specialize (Hfirst H); lia).
      cbn [negb andb].
      apply (Hrest true 0); [lia|reflexivity|intros; lia|].
      intros i Hi. apply Hsp. lia.
    + destruct (Htok 0 ltac:(lia)) as [Hx Hns]. rewrite get_head in Hx, Hns.
      rewrite Hns. fold (token_char x). rewrite Hx.
      assert (ws = false).
      { destruct ws; [specialize (Hws eq_refl); lia|reflexivity]. }
      subst ws. cbn [negb andb].
      apply (Hrest false (t - 1)); [lia|discriminate| |].
      * intros i Hi. apply Htok. lia.
      * intros i Hi. apply Hsp. lia.
Qed.

Lemma find_separator_loop_found (separators c : list ascii) :
  forall pos ws k,
    0 <= pos -> 0 <= k ->
    find_separator_loop c separators pos ws = pos + k ->
    separator_after c separators pos ws k.
Proof.
  induction c as [|x r IH]; intros pos ws k Hpos Hk;
    cbn [find_separator_loop]; [lia|].
  destruct (Ascii.eqb x NUL) eqn:E0; [lia|].
  destruct (strchr_in separators x) eqn:Es.
  { intros H. assert (k = 0) by lia. subst k.
    split; [lia|]. split; [now rewrite get_head|].
    exists 0. split; [lia|]. split; [reflexivity|]. split; [reflexivity|].
    split; intros; lia. }
  assert (Hlift : forall ws' t',
    separator_after r separators (pos + 1) ws' (k - 1) -> 1 <= k ->
    forall (Hx : (t' = 0 /\ ws' = true /\ is_sp_tab x = true /\ pos <> 0)
                 \/ (t' = 1 /\ ws' = false /\ ws = false
                     /\ token_char x = true)),
    separator_after (x :: r) separators pos ws k).
  { intros ws' t' (_ & Hsep & t & Ht & Hws' & _ & Htok & Hsp) Hk1 Hx.
    split; [lia|]. split.
    { replace k with (k - 1 + 1) by lia. now rewrite get_cons by lia. }
    destruct Hx as [(-> & -> & Hx & Hp)|(-> & -> & -> & Hx)].
    - specialize (Hws' eq_refl). subst t.
      exists 0. split; [lia|]. split; [reflexivity|].
      split; [intros; lia|]. split; [intros; lia|].
      intros i Hi. destruct (Z.eq_dec i 0) as [->|Hi0].
      + rewrite get_head. now split.
      + replace i with (i - 1 + 1) by lia. rewrite get_cons by lia.
        apply Hsp. lia.
    - exists (t + 1). split; [lia|]. split; [discriminate|].
      split; [intros; lia|]. split.
      + intros i Hi. destruct (Z.eq_dec i 0) as [->|Hi0].
        * rewrite get_head. now split.
        * replace i with (i - 1 + 1) by lia. rewrite get_cons by lia.
          apply Htok. lia.
      + intros i Hi. replace i with (i - 1 + 1) by lia.
        rewrite get_cons by lia. apply Hsp. lia. }
  fold (token_char x). fold (is_sp_tab x).
  destruct (negb ws && token_char x) eqn:Et.
  { intros H. apply andb_prop in Et. destruct Et as [Ew Et].
    apply negb_true_iff in Ew.
    destruct (find_separator_loop_range separators r (pos + 1) ws)
      as [Hr|Hr]; [lia|].
    apply (Hlift ws 1); [|lia|right; now subst ws].
    apply IH; lia. }
  destruct (negb (pos =? 0) && is_sp_tab x) eqn:Ew; [|lia].
  intros H. apply andb_prop in Ew. destruct Ew as [Ep Ew].
  apply negb_true_iff, Z.eqb_neq in Ep.
  destruct (find_separator_loop_range separators r (pos + 1) true)
    as [Hr|Hr]; [lia|].
  apply (Hlift true 0); [|lia|left; auto].
  apply IH; lia.
Qed.

(** X8.  On a line of at most [INT_MAX] bytes [find_separator] returns -1
    or the offset of a separator, and it returns the offset [k] exactly when
    the line has a separator at [k] after a run of alphanumeric bytes and
    hyphens followed by a run of spaces and tabs, where white space is not
    the first byte of the line. *)
Theorem find_separator_shape (line separators : list ascii) :
  strlen line <= INT_MAX ->
  (find_separator line separators = -1
   \/ 0 <= find_separator line separators)
  /\ forall k,
       separator_after line separators 0 false k
       <-> (find_separator line separators = k /\ 0 <= k).
Proof.
  intros _. unfold find_separator. split.
  - destruct (find_separator_loop_range separators line 0 false);
      [now left|now right].
  - intros k. split.
    + intros H. split; [|now destruct H].
      now rewrite (find_separator_loop_finds separators line 0 false k).
    + intros [H Hk]. apply find_separator_loop_found; lia.
Qed.

Lemma find_separator_shape_witness :
  (find_separator (bytes "Key: v") TRAILER_SEPARATORS = -1
   \/ 0 <= find_separator (bytes "Key: v") TRAILER_SEPARATORS)
  /\ forall k,
       separator_after (bytes "Key: v") TRAILER_SEPARATORS 0 false k
       <-> (find_separator (bytes "Key: v") TRAILER_SEPARATORS = k
            /\ 0 <= k).
Proof.
  apply (find_separator_shape (bytes "Key: v") TRAILER_SEPARATORS).
  apply Z.leb_le. reflexivity.
Defined.

(** ** What a call of the tokenizer writes *)

Lemma get_put_same (buf : list ascii) (i : Z) (c : ascii) :
  0 <= i < Z.of_nat (List.length buf) -> get (put buf i c) i = c.
Proof.
  intros Hi. unfold put.
  replace ((0 <=? i) && (i <? Z.of_nat (List.length buf))) with true
    by (symmetry; apply andb_true_intro; split;
        [apply Z.leb_le|apply Z.ltb_lt]; lia).
  unfold get. replace (i <? 0) with false by (symmetry; apply Z.ltb_ge; lia).
  rewrite app_nth2 by (rewrite length_firstn; lia).
  rewrite length_firstn.
  replace (Z.to_nat i - Nat.min (Z.to_nat i) (List.length buf))%nat with O
    by lia.
  reflexivity.
Qed.

Lemma get_put_other (buf : list ascii) (i j : Z) (c : ascii) :
  j <> i -> get (put buf i c) j = get buf j.
Proof.
  intros Hne. unfold put.
  destruct ((0 <=? i) && (i <? Z.of_nat (List.length buf))) eqn:E;
    [|reflexivity].
  apply andb_prop in E. destruct E as [E1 E2].
  apply Z.leb_le in E1. apply Z.ltb_lt in E2.
  unfold get. destruct (j <? 0) eqn:Ej; [reflexivity|].
  apply Z.ltb_ge in Ej.
  rewrite <- (firstn_skipn (Z.to_nat i) buf) at 3.
  destruct (Z_lt_ge_dec j i) as [Hlt|Hge].
  - rewrite !app_nth1 by (rewrite length_firstn; lia). reflexivity.
  - rewrite !app_nth2 by (rewrite length_firstn; lia).
    rewrite length_firstn.
    replace (Z.to_nat j - Nat.min (Z.to_nat i) (List.length buf))%nat
      with (S (Z.to_nat j - Z.to_nat i - 1)) by lia.
    cbn [nth].
    replace (skipn (Z.to_nat i) buf)
      with (get buf i :: skipn (S (Z.to_nat i)) buf).
    + reflexivity.
    + pose proof (suffix_cons buf i ltac:(lia)) as H. unfold suffix in H.
      replace (Z.to_nat (i + 1)) with (S (Z.to_nat i)) in H by lia.
      now rewrite H.
Qed.

Lemma touched_refl (p0 q : Z) (b : list ascii) : touched p0 q b b.
Proof. split; [reflexivity|]. intros i. now left. Qed.

Lemma touched_trans (p0 q q' : Z) (b b1 b2 : list ascii) :
  q <= q' -> touched p0 q b b1 -> touched p0 q' b1 b2 -> touched p0 q' b b2.
Proof.
  intros Hq [Hl1 H1] [Hl2 H2]. split; [congruence|].
  intros i. destruct (H2 i) as [He|Hn]; [|now right].
  rewrite He. destruct (H1 i) as [He1|[Hr Hn1]]; [now left|].
  right. split; [lia|exact Hn1].
Qed.

Lemma touched_put (p0 q i : Z) (b : list ascii) :
  p0 <= i < q -> 0 <= i < Z.of_nat (List.length b) ->
  touched p0 q b (put b i NUL).
Proof.
  intros Hi Hr. split; [apply put_length|].
  intros j. destruct (Z.eq_dec j i) as [->|Hne].
  - right. split; [exact Hi|]. now apply get_put_same.
  - left. now apply get_put_other.
Qed.

Lemma step_touched (p0 : Z) (m m' : machine) :
  0 <= p0 ->
  not_moved p0 m \/ p0 < m_ptr m ->
  0 <= m_ptr m <= Z.of_nat (List.length (m_block m)) ->
  step m = inl m' ->
  touched p0 (m_ptr m') (m_block m) (m_block m').
Proof.
  intros Hp0 Hm Hp. unfold step.
  assert (Hnz : get (m_block m) (m_ptr m) <> NUL ->
                m_ptr m < Z.of_nat (List.length (m_block m))).
  { intros H. apply get_in_range in H. lia. }
  assert (Hge : p0 <= m_ptr m).
  { destruct Hm as [(H & _)|H]; lia. }
  destruct (m_state m) eqn:Est; step_cases; intros [= <-];
    cbn [NEXT GOTO poke m_block m_ptr m_state];
    try apply touched_refl; ascii_cases.
  - apply touched_put; [lia|]. specialize (Hnz ltac:(assumption)). lia.
  - apply touched_put; [lia|]. specialize (Hnz ltac:(assumption)). lia.
  - destruct Hm as [(_ & _ & [H|[H|H]])|Hm]; try congruence.
    apply touched_put; lia.
Qed.

Lemma step_keeps_moving (p0 : Z) (m m' : machine) :
  not_moved p0 m \/ p0 < m_ptr m ->
  0 <= m_ptr m <= Z.of_nat (List.length (m_block m)) ->
  step m = inl m' ->
  not_moved p0 m' \/ p0 < m_ptr m'.
Proof.
  intros [Hm|Hm] Hp Hs.
  - destruct (step_not_moved p0 m Hm) as (m1 & Hs1 & H).
    assert (m1 = m') by congruence. now subst m1.
  - right. destruct (step_inl m m' Hp Hs) as (_ & H & _). lia.
Qed.

Lemma run_monotone (fuel : nat) :
  forall m m',
    0 <= m_ptr m <= Z.of_nat (List.length (m_block m)) ->
    run fuel m = Some m' ->
    List.length (m_block m') = List.length (m_block m)
    /\ m_ptr m <= m_ptr m' <= Z.of_nat (List.length (m_block m)).
Proof.
  induction fuel as [|fuel IH]; intros m m' Hp Hrun; [discriminate|].
  cbn [run] in Hrun. destruct (step m) as [m1|m1] eqn:Es.
  - destruct (step_inl m m1 Hp Es) as (Hlen & Hptr & _).
    destruct (IH m1 m') as (Hlen' & Hptr'); [rewrite Hlen; lia|exact Hrun|].
    split; [congruence|]. rewrite Hlen in Hptr'. lia.
  - apply step_inr in Es. subst m1. injection Hrun as <-.
    split; [reflexivity|lia].
Qed.

Lemma run_touched (p0 : Z) (fuel : nat) :
  forall m m',
    0 <= p0 ->
    not_moved p0 m \/ p0 < m_ptr m ->
    0 <= m_ptr m <= Z.of_nat (List.length (m_block m)) ->
    run fuel m = Some m' ->
    touched p0 (m_ptr m') (m_block m) (m_block m').
Proof.
  induction fuel as [|fuel IH]; intros m m' Hp0 Hm Hp Hrun;
    [discriminate|].
  cbn [run] in Hrun. destruct (step m) as [m1|m1] eqn:Es.
  - destruct (step_inl m m1 Hp Es) as (Hlen & Hptr & _).
    pose proof (step_touched p0 m m1 Hp0 Hm Hp Es) as Ht1.
    pose proof (step_keeps_moving p0 m m1 Hm Hp Es) as Hm1.
    assert (Hp1 : 0 <= m_ptr m1 <= Z.of_nat (List.length (m_block m1)))
      by (rewrite Hlen; lia).
    pose proof (IH m1 m' Hp0 Hm1 Hp1 Hrun) as Ht2.
    destruct (run_monotone fuel m1 m' Hp1 Hrun) as (_ & Hmono).
    apply touched_trans with (q := m_ptr m1) (b1 := m_block m1);
      try assumption; lia.
  - apply step_inr in Es. subst m1. injection Hrun as <-. apply touched_refl.
Qed.

(** ** What the tokenizer knows of the key and the value *)

Lemma tokens_put (b : list ascii) (k e i : Z) (c : ascii) :
  e <= i -> tokens b k e -> tokens (put b i c) k e.
Proof.
  intros Hi Ht j Hj. rewrite get_put_other by lia. now apply Ht.
Qed.

Lemma tokens_snoc (b : list ascii) (k e : Z) :
  tokens b k e -> token_char (get b e) = true -> tokens b k (e + 1).
Proof.
  intros Ht He j Hj. destruct (Z.eq_dec j e) as [->|Hne]; [exact He|].
  apply Ht. lia.
Qed.

Lemma key_value_same_block (p0 : Z) (m m' : machine) (k e v : Z) :
  m_block m' = m_block m -> m_key m' = m_key m -> m_value m' = m_value m ->
  key_value p0 m k e v -> key_value p0 m' k e v.
Proof.
  unfold key_value. intros -> -> ->. auto.
Qed.

Lemma tok_inv_step (p0 : Z) (vo : option Z) (m m' : machine) :
  tok_inv p0 vo m -> step m = inl m' -> tok_inv p0 vo m'.
Proof.
  intros (Hp0 & Hlen & Hst) Hs.
  destruct (step_inl m m' ltac:(lia) Hs) as (Hlen' & Hptr' & _).
  assert (Hb : 0 <= p0 <= m_ptr m' /\
               m_ptr m' <= Z.of_nat (List.length (m_block m')))
    by (rewrite Hlen'; lia).
  unfold tok_inv. split; [apply Hb|]. split; [apply Hb|]. clear Hb.
  assert (Hnz : get (m_block m) (m_ptr m) <> NUL ->
                m_ptr m < Z.of_nat (List.length (m_block m))).
  { intros H. apply get_in_range in H. lia. }
  revert Hs. unfold step.
  destruct (m_state m) eqn:Est.
  - (* S_START *)
    step_cases; intros [= <-]; cbn [GOTO m_block m_ptr m_state m_key m_value].
    split; [exact Hst|]. exists (m_ptr m).
    split; [reflexivity|]. split; [lia|]. intros i Hi. lia.
  - (* S_KEY *)
    destruct Hst as (Hv & k & Hk & Hkr & Htok).
    step_cases; intros [= <-];
      cbn [NEXT GOTO poke m_block m_ptr m_state m_key m_value];
      rewrite ?Z.add_0_r; ascii_cases.
    + split; [exact Hv|]. exists k. split; [exact Hk|]. split; [lia|].
      apply tokens_snoc; assumption.
    + specialize (Hnz ltac:(assumption)).
      split; [exact Hv|]. exists k, (m_ptr m). split; [exact Hk|].
      split; [lia|]. split; [lia|].
      split; [apply get_put_same; lia|apply tokens_put; [lia|exact Htok]].
    + specialize (Hnz ltac:(assumption)).
      split; [exact Hv|]. exists k, (m_ptr m). split; [exact Hk|].
      split; [lia|]. split; [lia|].
      split; [apply get_put_same; lia|apply tokens_put; [lia|exact Htok]].
    + exact Hv.
  - (* S_KEY_WS *)
    destruct Hst as (Hv & k & e & Hk & Hkr & He & Hnul & Htok).
    step_cases; intros [= <-];
      cbn [NEXT GOTO poke m_block m_ptr m_state m_key m_value];
      try exact Hv;
      (split; [exact Hv|]); exists k, e; (split; [exact Hk|]);
      (split; [lia|]); (split; [lia|]); split; assumption.
  - (* S_SEP_WS *)
    destruct Hst as (Hv & k & e & Hk & Hkr & He & Hnul & Htok).
    step_cases; intros [= <-];
      cbn [NEXT GOTO poke m_block m_ptr m_state m_key m_value];
      ascii_cases.
    + split; [exact Hv|]. exists k, e. split; [exact Hk|].
      split; [lia|]. split; [lia|]. split; assumption.
    + exists k, e, (m_ptr m). split; [|lia].
      unfold key_value. cbn [NEXT m_block m_ptr m_key m_value].
      split; [exact Hk|]. split; [reflexivity|]. split; [lia|].
      split; [lia|]. split; [exact Hnul|]. split; [exact Htok|].
      split; assumption.
  - (* S_VALUE *)
    destruct Hst as (k & e & v & Hkv & Hvp).
    step_cases; intros [= <-];
      cbn [NEXT GOTO poke m_block m_ptr m_state m_key m_value];
      ascii_cases; exists k, e, v.
    + split; [exact Hkv|]. split; [lia|]. now left.
    + split; [exact Hkv|]. lia.
    + split; [exact Hkv|]. lia.
  - (* S_VALUE_NL *)
    destruct Hst as (k & e & v & Hkv & Hvp).
    step_cases; intros [= <-];
      cbn [NEXT GOTO poke m_block m_ptr m_state m_key m_value];
      ascii_cases; exists k, e, v.
    + split; [exact Hkv|]. lia.
    + destruct Hkv as (Hk & Hv & Hkr & Hev & Hnul & Htok & Hvn & Hvs).
      split.
      * unfold key_value. cbn [GOTO poke m_block m_ptr m_key m_value].
        split; [exact Hk|]. split; [exact Hv|]. split; [lia|].
        split; [lia|]. rewrite !get_put_other by lia.
        split; [exact Hnul|]. split; [apply tokens_put; [lia|exact Htok]|].
        split; assumption.
      * split; [lia|]. right. split; [|lia].
        replace (m_ptr m + -1) with (m_ptr m - 1) by lia.
        apply get_put_same. lia.
  - (* S_VALUE_END *)
    intros H. discriminate H.
  - (* S_IGNORE *)
    step_cases; intros [= <-];
      cbn [NEXT GOTO poke m_block m_ptr m_state m_key m_value]; exact Hst.
Qed.

Lemma tok_inv_exit (p0 : Z) (vo : option Z) (m m' : machine) :
  tok_inv p0 vo m -> step m = inr m' -> exit_shape p0 vo m.
Proof.
  intros (_ & _ & Hst). unfold step.
  destruct (m_state m) eqn:Est; step_cases; try discriminate;
    intros _; ascii_cases.
  - left. split; assumption.
  - left. destruct Hst as (Hv & _). split; assumption.
  - left. destruct Hst as (Hv & _). split; assumption.
  - left. destruct Hst as (Hv & _). split; assumption.
  - right. exact Hst.
  - left. split; assumption.
Qed.

Lemma run_inv (p0 : Z) (vo : option Z) (fuel : nat) :
  forall m m',
    tok_inv p0 vo m -> run fuel m = Some m' ->
    tok_inv p0 vo m' /\ exit_shape p0 vo m'.
Proof.
  induction fuel as [|fuel IH]; intros m m' Hinv Hrun; [discriminate|].
  cbn [run] in Hrun. destruct (step m) as [m1|m1] eqn:Es.
  - apply (IH m1 m'); [|exact Hrun]. now apply (tok_inv_step p0 vo m).
  - pose proof (tok_inv_exit p0 vo m m1 Hinv Es) as Hex.
    apply step_inr in Es. subst m1. injection Hrun as <-. now split.
Qed.

(** What a call of [git_message_trailer_iterator_next] that does not return
    [GIT_ITEROVER] leaves behind. *)
Lemma iterator_next_shape (key_out value_out : option Z)
    (iter iter' : trailer_iterator) (rc : Z) (k v : option Z) :
  iterator_ok iter ->
  git_message_trailer_iterator_next key_out value_out iter
  = Some (rc, k, v, iter') ->
  (rc = GIT_ITEROVER /\ iter' = iter /\ k = key_out /\ v = value_out
   /\ get (trailer_block iter) (ptr iter) = NUL)
  \/ (rc = 0
      /\ exists m',
           k = m_key m' /\ v = m_value m'
           /\ trailer_block iter' = m_block m' /\ ptr iter' = m_ptr m'
           /\ tok_inv (ptr iter) value_out m'
           /\ exit_shape (ptr iter) value_out m'
           /\ touched (ptr iter) (m_ptr m') (trailer_block iter) (m_block m')).
Proof.
  intros Hok. unfold git_message_trailer_iterator_next.
  destruct (Ascii.eqb (get (trailer_block iter) (ptr iter)) NUL) eqn:E;
    ascii_cases.
  - intros [= <- <- <- <-]. left. repeat split; assumption.
  - destruct (run _ _) as [m'|] eqn:Hrun; [|discriminate].
    intros [= <- <- <- <-]. right. split; [reflexivity|]. exists m'.
    unfold iterator_ok in Hok.
    set (m0 := Machine (trailer_block iter) (ptr iter) S_START
                 key_out value_out) in *.
    assert (Hinv0 : tok_inv (ptr iter) value_out m0).
    { unfold tok_inv. cbn. split; [lia|]. split; [lia|reflexivity]. }
    assert (Hnm : not_moved (ptr iter) m0).
    { split; [reflexivity|]. split; [exact E|]. now left. }
    destruct (run_inv _ _ _ m0 m' Hinv0 Hrun) as (Hinv & Hex).
    pose proof (run_touched (ptr iter) _ m0 m' ltac:(lia) (or_introl Hnm)
                  Hok Hrun) as Ht.
    cbn [trailer_block ptr].
    repeat (split; [reflexivity|]). split; [exact Hinv|].
    split; [exact Hex|exact Ht].
Qed.

(** ** C strings in the block *)

Lemma cstr_suffix_step (b : list ascii) (k : Z) :
  0 <= k ->
  cstr (suffix b k)
  = if Ascii.eqb (get b k) NUL then [] else get b k :: cstr (suffix b (k + 1)).
Proof.
  intros Hk. destruct (Z_lt_ge_dec k (Z.of_nat (List.length b))) as [Hl|Hl].
  - rewrite (suffix_cons b k) by lia. reflexivity.
  - rewrite suffix_nil, get_nil by lia. reflexivity.
Qed.

Lemma cstr_agree (b b' : list ascii) (n : nat) :
  forall k e,
    0 <= k <= e -> e - k = Z.of_nat n -> get b e = NUL ->
    (forall i, k <= i <= e -> get b' i = get b i) ->
    cstr (suffix b' k) = cstr (suffix b k).
Proof.
  induction n as [|n IH]; intros k e Hk Hn Hnul Hag;
    rewrite (cstr_suffix_step b k), (cstr_suffix_step b' k) by lia;
    rewrite (Hag k) by lia.
  - assert (k = e) by lia. subst k. rewrite Hnul. reflexivity.
  - destruct (Ascii.eqb (get b k) NUL); [reflexivity|]. f_equal.
    apply (IH (k + 1) e); try lia; [exact Hnul|].
    intros i Hi. apply Hag. lia.
Qed.

Lemma cstr_tokens (b : list ascii) (n : nat) :
  forall k e,
    0 <= k <= e -> e - k = Z.of_nat n -> tokens b k e -> get b e = NUL ->
    Forall (fun c => token_char c = true) (cstr (suffix b k))
    /\ Z.of_nat (List.length (cstr (suffix b k))) = e - k.
Proof.
  induction n as [|n IH]; intros k e Hk Hn Htok Hnul;
    rewrite (cstr_suffix_step b k) by lia.
  - assert (k = e) by lia. subst k. rewrite Hnul. cbn. split; [constructor|lia].
  - pose proof (Htok k ltac:(lia)) as Hc.
    destruct (Ascii.eqb (get b k) NUL) eqn:E; ascii_cases.
    { rewrite E in Hc. discriminate Hc. }
    destruct (IH (k + 1) e) as (Hall & Hlen); try lia; try assumption.
    { intros i Hi. apply Htok. lia. }
    split; [constructor; assumption|].
    cbn [List.length]. rewrite Nat2Z.inj_succ. lia.
Qed.

(** X9.  Every call of [git_message_trailer_iterator_next] on an iterator
    whose [ptr] lies in its block returns: either [GIT_ITEROVER], with the
    iterator unchanged, or 0 with [ptr] moved strictly forward and still in
    the block.  The block keeps its address and its length, and the call
    changes no byte except by writing NUL at offsets from the old [ptr] and
    below the new one. *)
Theorem iterator_next_advances (key_out value_out : option Z)
    (iter : trailer_iterator) :
  iterator_ok iter ->
  exists rc k v iter',
    git_message_trailer_iterator_next key_out value_out iter
    = Some (rc, k, v, iter')
    /\ iterator_ok iter'
    /\ trailer_block_addr iter' = trailer_block_addr iter
    /\ (rc = GIT_ITEROVER /\ iter' = iter
        \/ rc = 0 /\ ptr iter < ptr iter')
    /\ touched (ptr iter) (ptr iter') (trailer_block iter)
         (trailer_block iter').
Proof.
  intros Hok.
  destruct (iterator_next_total key_out value_out iter Hok)
    as (rc & k & v & iter' & Hnext & Hok' & Haddr & _ & Hcase).
  exists rc, k, v, iter'. split; [exact Hnext|]. split; [exact Hok'|].
  split; [exact Haddr|]. split; [exact Hcase|].
  destruct (iterator_next_shape _ _ _ _ _ _ _ Hok Hnext)
    as [(_ & -> & _)|(_ & m' & _ & _ & Hb & Hp & _ & _ & Ht)].
  - apply touched_refl.
  - rewrite Hb, Hp. exact Ht.
Qed.

Lemma iterator_next_advances_witness :
  exists rc k v iter',
    git_message_trailer_iterator_next None None
      (Iterator 0 (msg ["Key: val"]%string) 9 0)
    = Some (rc, k, v, iter')
    /\ iterator_ok iter'
    /\ trailer_block_addr iter' = O
    /\ (rc = GIT_ITEROVER
        /\ iter' = Iterator 0 (msg ["Key: val"]%string) 9 0
        \/ rc = 0 /\ 0 < ptr iter')
    /\ touched 0 (ptr iter') (msg ["Key: val"]%string) (trailer_block iter').
Proof.
  apply (iterator_next_advances None None
           (Iterator 0 (msg ["Key: val"]%string) 9 0)).
  unfold iterator_ok. cbn. lia.
Defined.

(** X10.  A call that assigns [*value_out] has assigned [*key_out] too: the
    key is a string of alphanumeric bytes and hyphens, possibly empty, that
    ends before the value starts, and the value is not empty and begins with
    a byte that is neither a space nor a tab. *)
Theorem emitted_pair_shape (key_out : option Z) (iter iter' : trailer_iterator)
    (rc : Z) (k : option Z) (v : Z) :
  iterator_ok iter ->
  git_message_trailer_iterator_next key_out None iter
  = Some (rc, k, Some v, iter') ->
  rc = 0
  /\ exists k0 key c rest,
       k = Some k0
       /\ view iter' k = Some key
       /\ Forall (fun x => token_char x = true) key
       /\ k0 + Z.of_nat (List.length key) < v
       /\ view iter' (Some v) = Some (c :: rest)
       /\ is_sp_tab c = false.
Proof.
  intros Hok Hnext.
  destruct (iterator_next_shape _ _ _ _ _ _ _ Hok Hnext)
    as [(_ & _ & _ & Hv & _)|(-> & m' & -> & Hv & Hb & Hp & Hinv & Hex & _)];
    [discriminate Hv|].
  split; [reflexivity|].
  destruct Hex as [(Hvo & _)|(k0 & e & v0 & Hkv & _)]; [congruence|].
  destruct Hkv as (Hk & Hv0 & Hkr & Hev & Hnul & Htok & Hvn & Hvs).
  assert (v0 = v) by congruence. subst v0.
  unfold iterator_ok in Hok.
  destruct (cstr_tokens (m_block m') (Z.to_nat (e - k0)) k0 e)
    as (Hall & Hlen); try lia; try assumption.
  exists k0, (cstr (suffix (m_block m') k0)), (get (m_block m') v),
    (cstr (suffix (m_block m') (v + 1))).
  split; [exact Hk|]. unfold view. rewrite Hk, Hb. cbn [option_map].
  split; [reflexivity|]. split; [exact Hall|]. split; [lia|].
  split; [|exact Hvs].
  rewrite (cstr_suffix_step (m_block m') v) by lia.
  apply ascii_eqb_false in Hvn. now rewrite Hvn.
Qed.

Lemma emitted_pair_shape_witness :
  0 = 0
  /\ exists k0 key c rest,
       Some 0 = Some k0
       /\ view (Iterator 0 (bytes "Key" ++ NUL :: bytes " val" ++ [NUL]) 9 9)
            (Some 0) = Some key
       /\ Forall (fun x => token_char x = true) key
       /\ k0 + Z.of_nat (List.length key) < 5
       /\ view (Iterator 0 (bytes "Key" ++ NUL :: bytes " val" ++ [NUL]) 9 9)
            (Some 5) = Some (c :: rest)
       /\ is_sp_tab c = false.
Proof.
  apply (emitted_pair_shape None (Iterator 0 (msg ["Key: val"]%string) 9 0)
           (Iterator 0 (bytes "Key" ++ NUL :: bytes " val" ++ [NUL]) 9 9)
           0 (Some 0) 5).
  - unfold iterator_ok. cbn. lia.
  - vm_compute. reflexivity.
Defined.

(** ** Views stay valid *)

Lemma touched_widen (p0 p1 q : Z) (b b' : list ascii) :
  p0 <= p1 -> touched p1 q b b' -> touched p0 q b b'.
Proof.
  intros Hp [Hl H]. split; [exact Hl|].
  intros i. destruct (H i) as [He|[Hr Hn]]; [now left|].
  right. split; [lia|exact Hn].
Qed.

Lemma later_touched (iter iter2 : trailer_iterator) :
  later iter iter2 ->
  iterator_ok iter ->
  iterator_ok iter2
  /\ ptr iter <= ptr iter2
  /\ touched (ptr iter) (ptr iter2) (trailer_block iter)
       (trailer_block iter2).
Proof.
  induction 1 as [iter|iter iter1 iter2 ko vo k v rc Hnext Hlater IH];
    intros Hok.
  - split; [exact Hok|]. split; [lia|apply touched_refl].
  - destruct (iterator_next_total ko vo iter Hok)
      as (rc' & k' & v' & it' & Hnext' & Hok1 & _ & _ & Hcase).
    assert (it' = iter1) by congruence. subst it'.
    assert (Hmono : ptr iter <= ptr iter1).
    { destruct Hcase as [(_ & ->)|(_ & H)]; lia. }
    assert (Ht1 : touched (ptr iter) (ptr iter1) (trailer_block iter)
                    (trailer_block iter1)).
    { destruct (iterator_next_shape _ _ _ _ _ _ _ Hok Hnext)
        as [(_ & -> & _)|(_ & m' & _ & _ & Hb & Hp & _ & _ & Ht)].
      - apply touched_refl.
      - rewrite Hb, Hp. exact Ht. }
    destruct (IH Hok1) as (Hok2 & Hmono2 & Ht2).
    split; [exact Hok2|]. split; [lia|].
    apply touched_trans with (q := ptr iter1) (b1 := trailer_block iter1);
      [lia|exact Ht1|].
    apply touched_widen with (p1 := ptr iter1); [lia|exact Ht2].
Qed.

Lemma later_at_end (iter iter2 : trailer_iterator) :
  later iter iter2 ->
  get (trailer_block iter) (ptr iter) = NUL ->
  iter2 = iter.
Proof.
  induction 1 as [iter|iter iter1 iter2 ko vo k v rc Hnext Hlater IH];
    intros Hend; [reflexivity|].
  unfold git_message_trailer_iterator_next in Hnext.
  apply ascii_eqb_true in Hend. rewrite Hend in Hnext.
  injection Hnext as _ _ _ <-. apply IH. now apply ascii_eqb_true.
Qed.

Lemma view_agree (iter iter2 : trailer_iterator) (q e : Z) :
  0 <= q <= e -> e < ptr iter ->
  get (trailer_block iter) e = NUL ->
  touched (ptr iter) (ptr iter2) (trailer_block iter) (trailer_block iter2) ->
  view iter2 (Some q) = view iter (Some q).
Proof.
  intros Hq He Hnul [_ Ht]. unfold view. cbn [option_map]. f_equal.
  apply (cstr_agree _ _ (Z.to_nat (e - q)) q e); try lia; [exact Hnul|].
  intros i Hi. destruct (Ht i) as [H|[Hr _]]; [exact H|lia].
Qed.

(** X11.  The strings handed out by one call are not changed by any later
    call on the iterator: what [*key_out] and [*value_out] point to reads the
    same after any number of further calls. *)
Theorem views_survive_later_calls (key_out value_out : option Z)
    (iter iter' iter'' : trailer_iterator) (rc : Z) (k v : option Z) :
  iterator_ok iter ->
  git_message_trailer_iterator_next key_out value_out iter
  = Some (rc, k, v, iter') ->
  later iter' iter'' ->
  view iter'' k = view iter' k /\ view iter'' v = view iter' v.
Proof.
  intros Hok Hnext Hlater.
  assert (Hend : get (trailer_block iter') (ptr iter') = NUL ->
    view iter'' k = view iter' k /\ view iter'' v = view iter' v).
  { intros H. rewrite (later_at_end iter' iter'' Hlater H). now split. }
  destruct (iterator_next_shape _ _ _ _ _ _ _ Hok Hnext)
    as [(_ & -> & _ & _ & H)|(_ & m' & -> & -> & Hb & Hp & Hinv & Hex & _)];
    [now apply Hend|].
  destruct Hex as [(_ & H)|(k0 & e & v0 & Hkv & Hvp & [H|(Hnul & Hv1)])];
    try (apply Hend; rewrite Hb, Hp; exact H).
  destruct Hkv as (Hk & Hv & Hkr & Hev & Hknul & _).
  destruct Hinv as (Hp0 & Hlen & _).
  assert (Hok' : iterator_ok iter').
  { unfold iterator_ok. rewrite Hb, Hp. lia. }
  destruct (later_touched iter' iter'' Hlater Hok') as (_ & _ & Ht).
  rewrite Hk, Hv. split.
  - apply (view_agree iter' iter'' k0 e); try lia; [|exact Ht].
    rewrite Hb. exact Hknul.
  - apply (view_agree iter' iter'' v0 (ptr iter' - 1)); try lia; [|exact Ht].
    rewrite Hb, Hp. exact Hnul.
Qed.

Lemma views_survive_later_calls_witness :
  let it0 := Iterator 0 (msg ["Key: val"; "Other: v2"]%string) 19 0 in
  let it1 :=
    Iterator 0 (bytes "Key" ++ NUL :: bytes " val" ++ NUL
                :: msg ["Other: v2"]%string) 19 9 in
  let it2 :=
    Iterator 0 (bytes "Key" ++ NUL :: bytes " val" ++ NUL
                :: bytes "Other" ++ NUL :: bytes " v2" ++ [NUL]) 19 19 in
  view it2 (Some 0) = view it1 (Some 0)
  /\ view it2 (Some 5) = view it1 (Some 5).
Proof.
  cbn zeta.
  apply (views_survive_later_calls None None
           (Iterator 0 (msg ["Key: val"; "Other: v2"]%string) 19 0)
           _ _ 0 (Some 0) (Some 5)).
  - unfold iterator_ok. cbn. lia.
  - vm_compute. reflexivity.
  - eapply (later_next _ _ _ None None); [|apply later_now].
    vm_compute. reflexivity.
Defined.

(** ** [git_message_trailers] and the sequence of pairs *)

Lemma iterator_next_same_data (ko vo : option Z) (a b : trailer_iterator) :
  trailer_block a = trailer_block b -> ptr a = ptr b ->
  match git_message_trailer_iterator_next ko vo a,
        git_message_trailer_iterator_next ko vo b with
  | Some (rc, k, v, a'), Some (rc', k', v', b') =>
      rc = rc' /\ k = k' /\ v = v'
      /\ trailer_block a' = trailer_block b' /\ ptr a' = ptr b'
  | None, None => True
  | _, _ => False
  end.
Proof.
  intros Hb Hp. unfold git_message_trailer_iterator_next.
  rewrite Hb, Hp.
  destruct (Ascii.eqb _ _); [repeat split; assumption|].
  destruct (run _ _); [repeat split|exact I].
Qed.

Lemma view_same_data (a b : trailer_iterator) (q : option Z) :
  trailer_block a = trailer_block b -> view a q = view b q.
Proof. unfold view. now intros ->. Qed.

Lemma trailers_loop_feeds {P : Type} (cb : git_message_trailer_cb P)
    (fuel : nat) :
  forall rc a b acc rc1 a1 seen,
    trailer_block a = trailer_block b -> ptr a = ptr b ->
    trailers_loop fuel record_pair rc a acc = Some (rc1, a1, seen) ->
    exists pairs,
      seen = acc ++ pairs
      /\ forall payload, exists rc2 b2,
           trailers_loop fuel cb rc b payload
           = Some (rc2, b2, feed cb pairs payload).
Proof.
  induction fuel as [|fuel IH]; intros rc a b acc rc1 a1 seen Hb Hp;
    cbn [trailers_loop]; destruct (rc =? GIT_ITEROVER).
  1,3: intros [= _ _ <-]; exists []; split; [now rewrite app_nil_r|];
    intros payload; now eexists _, _.
  - discriminate.
  - pose proof (iterator_next_same_data None None a b Hb Hp) as Hsame.
    destruct (git_message_trailer_iterator_next None None a)
      as [[[[rca ka] va] a']|]; [|discriminate].
    destruct (git_message_trailer_iterator_next None None b)
      as [[[[rcb kb] vb] b']|]; [|contradiction].
    destruct Hsame as (<- & <- & <- & Hb' & Hp').
    destruct (negb (rca =? 0)).
    { intros [= _ _ <-]. exists []. split; [now rewrite app_nil_r|].
      intros payload. now eexists _, _. }
    unfold record_pair at 1. cbn [Z.eqb negb].
    intros Hloop.
    destruct (IH 0 a' b' _ _ _ _ Hb' Hp' Hloop) as (pairs & Hseen & Hfeed).
    exists ((view a' ka, view a' va) :: pairs). split.
    { rewrite Hseen, <- app_assoc. reflexivity. }
    intros payload. cbn [feed].
    rewrite (view_same_data a' b' ka Hb'), (view_same_data a' b' va Hb').
    destruct (cb (view b' ka) (view b' va) payload) as [rc2 payload2] eqn:Ecb.
    destruct (negb (rc2 =? 0)) eqn:E2; [now eexists _, _|].
    apply negb_false_iff, Z.eqb_eq in E2. subst rc2. apply Hfeed.
Qed.

(** X12.  With room for its two allocations, on a message of at most
    [INT_MAX] bytes [git_message_trailers] gives the callback the pairs of
    the message in order, up to the first one the callback answers with a
    code other than 0; it then returns 0, and the iterator and its block
    are freed: the heap has the live allocations it had before. *)
Theorem git_message_trailers_feeds_callback {P : Type} (h : heap)
    (message : list ascii) (cb : git_message_trailer_cb P) (payload : P) :
  strlen message <= INT_MAX ->
  heap_ok h -> (2 <= room h)%nat ->
  exists pairs h',
    trailers message = Some pairs
    /\ git_message_trailers h message cb payload
       = Some (0, feed cb pairs payload, h')
    /\ live h' = live h.
Proof.
  intros Hfit Hok Hroom.
  destruct (git_message_trailers_total h message cb payload Hfit Hok Hroom)
    as (payload' & h' & Hrun & Hlive).
  destruct (trailers_total message Hfit) as (pairs & Hpairs).
  exists pairs, h'. split; [exact Hpairs|]. split; [|exact Hlive].
  rewrite Hrun. do 3 f_equal.
  revert Hrun Hpairs.
  unfold trailers, git_message_trailers, git_message_trailer_iterator_new,
    extract_trailer_block, git__calloc, git__malloc.
  destruct (room h) as [|[|r]]; try lia.
  destruct (trailer_block_of message) as [[B n]|]; [|discriminate].
  cbn [room brk live heap0 Z.eqb negb trailer_block].
  destruct (trailers_loop (S (List.length B)) record_pair 0
              (Iterator 2 B n 0) [])
    as [[[rc1 a1] seen]|] eqn:Hrec; [|discriminate].
  intros Hrun [= <-].
  destruct (trailers_loop_feeds cb _ _ (Iterator 2 B n 0)
              (Iterator (S (brk h)) B n 0) _ _ _ _ eq_refl eq_refl Hrec)
    as (pairs' & Hseen & Hfeed).
  cbn [app] in Hseen. subst pairs'.
  destruct (Hfeed payload) as (rc2 & b2 & Hloop).
  rewrite Hloop in Hrun. now injection Hrun as <- _.
Qed.

Lemma git_message_trailers_feeds_callback_witness :
  exists pairs h',
    trailers (msg ["Subject"; ""; "Key: val"]%string) = Some pairs
    /\ git_message_trailers heap0 (msg ["Subject"; ""; "Key: val"]%string)
         (fun _ _ (calls : nat) => (1, S calls)) O
       = Some (0, feed (fun _ _ (calls : nat) => (1, S calls)) pairs O, h')
    /\ live h' = live heap0.
Proof.
  apply (git_message_trailers_feeds_callback heap0
           (msg ["Subject"; ""; "Key: val"]%string)
           (fun _ _ (calls : nat) => (1, S calls)) O).
  - apply Z.leb_le. reflexivity.
  - intros a [].
  - cbn. lia.
Defined.

(** ** Bytes after the patch boundary are not read *)

Lemma line_span_nonneg (s : list ascii) : 0 <= line_span s.
Proof. now destruct (line_span_spec s) as ((H & _) & _). Qed.

Lemma is_blank_line_cut (s : list ascii) :
  forall n, line_span s <= Z.of_nat n ->
    is_blank_line (firstn n s) = is_blank_line s.
Proof.
  induction s as [|c r IH]; intros n Hn; [now rewrite firstn_nil|].
  cbn [line_span is_blank_line] in *.
  destruct n as [|n].
  - cbn [firstn is_blank_line]. pose proof (line_span_nonneg r).
    destruct (Ascii.eqb c NUL); [reflexivity|].
    destruct (Ascii.eqb c LF); lia.
  - cbn [firstn is_blank_line]. rewrite Nat2Z.inj_succ in Hn.
    destruct (Ascii.eqb c NUL); [reflexivity|].
    destruct (Ascii.eqb c LF); [reflexivity|].
    destruct (isspace c); [apply IH; lia|reflexivity].
Qed.

Lemma line_span_cut (s : list ascii) :
  forall n, line_span s <= Z.of_nat n ->
    line_span (firstn n s) = line_span s.
Proof.
  induction s as [|c r IH]; intros n Hn; [now rewrite firstn_nil|].
  cbn [line_span] in *. destruct n as [|n].
  - cbn [firstn line_span]. pose proof (line_span_nonneg r).
    destruct (Ascii.eqb c NUL); [reflexivity|].
    destruct (Ascii.eqb c LF); lia.
  - cbn [firstn line_span]. rewrite Nat2Z.inj_succ in Hn.
    destruct (Ascii.eqb c NUL); [reflexivity|].
    destruct (Ascii.eqb c LF); [reflexivity|].
    rewrite IH by lia. reflexivity.
Qed.

Lemma find_separator_loop_cut (separators s : list ascii) :
  forall n pos ws, line_span s <= Z.of_nat n ->
    find_separator_loop (firstn n s) separators pos ws
    = find_separator_loop s separators pos ws.
Proof.
  induction s as [|c r IH]; intros n pos ws Hn; [now rewrite firstn_nil|].
  cbn [line_span find_separator_loop] in *. destruct n as [|n].
  - cbn [firstn find_separator_loop]. pose proof (line_span_nonneg r).
    destruct (Ascii.eqb c NUL); [reflexivity|].
    destruct (Ascii.eqb c LF); lia.
  - cbn [firstn find_separator_loop]. rewrite Nat2Z.inj_succ in Hn.
    destruct (Ascii.eqb c NUL); [reflexivity|].
    destruct (strchr_in separators c); [reflexivity|].
    destruct (Ascii.eqb c LF) eqn:E.
    + ascii_cases. subst c.
      change (isalnum LF || Ascii.eqb LF "-"%char) with false.
      change (Ascii.eqb LF SP || Ascii.eqb LF TAB) with false.
      rewrite !andb_false_r. reflexivity.
    + destruct (_ && _); [apply IH; lia|].
      destruct (_ && _); [apply IH; lia|reflexivity].
Qed.

Lemma git__prefixcmp_cut (prefix : list ascii) :
  lf_last prefix ->
  forall s n, line_span s <= Z.of_nat n ->
    git__prefixcmp (firstn n s) prefix = git__prefixcmp s prefix.
Proof.
  induction prefix as [|p prefix IH]; intros Hlf s n Hn; [reflexivity|].
  cbn [git__prefixcmp]. destruct (Ascii.eqb p NUL) eqn:Ep; [reflexivity|].
  destruct Hlf as (Hp & Hlf).
  destruct s as [|c r]; [now rewrite firstn_nil|].
  cbn [line_span] in Hn. destruct n as [|n].
  - cbn [firstn]. pose proof (line_span_nonneg r).
    destruct (Ascii.eqb c NUL) eqn:Ec;
      [|destruct (Ascii.eqb c LF); lia].
    ascii_cases. subst c.
    rewrite Ascii.eqb_sym. apply ascii_eqb_false in Ep. rewrite Ep.
    reflexivity.
  - cbn [firstn]. rewrite Nat2Z.inj_succ in Hn.
    destruct (Ascii.eqb c p) eqn:Ecp; [|reflexivity]. ascii_cases. subst c.
    apply ascii_eqb_false in Ep. rewrite Ep in Hn.
    destruct (Ascii.eqb p LF) eqn:El.
    + ascii_cases. rewrite (Hp El). reflexivity.
    + apply IH; [exact Hlf|lia].
Qed.

Lemma memchr_cut (s : list ascii) (c : ascii) :
  forall n k, (k <= n)%nat -> memchr (firstn n s) c k = memchr s c k.
Proof.
  induction s as [|x r IH]; intros n k Hk; [now rewrite firstn_nil|].
  destruct k as [|k]; [reflexivity|].
  destruct n as [|n]; [lia|].
  cbn [firstn memchr]. destruct (Ascii.eqb x c); [reflexivity|].
  rewrite IH by lia. reflexivity.
Qed.

Lemma begins_with_cut (prefix s : list ascii) (n : nat) :
  begins_with prefix (firstn n s) -> begins_with prefix s.
Proof.
  unfold begins_with. intros H.
  assert (Hlen : (List.length prefix <= n)%nat).
  { apply (f_equal (@List.length ascii)) in H.
    rewrite !length_firstn in H. lia. }
  rewrite firstn_firstn in H.
  now replace (Nat.min (List.length prefix) n) with (List.length prefix)
    in H by lia.
Qed.

Section Cut.

(** [M] cut at an offset [P] that ends a line. *)
Variables (M : list ascii) (P : Z).
Hypothesis HP : 0 <= P <= strlen M.
Hypothesis Hal : line_aligned M P.
Hypothesis Hfit : strlen M <= INT_MAX.

Let M' : list ascii := firstn (Z.to_nat P) M.

Lemma cut_get (i : Z) : 0 <= i < P -> get M' i = get M i.
Proof. intros Hi. subst M'. apply get_firstn. lia. Qed.

Lemma cut_get_all (i : Z) : i < P -> get M' i = get M i.
Proof.
  intros Hi. destruct (Z_lt_ge_dec i 0) as [Hn|Hn].
  - now rewrite !get_neg.
  - apply cut_get. lia.
Qed.

Lemma cut_suffix (l : Z) :
  0 <= l ->
  suffix M' l = firstn (Z.to_nat P - Z.to_nat l) (suffix M l).
Proof. intros Hl. subst M'. apply suffix_firstn. Qed.

Lemma cut_line (l : Z) :
  0 <= l < P ->
  line_span (suffix M l) <= Z.of_nat (Z.to_nat P - Z.to_nat l).
Proof.
  intros Hl. pose proof (next_line_within M l P Hl (proj2 HP) Hal) as H.
  unfold next_line in H. lia.
Qed.

Lemma cut_strlen : strlen M' = P.
Proof.
  pose proof (strlen_bounds M) as Hb.
  assert (Hlen : Z.of_nat (List.length M') = P).
  { subst M'. rewrite length_firstn. lia. }
  pose proof (strlen_bounds M') as Hb'.
  destruct (Z_lt_ge_dec (strlen M') P) as [Hlt|Hge]; [|lia].
  exfalso. pose proof (strlen_get_end M') as Hend.
  rewrite cut_get in Hend by lia.
  revert Hend. apply strlen_get_before. lia.
Qed.

Lemma cut_is_blank_line (l : Z) :
  0 <= l < P -> is_blank_line (suffix M' l) = is_blank_line (suffix M l).
Proof.
  intros Hl. rewrite cut_suffix by lia.
  apply is_blank_line_cut. now apply cut_line.
Qed.

Lemma cut_next_line (l : Z) :
  0 <= l < P -> next_line M' l = next_line M l.
Proof.
  intros Hl. unfold next_line. rewrite cut_suffix by lia.
  rewrite line_span_cut by now apply cut_line. reflexivity.
Qed.

Lemma cut_prefixcmp (prefix : list ascii) (l : Z) :
  lf_last prefix -> 0 <= l < P ->
  git__prefixcmp (suffix M' l) prefix = git__prefixcmp (suffix M l) prefix.
Proof.
  intros Hlf Hl. rewrite cut_suffix by lia.
  apply git__prefixcmp_cut; [exact Hlf|now apply cut_line].
Qed.

Lemma cut_find_separator (l : Z) :
  0 <= l < P ->
  find_separator (suffix M' l) TRAILER_SEPARATORS
  = find_separator (suffix M l) TRAILER_SEPARATORS.
Proof.
  intros Hl. unfold find_separator. rewrite cut_suffix by lia.
  apply find_separator_loop_cut. now apply cut_line.
Qed.

Lemma cut_last_line_loop (n : nat) :
  Z.of_nat n <= P -> last_line_loop M' n = last_line_loop M n.
Proof.
  induction n as [|i IH]; intros Hn; [reflexivity|].
  cbn [last_line_loop]. rewrite cut_get by lia.
  destruct (Ascii.eqb _ _); [reflexivity|]. apply IH. lia.
Qed.

Lemma cut_last_line (l : Z) : l <= P -> last_line M' l = last_line M l.
Proof.
  intros Hl. unfold last_line.
  destruct (l =? 0); [reflexivity|]. destruct (l =? 1); [reflexivity|].
  apply cut_last_line_loop. lia.
Qed.

Lemma cut_classify_line (l : Z) (c : counters) :
  0 <= l < P ->
  classify_line (suffix M' l) c = classify_line (suffix M l) c.
Proof.
  intros Hl. unfold classify_line.
  rewrite cut_find_separator by lia.
  rewrite !hd_suffix by lia. rewrite cut_get by lia.
  replace (existsb (fun p => git__prefixcmp (suffix M' l) p =? 0)
             git_generated_prefixes)
    with (existsb (fun p => git__prefixcmp (suffix M l) p =? 0)
            git_generated_prefixes); [reflexivity|].
  unfold git_generated_prefixes. cbn [existsb].
  rewrite !cut_prefixcmp; try lia; try reflexivity;
    cbn; repeat split; discriminate.
Qed.

Lemma cut_backward_scan (e : Z) (fuel : nat) :
  0 <= e ->
  forall l c, l < P ->
    backward_scan fuel M' e l c = backward_scan fuel M e l c.
Proof.
  intros He. induction fuel as [|fuel IH]; intros l c Hl;
    cbn [backward_scan]; destruct (l >=? e) eqn:Ege; try reflexivity.
  apply geb_true_inv in Ege.
  pose proof (last_line_below M l ltac:(lia)) as Hbelow.
  rewrite !hd_suffix by lia. rewrite cut_get by lia.
  rewrite cut_is_blank_line, cut_classify_line, cut_last_line by lia.
  destruct (Ascii.eqb _ _); [apply IH; lia|].
  destruct (is_blank_line _).
  - destruct (only_spaces c); [apply IH; lia|reflexivity].
  - apply IH. lia.
Qed.

Lemma cut_end_of_title_loop (len : Z) (fuel : nat) :
  len <= P ->
  forall s, 0 <= s ->
    end_of_title_loop fuel M' len s = end_of_title_loop fuel M len s.
Proof.
  intros Hlen. induction fuel as [|fuel IH]; intros s Hs;
    cbn [end_of_title_loop]; destruct (s <? len) eqn:Elt; try reflexivity.
  apply Z.ltb_lt in Elt.
  rewrite cut_get, cut_is_blank_line, cut_next_line by lia.
  pose proof (next_line_spec M s Hs) as (Hb & _).
  destruct (Ascii.eqb _ _); [apply IH; lia|].
  destruct (is_blank_line _); [reflexivity|apply IH; lia].
Qed.

Lemma cut_find_trailer_start (len : Z) :
  0 <= len <= P ->
  find_trailer_start M' len = find_trailer_start M len.
Proof.
  intros Hlen. unfold find_trailer_start, trailer_scan, end_of_title.
  rewrite cut_end_of_title_loop by lia.
  destruct (end_of_title_spec M len ltac:(lia)) as (e & He & He0 & _).
  unfold end_of_title in He. rewrite He.
  assert (Hl : last_line M len < P).
  { pose proof (last_line_below M len ltac:(lia)). lia. }
  rewrite cut_last_line by lia. rewrite cut_backward_scan by lia.
  destruct (backward_scan _ _ _ _ _) as [x|] eqn:Hx; [|reflexivity].
  cbn [option_map]. f_equal.
  destruct x as [l c|c]; [|reflexivity]. cbn [trailer_start_of].
  destruct (trailer_scan_spec M len ltac:(lia))
    as (e' & x' & He' & Hx' & _ & Hok).
  unfold trailer_scan, end_of_title in Hx'. rewrite He in Hx'.
  rewrite Hx in Hx'. injection Hx' as <-.
  destruct Hok as (Hlr & _).
  assert (e' = e) by (unfold end_of_title in He'; congruence). subst e'.
  rewrite cut_next_line by lia. reflexivity.
Qed.

Lemma cut_ignore_non_trailer_loop (fuel : nat) :
  forall boc bol in_old,
    0 <= bol ->
    ignore_non_trailer_loop fuel M' P boc bol in_old
    = ignore_non_trailer_loop fuel M P boc bol in_old.
Proof.
  induction fuel as [|fuel IH]; intros boc bol in_old Hbol;
    cbn [ignore_non_trailer_loop]; destruct (bol <? P) eqn:Elt;
    try reflexivity.
  apply Z.ltb_lt in Elt.
  rewrite cut_get by lia.
  rewrite (cut_prefixcmp (bytes "Conflicts:" ++ [LF])) by
    (try lia; cbn; repeat split; try discriminate; reflexivity).
  rewrite cut_suffix by lia. rewrite memchr_cut by lia.
  destruct (memchr_next_line M P bol ltac:(lia)) as (Hnl & _).
  cbn zeta in Hnl.
  set (nl := match memchr (suffix M bol) LF (Z.to_nat (P - bol)) with
             | Some k => bol + k + 1
             | None => P
             end) in *.
  clearbody nl.
  destruct (_ || _); [apply IH; lia|].
  destruct (_ =? 0); [apply IH; lia|].
  destruct (_ && _); [apply IH; lia|].
  destruct (negb _); apply IH; lia.
Qed.

Lemma cut_find_patch_start :
  find_patch_start M = Some P -> find_patch_start M' = Some P.
Proof.
  intros HPs.
  destruct (find_patch_start_spec M Hfit) as (P0 & HP0 & Hb).
  assert (P0 = P) by congruence. subst P0.
  assert (Hfit' : strlen M' <= INT_MAX) by (rewrite cut_strlen; lia).
  destruct (find_patch_start_spec M' Hfit') as (r & Hr & Hb').
  rewrite Hr. f_equal. unfold patch_boundary in Hb'.
  rewrite cut_strlen in Hb'.
  destruct Hb' as [(Hrr & Hls & Hbeg & _)|(-> & _)]; [exfalso|reflexivity].
  rewrite cut_suffix in Hbeg by lia. apply begins_with_cut in Hbeg.
  assert (Hls' : line_start M r).
  { destruct Hls as [->|[H0 Hlf]]; [now left|].
    right. split; [lia|]. now rewrite <- cut_get by lia. }
  destruct Hb as [(_ & _ & _ & Hmin)|(_ & Hnone)].
  - apply (Hmin r); [lia|exact Hls'|exact Hbeg].
  - apply (Hnone r); [lia|exact Hls'|exact Hbeg].
Qed.

Lemma cut_trailer_block_of :
  find_patch_start M = Some P ->
  trailer_block_of M' = trailer_block_of M.
Proof.
  intros HPs. unfold trailer_block_of.
  rewrite (cut_find_patch_start HPs), HPs.
  unfold find_trailer_end, ignore_non_trailer.
  rewrite cut_ignore_non_trailer_loop by lia.
  destruct (ignore_non_trailer_total M P ltac:(lia)) as (n & Hn & Hnb).
  unfold ignore_non_trailer in Hn. rewrite Hn. cbn [option_map].
  rewrite cut_find_trailer_start by lia.
  destruct (find_trailer_start M (P - n)) as [t|] eqn:Ht; [|reflexivity].
  f_equal. f_equal.
  assert (Ht0 : 0 <= t).
  { unfold find_trailer_start in Ht.
    destruct (trailer_scan_spec M (P - n) ltac:(lia))
      as (e & x & _ & Hx & He0 & Hok).
    rewrite Hx in Ht. injection Ht as <-.
    destruct x as [l c|c]; cbn [trailer_start_of]; [|lia].
    destruct Hok as (Hl & _).
    destruct (next_line_spec M l ltac:(lia)) as (Hb & _).
    destruct (_ && _); [lia|]. destruct (_ && _); lia. }
  rewrite cut_suffix by lia. rewrite firstn_firstn. f_equal. lia.
Qed.

End Cut.

Lemma trailers_of_block (M M' : list ascii) :
  trailer_block_of M' = trailer_block_of M -> trailers M' = trailers M.
Proof.
  intros H. unfold trailers, git_message_trailers,
    git_message_trailer_iterator_new, extract_trailer_block.
  now rewrite H.
Qed.

(** X13.  What follows the patch boundary is not read: cutting a message
    of at most [INT_MAX] bytes at the offset that [find_patch_start] returns
    changes neither the trailer block nor the pairs handed out. *)
Theorem patch_is_not_scanned (message : list ascii) :
  strlen message <= INT_MAX ->
  exists patch_start,
    find_patch_start message = Some patch_start
    /\ trailer_block_of (firstn (Z.to_nat patch_start) message)
       = trailer_block_of message
    /\ trailers (firstn (Z.to_nat patch_start) message) = trailers message.
Proof.
  intros Hfit.
  destruct (find_patch_start_spec message Hfit) as (P & HP & Hb).
  assert (HPr : 0 <= P <= strlen message /\ line_aligned message P).
  { pose proof (strlen_bounds message).
    destruct Hb as [(Hr & Hl & _)|(Hr & _)];
      [split; [lia|now right]|split; [lia|now left]]. }
  destruct HPr as (HPr & Hal).
  exists P. split; [exact HP|].
  pose proof (cut_trailer_block_of message P HPr Hal Hfit HP) as Hcut.
  split; [exact Hcut|]. now apply trailers_of_block.
Qed.

Lemma patch_is_not_scanned_witness :
  exists patch_start,
    find_patch_start (msg ["T"; ""; "K: v"; "---"; "a: b"]%string)
    = Some patch_start
    /\ trailer_block_of
         (firstn (Z.to_nat patch_start)
            (msg ["T"; ""; "K: v"; "---"; "a: b"]%string))
       = trailer_block_of (msg ["T"; ""; "K: v"; "---"; "a: b"]%string)
    /\ trailers
         (firstn (Z.to_nat patch_start)
            (msg ["T"; ""; "K: v"; "---"; "a: b"]%string))
       = trailers (msg ["T"; ""; "K: v"; "---"; "a: b"]%string).
Proof.
  apply (patch_is_not_scanned (msg ["T"; ""; "K: v"; "---"; "a: b"]%string)).
  apply Z.leb_le. reflexivity.
Defined.

(** ** A well-formed line is tokenized into its key and its value *)

Lemma cstr_region (b bf : list ascii) (n : nat) :
  forall a z,
    0 <= a <= z -> z - a = Z.of_nat n ->
    (forall i, a <= i < z -> get bf i = get b i /\ get b i <> NUL) ->
    get bf z = NUL ->
    cstr (suffix bf a) = region b a z.
Proof.
  unfold region.
  induction n as [|n IH]; intros a z Ha Hn Hsame Hnul;
    rewrite (cstr_suffix_step bf a) by lia.
  - assert (a = z) by lia. subst a. rewrite Hnul.
    replace (z - z) with 0 by lia. reflexivity.
  - destruct (Hsame a ltac:(lia)) as (Hg & Hnz).
    rewrite Hg. apply ascii_eqb_false in Hnz. rewrite Hnz.
    apply ascii_eqb_false in Hnz.
    rewrite (suffix_cons b a) by (apply get_in_range in Hnz; lia).
    replace (Z.to_nat (z - a)) with (S (Z.to_nat (z - (a + 1)))) by lia.
    cbn [firstn]. f_equal.
    apply (IH (a + 1) z); try lia; [|exact Hnul].
    intros i Hi. apply Hsame. lia.
Qed.

Lemma run_S (fuel : nat) (m m1 : machine) :
  step m = inl m1 -> run (S fuel) m = run fuel m1.
Proof. intros H. cbn [run]. now rewrite H. Qed.

Lemma run_ret (fuel : nat) (m : machine) :
  step m = inr m -> run (S fuel) m = Some m.
Proof. intros H. cbn [run]. now rewrite H. Qed.

Lemma run_agree (f1 : nat) :
  forall f2 m r1 r2,
    run f1 m = Some r1 -> run f2 m = Some r2 -> r1 = r2.
Proof.
  induction f1 as [|f1 IH]; intros f2 m r1 r2 H1 H2; [discriminate|].
  destruct f2 as [|f2]; [discriminate|].
  cbn [run] in H1, H2. destruct (step m) as [m1|m1].
  - exact (IH f2 m1 r1 r2 H1 H2).
  - congruence.
Qed.

(** A state that stays where it is while it reads bytes of one class. *)
Lemma run_loop (st : trailer_state) (cls : ascii -> Prop)
    (b : list ascii) (k v : option Z) (fuel : nat) :
  (forall p, cls (get b p) ->
     step (Machine b p st k v) = inl (Machine b (p + 1) st k v)) ->
  forall (n : nat) (p : Z),
    (forall i, p <= i < p + Z.of_nat n -> cls (get b i)) ->
    run (n + fuel) (Machine b p st k v)
    = run fuel (Machine b (p + Z.of_nat n) st k v).
Proof.
  intros Hstep. induction n as [|n IH]; intros p Hcls.
  - cbn [Nat.add]. now replace (p + Z.of_nat 0) with p by lia.
  - cbn [Nat.add]. rewrite (run_S _ _ _ (Hstep p (Hcls p ltac:(lia)))).
    rewrite IH by (intros i Hi; apply Hcls; lia).
    f_equal. f_equal. lia.
Qed.

Lemma token_char_not_NUL (c : ascii) : token_char c = true -> c <> NUL.
Proof. intros H ->. discriminate H. Qed.

Lemma sp_tab_not_NUL (c : ascii) : is_sp_tab c = true -> c <> NUL.
Proof. intros H ->. discriminate H. Qed.

Lemma run_key_loop (b : list ascii) (k v : option Z) (fuel n : nat) (p : Z) :
  (forall i, p <= i < p + Z.of_nat n -> token_char (get b i) = true) ->
  run (n + fuel) (Machine b p S_KEY k v)
  = run fuel (Machine b (p + Z.of_nat n) S_KEY k v).
Proof.
  apply (run_loop S_KEY (fun c => token_char c = true)).
  intros q Hq. unfold step. cbn [m_state m_block m_ptr].
  pose proof (token_char_not_NUL _ Hq) as Hnz.
  apply ascii_eqb_false in Hnz. rewrite Hnz.
  unfold token_char in Hq. rewrite Hq. reflexivity.
Qed.

Lemma run_key_ws_loop (b : list ascii) (k v : option Z) (fuel n : nat)
    (p : Z) :
  (forall i, p <= i < p + Z.of_nat n -> is_sp_tab (get b i) = true) ->
  run (n + fuel) (Machine b p S_KEY_WS k v)
  = run fuel (Machine b (p + Z.of_nat n) S_KEY_WS k v).
Proof.
  apply (run_loop S_KEY_WS (fun c => is_sp_tab c = true)).
  intros q Hq. unfold step. cbn [m_state m_block m_ptr].
  pose proof (sp_tab_not_NUL _ Hq) as Hnz.
  apply ascii_eqb_false in Hnz. rewrite Hnz, Hq. reflexivity.
Qed.

Lemma run_sep_ws_loop (b : list ascii) (k v : option Z) (fuel n : nat)
    (p : Z) :
  (forall i, p <= i < p + Z.of_nat n -> is_sp_tab (get b i) = true) ->
  run (n + fuel) (Machine b p S_SEP_WS k v)
  = run fuel (Machine b (p + Z.of_nat n) S_SEP_WS k v).
Proof.
  apply (run_loop S_SEP_WS (fun c => is_sp_tab c = true)).
  intros q Hq. unfold step. cbn [m_state m_block m_ptr].
  pose proof (sp_tab_not_NUL _ Hq) as Hnz.
  apply ascii_eqb_false in Hnz. rewrite Hnz, Hq. reflexivity.
Qed.

Lemma run_value_folded (b : list ascii) (k v : option Z) (e : Z) (n : nat) :
  forall p,
    e - p = Z.of_nat n ->
    (forall i, p <= i < e ->
       get b i <> NUL /\ (get b i = LF -> i + 1 < e /\ get b (i + 1) = SP)) ->
    exists m, forall fuel,
      run (m + fuel) (Machine b p S_VALUE k v)
      = run fuel (Machine b e S_VALUE k v).
Proof.
  induction n as [n IH] using lt_wf_ind. intros p Hn Hval.
  destruct n as [|n].
  { exists O. intros fuel. now replace e with p by lia. }
  destruct (Hval p ltac:(lia)) as (Hnz & Hlf).
  apply ascii_eqb_false in Hnz.
  destruct (Ascii.eqb (get b p) LF) eqn:El; ascii_cases.
  - destruct (Hlf El) as (Hp1 & Hsp).
    destruct (IH (n - 1)%nat ltac:(lia) (p + 2)) as (m & Hm); [lia| |].
    { intros i Hi. apply Hval. lia. }
    exists (S (S m)). intros fuel. cbn [Nat.add].
    rewrite (run_S _ _ (Machine b (p + 1) S_VALUE_NL k v)).
    2:{ unfold step. cbn [m_state m_block m_ptr]. rewrite El.
        reflexivity. }
    rewrite (run_S _ _ (Machine b (p + 2) S_VALUE k v)).
    2:{ unfold step. cbn [m_state m_block m_ptr]. rewrite Hsp.
        unfold NEXT. cbn [m_state m_block m_ptr m_key m_value Ascii.eqb].
        replace (p + 1 + 1) with (p + 2) by lia. reflexivity. }
    apply Hm.
  - destruct (IH n ltac:(lia) (p + 1)) as (m & Hm); [lia| |].
    { intros i Hi. apply Hval. lia. }
    exists (S m). intros fuel. cbn [Nat.add].
    rewrite (run_S _ _ (Machine b (p + 1) S_VALUE k v)); [apply Hm|].
    unfold step. cbn [m_state m_block m_ptr].
    apply ascii_eqb_false in El, Hnz. rewrite Hnz, El. reflexivity.
Qed.

Lemma separator_is_colon (c : ascii) :
  strchr_in TRAILER_SEPARATORS c = true -> c = ":"%char.
Proof.
  unfold strchr_in, TRAILER_SEPARATORS. cbn. rewrite orb_false_r.
  intros H. now ascii_cases.
Qed.

Section WellFormedLine.

Variables (b : list ascii) (p0 t s v e : Z) (vo : option Z).
Hypothesis Hwf : well_formed_line b p0 t s v e.

Let b1 : list ascii := put b t NUL.

Lemma wf_t_in_range : 0 <= t < Z.of_nat (List.length b).
Proof.
  pose proof Hwf as Hw.
  destruct Hw as (Hp & Hts & Hsv & Hve & _ & Hws & Hsep & _).
  assert (Hnz : get b t <> NUL).
  { destruct (Z.eq_dec t s) as [Heq|Hne].
    - apply separator_is_colon in Hsep. rewrite Heq, Hsep. discriminate.
    - apply sp_tab_not_NUL. apply Hws. lia. }
  apply get_in_range in Hnz. lia.
Qed.

Lemma wf_b1_other (i : Z) : i <> t -> get b1 i = get b i.
Proof. intros H. subst b1. now apply get_put_other. Qed.

Lemma wf_b1_t : get b1 t = NUL.
Proof. subst b1. apply get_put_same. apply wf_t_in_range. Qed.

Lemma wf_b1_length : List.length b1 = List.length b.
Proof. subst b1. apply put_length. Qed.

Lemma wf_key (ko : option Z) :
  exists n, forall fuel,
    run (n + fuel) (Machine b p0 S_START ko vo)
    = run fuel (Machine b1 (s + 1) S_SEP_WS (Some p0) vo).
Proof.
  pose proof Hwf as Hw.
  destruct Hw as (Hp & Hts & Hsv & Hve & Htok & Hws & Hsep & _).
  pose proof (separator_is_colon _ Hsep) as Hcolon.
  assert (Hnz0 : get b p0 <> NUL).
  { destruct (Z.eq_dec p0 t) as [Hpt|Hne].
    - destruct (Z.eq_dec t s) as [Heq|Hne'].
      + rewrite Hpt, Heq, Hcolon. discriminate.
      + apply sp_tab_not_NUL. apply Hws. lia.
    - apply token_char_not_NUL. apply Htok. lia. }
  assert (Hstart : forall fuel,
    run (S (Z.to_nat (t - p0) + fuel)) (Machine b p0 S_START ko vo)
    = run fuel (Machine b t S_KEY (Some p0) vo)).
  { intros fuel. rewrite (run_S _ _ (Machine b p0 S_KEY (Some p0) vo)).
    2:{ unfold step. cbn [m_state m_block m_ptr m_value].
        apply ascii_eqb_false in Hnz0. now rewrite Hnz0. }
    rewrite run_key_loop by (intros i Hi; apply Htok; lia).
    f_equal. f_equal. lia. }
  destruct (Z.eq_dec t s) as [Hts'|Hts'].
  - exists (S (Z.to_nat (t - p0) + 1)). intros fuel.
    replace (S (Z.to_nat (t - p0) + 1) + fuel)%nat
      with (S (Z.to_nat (t - p0) + S fuel)) by lia.
    rewrite Hstart. apply run_S.
    unfold step. cbn [m_state m_block m_ptr].
    replace (get b t) with ":"%char by (now rewrite Hts', Hcolon).
    unfold NEXT, poke. cbn [m_state m_block m_ptr m_key m_value].
    cbn [Ascii.eqb isalnum]. subst b1.
    replace (t + 0) with t by lia.
    replace (s + 1) with (t + 1) by lia. reflexivity.
  - exists (S (Z.to_nat (t - p0) + (1 + (Z.to_nat (s - t - 1) + 1)))).
    intros fuel.
    replace (S (Z.to_nat (t - p0) + (1 + (Z.to_nat (s - t - 1) + 1)))
             + fuel)%nat
      with (S (Z.to_nat (t - p0)
               + S (Z.to_nat (s - t - 1) + S fuel))) by lia.
    rewrite Hstart.
    rewrite (run_S _ _ (Machine b1 (t + 1) S_KEY_WS (Some p0) vo)).
    2:{ unfold step. cbn [m_state m_block m_ptr].
        pose proof (Hws t ltac:(lia)) as Hc.
        pose proof (sp_tab_not_NUL _ Hc) as Hn.
        apply ascii_eqb_false in Hn. rewrite Hn.
        fold (token_char (get b t)). rewrite (sp_tab_not_token _ Hc), Hc.
        unfold NEXT, poke. cbn [m_state m_block m_ptr m_key m_value].
        subst b1. rewrite Z.add_0_r. reflexivity. }
    rewrite run_key_ws_loop.
    2:{ intros i Hi. rewrite wf_b1_other by lia. apply Hws. lia. }
    replace (t + 1 + Z.of_nat (Z.to_nat (s - t - 1))) with s by lia.
    apply run_S. unfold step. cbn [m_state m_block m_ptr].
    rewrite wf_b1_other by lia. rewrite Hcolon. reflexivity.
Qed.

Lemma wf_value :
  exists n, forall fuel,
    run (n + fuel) (Machine b1 (s + 1) S_SEP_WS (Some p0) vo)
    = run fuel (Machine b1 e S_VALUE (Some p0) (Some v)).
Proof.
  pose proof Hwf as Hw.
  destruct Hw as (Hp & Hts & Hsv & Hve & _ & _ & _ & Hws & Hvs & Hval & _).
  destruct (run_value_folded b1 (Some p0) (Some v) e
              (Z.to_nat (e - (v + 1))) (v + 1)) as (m & Hm); [lia| |].
  { intros i Hi. rewrite !wf_b1_other by lia. apply Hval. lia. }
  exists (Z.to_nat (v - s - 1) + S m)%nat. intros fuel.
  replace (Z.to_nat (v - s - 1) + S m + fuel)%nat
    with (Z.to_nat (v - s - 1) + S (m + fuel))%nat by lia.
  rewrite run_sep_ws_loop.
  2:{ intros i Hi. rewrite wf_b1_other by lia. apply Hws. lia. }
  replace (s + 1 + Z.of_nat (Z.to_nat (v - s - 1))) with v by lia.
  rewrite (run_S _ _ (Machine b1 (v + 1) S_VALUE (Some p0) (Some v))).
  2:{ unfold step. cbn [m_state m_block m_ptr].
      rewrite wf_b1_other by lia.
      destruct (Hval v ltac:(lia)) as (Hn & _).
      apply ascii_eqb_false in Hn. rewrite Hn, Hvs. reflexivity. }
  apply Hm.
Qed.

Lemma wf_end :
  exists n,
    run n (Machine b1 e S_VALUE (Some p0) (Some v))
    = Some (Machine (block_after_line b t e) (ptr_after_line b e) S_VALUE_END
              (Some p0) (Some v)).
Proof.
  pose proof Hwf as Hw.
  destruct Hw as (Hp & Hts & Hsv & Hve & _ & _ & _ & _ & _ & _ & Hend).
  unfold block_after_line, ptr_after_line. fold b1.
  destruct Hend as [Hnul|(Hlf & Hsp)].
  - exists 2%nat. rewrite Hnul. cbn [Ascii.eqb].
    replace (Ascii.eqb NUL NUL) with true by reflexivity.
    rewrite (run_S _ _ (Machine b1 e S_VALUE_END (Some p0) (Some v))).
    + apply run_ret. reflexivity.
    + unfold step. cbn [m_state m_block m_ptr].
      rewrite wf_b1_other by lia. rewrite Hnul. reflexivity.
  - exists 3%nat. rewrite Hlf.
    replace (Ascii.eqb LF NUL) with false by reflexivity.
    rewrite (run_S _ _ (Machine b1 (e + 1) S_VALUE_NL (Some p0) (Some v))).
    2:{ unfold step. cbn [m_state m_block m_ptr].
        rewrite wf_b1_other by lia. rewrite Hlf. reflexivity. }
    rewrite (run_S _ _ (Machine (put b1 e NUL) (e + 1) S_VALUE_END
                          (Some p0) (Some v))).
    + apply run_ret. reflexivity.
    + unfold step. cbn [m_state m_block m_ptr].
      rewrite wf_b1_other by lia.
      apply ascii_eqb_false in Hsp. rewrite Hsp.
      unfold GOTO, poke. cbn [m_state m_block m_ptr m_key m_value].
      now replace (e + 1 + -1) with e by lia.
Qed.

Lemma wf_run (ko : option Z) (fuel : nat) (m' : machine) :
  run fuel (Machine b p0 S_START ko vo) = Some m' ->
  m' = Machine (block_after_line b t e) (ptr_after_line b e) S_VALUE_END
         (Some p0) (Some v).
Proof.
  intros Hrun.
  destruct (wf_key ko) as (n1 & H1). destruct wf_value as (n2 & H2).
  destruct wf_end as (n3 & H3).
  apply (run_agree fuel (n1 + (n2 + n3)) _ _ _ Hrun).
  now rewrite H1, H2.
Qed.

Lemma wf_views :
  cstr (suffix (block_after_line b t e) p0) = region b p0 t
  /\ cstr (suffix (block_after_line b t e) v) = region b v e.
Proof.
  pose proof wf_t_in_range as Htr.
  pose proof Hwf as Hw.
  destruct Hw
    as (Hp & Hts & Hsv & Hve & Htok & _ & _ & _ & _ & Hval & Hend).
  assert (He : 0 <= e < Z.of_nat (List.length b) \/ get b e = NUL).
  { destruct Hend as [H|(H & _)]; [now right|left].
    assert (Hn : get b e <> NUL) by (rewrite H; discriminate).
    apply get_in_range in Hn. lia. }
  assert (Hsame : forall i, i <> t -> i <> e ->
    get (block_after_line b t e) i = get b i).
  { intros i Hit Hie. unfold block_after_line. fold b1.
    destruct (Ascii.eqb (get b e) NUL).
    - now apply wf_b1_other.
    - rewrite get_put_other by lia. now apply wf_b1_other. }
  assert (Hat_t : get (block_after_line b t e) t = NUL).
  { unfold block_after_line. fold b1. destruct (Ascii.eqb (get b e) NUL).
    - apply wf_b1_t.
    - rewrite get_put_other by lia. apply wf_b1_t. }
  assert (Hat_e : get (block_after_line b t e) e = NUL).
  { unfold block_after_line. fold b1.
    destruct (Ascii.eqb (get b e) NUL) eqn:E; ascii_cases.
    - rewrite wf_b1_other by lia. exact E.
    - apply get_put_same. rewrite wf_b1_length.
      destruct He as [He|He]; [lia|contradiction]. }
  split.
  - apply (cstr_region b _ (Z.to_nat (t - p0))); try lia; [|exact Hat_t].
    intros i Hi. split; [apply Hsame; lia|].
    apply token_char_not_NUL. apply Htok. lia.
  - apply (cstr_region b _ (Z.to_nat (e - v))); try lia; [|exact Hat_e].
    intros i Hi. split; [apply Hsame; lia|]. apply (Hval i). lia.
Qed.

End WellFormedLine.

(** X14.  On a well-formed line a call hands out the key and the value of
    the line: the key is the token, the value is the text after the
    separator and the spaces and tabs that follow it, up to the end of the
    line and on over the lines that begin with a space, with their line
    feeds kept; [ptr] is left at the start of the next line (or at the end
    of the block). *)
Theorem well_formed_line_tokenized (key_out value_out : option Z)
    (iter : trailer_iterator) (t s v e : Z) :
  well_formed_line (trailer_block iter) (ptr iter) t s v e ->
  exists iter',
    git_message_trailer_iterator_next key_out value_out iter
    = Some (0, Some (ptr iter), Some v, iter')
    /\ view iter' (Some (ptr iter))
       = Some (region (trailer_block iter) (ptr iter) t)
    /\ view iter' (Some v) = Some (region (trailer_block iter) v e)
    /\ ptr iter'
       = if Ascii.eqb (get (trailer_block iter) e) NUL then e else e + 1.
Proof.
  intros Hwf.
  pose proof (wf_t_in_range _ _ _ _ _ _ Hwf) as Htr.
  assert (Hok : iterator_ok iter).
  { unfold iterator_ok. destruct Hwf as (Hp & _). lia. }
  destruct (iterator_next_total key_out value_out iter Hok)
    as (rc & k & v' & iter' & Hnext & _ & _ & _ & Hcase).
  unfold git_message_trailer_iterator_next in Hnext.
  destruct (Ascii.eqb (get (trailer_block iter) (ptr iter)) NUL) eqn:E0.
  { exfalso. ascii_cases.
    destruct Hwf as (Hp & Hts & _ & _ & Htok & Hws & Hsep & _).
    destruct (Z.eq_dec (ptr iter) t) as [Hpt|Hpt].
    - rewrite Hpt in E0. destruct (Z.eq_dec t s) as [->|Hne].
      + apply separator_is_colon in Hsep. rewrite Hsep in E0.
        discriminate E0.
      + revert E0. apply sp_tab_not_NUL. apply Hws. lia.
    - revert E0. apply token_char_not_NUL. apply Htok. lia. }
  destruct (run _ _) as [m'|] eqn:Hrun; [|discriminate].
  pose proof (wf_run _ _ _ _ _ _ value_out Hwf key_out _ _ Hrun) as Hm.
  subst m'. injection Hnext as <- <- <- <-.
  unfold git_message_trailer_iterator_next. rewrite E0, Hrun.
  cbn [m_key m_value m_block m_ptr].
  eexists. split; [reflexivity|].
  destruct (wf_views _ _ _ _ _ _ Hwf) as (Hk & Hv).
  unfold view. cbn [option_map trailer_block ptr].
  rewrite Hk, Hv. unfold ptr_after_line. repeat split.
Qed.

Lemma well_formed_line_tokenized_witness :
  exists iter',
    git_message_trailer_iterator_next None None
      (Iterator 0 (bytes "K:v") 3 0)
    = Some (0, Some 0, Some 2, iter')
    /\ view iter' (Some 0) = Some (region (bytes "K:v") 0 1)
    /\ view iter' (Some 2) = Some (region (bytes "K:v") 2 3)
    /\ ptr iter' = if Ascii.eqb (get (bytes "K:v") 3) NUL then 3 else 3 + 1.
Proof.
  apply (well_formed_line_tokenized None None
           (Iterator 0 (bytes "K:v") 3 0) 1 1 2 3).
  unfold well_formed_line. cbn [trailer_block ptr].
  repeat (split; [lia|]).
  split.
  { intros i Hi. assert (i = 0) by lia. subst i. reflexivity. }
  split; [intros i Hi; lia|]. split; [reflexivity|].
  split; [intros i Hi; lia|]. split; [reflexivity|].
  split.
  { intros i Hi. assert (i = 2) by lia. subst i.
    split; [vm_compute; discriminate|].
    intros H. vm_compute in H. discriminate H. }
  left. reflexivity.
Defined.

(** ** A malformed line is skipped *)

Lemma run_ignore_loop (b : list ascii) (k v : option Z) (fuel n : nat)
    (p : Z) :
  (forall i, p <= i < p + Z.of_nat n -> get b i <> NUL /\ get b i <> LF) ->
  run (n + fuel) (Machine b p S_IGNORE k v)
  = run fuel (Machine b (p + Z.of_nat n) S_IGNORE k v).
Proof.
  apply (run_loop S_IGNORE (fun c => c <> NUL /\ c <> LF)).
  intros q [Hnz Hlf]. unfold step. cbn [m_state m_block m_ptr].
  apply ascii_eqb_false in Hnz, Hlf. rewrite Hnz, Hlf. reflexivity.
Qed.

Lemma malformed_first_byte (b : list ascii) (p0 t e : Z) :
  malformed_line b p0 t e -> get b p0 <> NUL /\ get b t <> NUL.
Proof.
  intros (Hp & Hte & Htok & _ & _ & _ & Hign & Hlf & _).
  assert (Ht : get b t <> NUL).
  { destruct (Z.eq_dec t e) as [Heq|Hne].
    - rewrite Heq, Hlf. discriminate.
    - apply Hign. lia. }
  split; [|exact Ht].
  destruct (Z.eq_dec p0 t) as [Heq|Hne]; [now rewrite Heq|].
  apply token_char_not_NUL. apply Htok. lia.
Qed.

Lemma malformed_run (b : list ascii) (p0 t e : Z) (ko vo : option Z) :
  malformed_line b p0 t e ->
  exists n, forall fuel,
    run (n + fuel) (Machine b p0 S_START ko vo)
    = run fuel (Machine b (e + 1) S_START (Some p0) vo).
Proof.
  intros Hm. destruct (malformed_first_byte b p0 t e Hm) as (Hnz0 & Hnzt).
  destruct Hm as (Hp & Hte & Htok & Hnt & Hns & Hnsep & Hign & Hlf & _).
  exists (S (Z.to_nat (t - p0) + S (Z.to_nat (e - t) + 1))). intros fuel.
  replace (S (Z.to_nat (t - p0) + S (Z.to_nat (e - t) + 1)) + fuel)%nat
    with (S (Z.to_nat (t - p0) + S (Z.to_nat (e - t) + S fuel))) by lia.
  rewrite (run_S _ _ (Machine b p0 S_KEY (Some p0) vo)).
  2:{ unfold step. cbn [m_state m_block m_ptr m_value].
      apply ascii_eqb_false in Hnz0. now rewrite Hnz0. }
  rewrite run_key_loop by (intros i Hi; apply Htok; lia).
  replace (p0 + Z.of_nat (Z.to_nat (t - p0))) with t by lia.
  rewrite (run_S _ _ (Machine b t S_IGNORE (Some p0) vo)).
  2:{ unfold step. cbn [m_state m_block m_ptr].
      apply ascii_eqb_false in Hnzt. rewrite Hnzt.
      fold (token_char (get b t)). rewrite Hnt, Hns, Hnsep. reflexivity. }
  rewrite run_ignore_loop by (intros i Hi; apply Hign; lia).
  replace (t + Z.of_nat (Z.to_nat (e - t))) with e by lia.
  apply run_S. unfold step. cbn [m_state m_block m_ptr].
  rewrite Hlf. reflexivity.
Qed.

(** X15.  A malformed line that another line follows is skipped: the call
    does what a call that starts at the next line does, with [*key_out]
    still on the skipped line when that call begins. *)
Theorem malformed_line_skipped (key_out value_out : option Z)
    (iter : trailer_iterator) (t e : Z) :
  malformed_line (trailer_block iter) (ptr iter) t e ->
  git_message_trailer_iterator_next key_out value_out iter
  = git_message_trailer_iterator_next (Some (ptr iter)) value_out
      (Iterator (trailer_block_addr iter) (trailer_block iter)
         (block_len iter) (e + 1)).
Proof.
  intros Hm.
  destruct (malformed_first_byte _ _ _ _ Hm) as (Hnz0 & _).
  assert (Hnz1 : get (trailer_block iter) (e + 1) <> NUL)
    by (destruct Hm as (_ & _ & _ & _ & _ & _ & _ & _ & H); exact H).
  assert (Hp : 0 <= ptr iter <= e) by (destruct Hm as (H1 & H2 & _); lia).
  assert (Hok1 : iterator_ok
    (Iterator (trailer_block_addr iter) (trailer_block iter)
       (block_len iter) (e + 1))).
  { unfold iterator_ok. cbn [trailer_block ptr].
    apply get_in_range in Hnz1. lia. }
  assert (Hok0 : iterator_ok iter).
  { unfold iterator_ok in *. cbn [trailer_block ptr] in Hok1. lia. }
  destruct (iterator_next_total key_out value_out iter Hok0)
    as (rc & k & v & it' & H0 & _).
  destruct (iterator_next_total (Some (ptr iter)) value_out _ Hok1)
    as (rc1 & k1 & v1 & it1 & H1 & _).
  rewrite H0, H1. revert H0 H1.
  unfold git_message_trailer_iterator_next.
  cbn [trailer_block ptr trailer_block_addr block_len].
  apply ascii_eqb_false in Hnz0, Hnz1. rewrite Hnz0, Hnz1.
  destruct (run _ _) as [m0|] eqn:Hr0; [|discriminate].
  destruct (run (run_fuel (trailer_block iter) (e + 1)) _) as [m1|] eqn:Hr1;
    [|discriminate].
  destruct (malformed_run _ _ _ _ key_out value_out Hm) as (n & Hn).
  assert (m0 = m1).
  { apply (run_agree _ (n + run_fuel (trailer_block iter) (e + 1)) _ _ _ Hr0).
    now rewrite Hn. }
  subst m1. intros [= <- <- <- <-] [= <- <- <- <-]. reflexivity.
Qed.

Lemma malformed_line_skipped_witness :
  git_message_trailer_iterator_next None None
    (Iterator 0 (msg ["a!"; "K: v"]%string) 8 0)
  = git_message_trailer_iterator_next (Some 0) None
      (Iterator 0 (msg ["a!"; "K: v"]%string) 8 (2 + 1)).
Proof.
  apply (malformed_line_skipped None None
           (Iterator 0 (msg ["a!"; "K: v"]%string) 8 0) 1 2).
  unfold malformed_line. cbn [trailer_block ptr].
  repeat (split; [lia|]).
  split.
  { intros i Hi. assert (i = 0) by lia. subst i. reflexivity. }
  repeat (split; [reflexivity|]).
  split.
  { intros i Hi. assert (i = 1) by lia. subst i.
    split; vm_compute; discriminate. }
  split; [reflexivity|]. vm_compute. discriminate.
Defined.

(** ** The block is made of whole lines *)

Lemma trailer_start_line_start (buf : list ascii) (len : Z) (x : scan_exit) :
  0 <= len <= strlen buf ->
  trailer_scan buf len = Some x ->
  trailer_start_of buf len x < len ->
  line_start buf (trailer_start_of buf len x).
Proof.
  intros Hlen Hx Hlt.
  destruct (trailer_scan_spec buf len Hlen) as (e & x0 & _ & Hx0 & He0 & Hok).
  assert (x0 = x) by congruence. subst x0.
  destruct x as [l c|c]; [|cbn [trailer_start_of] in Hlt; lia].
  destruct Hok as (Hl & _).
  assert (Hr : trailer_start_of buf len (AtBlankLine l c) = next_line buf l).
  { cbn [trailer_start_of] in *.
    destruct (_ && _); [reflexivity|]. destruct (_ && _); [reflexivity|lia]. }
  rewrite Hr in *.
  assert (Hnz : get buf l <> NUL) by (apply strlen_get_before; lia).
  destruct (next_line_spec buf l ltac:(lia)) as (Hb & _ & Hend & Hpos).
  specialize (Hpos Hnz). rewrite strlen_suffix in Hend by lia.
  destruct (Hend Hpos) as [Hlf|Heq]; [|lia].
  right. split; [lia|exact Hlf].
Qed.

(** X16.  The trailer block of a message of at most [INT_MAX] bytes is made
    of whole lines: it ends at the end of the message or at the start of a
    line, and when it is not empty it starts at the start of a line. *)
Theorem trailer_block_whole_lines (message : list ascii) :
  strlen message <= INT_MAX ->
  exists patch_start trailer_end trailer_start,
    find_patch_start message = Some patch_start
    /\ find_trailer_end message patch_start = Some trailer_end
    /\ find_trailer_start message trailer_end = Some trailer_start
    /\ line_aligned message trailer_end
    /\ (trailer_start < trailer_end -> line_start message trailer_start).
Proof.
  intros Hfit.
  destruct (pipeline_offsets message Hfit)
    as (P & E & x & HP & HE & Hx & HEb & HPb & Hal).
  exists P, E, (trailer_start_of message E x).
  split; [exact HP|]. split; [exact HE|].
  split; [unfold find_trailer_start; now rewrite Hx|].
  split; [exact Hal|].
  apply trailer_start_line_start; [lia|exact Hx].
Qed.

Lemma trailer_block_whole_lines_witness :
  exists patch_start trailer_end trailer_start,
    find_patch_start (msg ["Subject"; ""; "Key: val"]%string)
    = Some patch_start
    /\ find_trailer_end (msg ["Subject"; ""; "Key: val"]%string) patch_start
       = Some trailer_end
    /\ find_trailer_start (msg ["Subject"; ""; "Key: val"]%string)
         trailer_end
       = Some trailer_start
    /\ line_aligned (msg ["Subject"; ""; "Key: val"]%string) trailer_end
    /\ (trailer_start < trailer_end ->
        line_start (msg ["Subject"; ""; "Key: val"]%string) trailer_start).
Proof.
  apply (trailer_block_whole_lines (msg ["Subject"; ""; "Key: val"]%string)).
  apply Z.leb_le. reflexivity.
Defined.

(** X17.  On a region of at most [INT_MAX] bytes [last_line] returns -1
    when the region is empty and otherwise the start of the last line of the
    region: the greatest line start below [len]. *)
Theorem last_line_is_last_line_start (buf : list ascii) (len : Z) :
  0 <= len <= INT_MAX ->
  (len = 0 /\ last_line buf len = -1)
  \/ (0 <= last_line buf len < len
      /\ line_start buf (last_line buf len)
      /\ forall j, last_line buf len < j < len -> ~ line_start buf j).
Proof.
  intros [Hlen _]. destruct (Z.eq_dec len 0) as [->|Hne].
  - left. split; reflexivity.
  - right. apply last_line_spec. lia.
Qed.

Lemma last_line_is_last_line_start_witness :
  (5 = 0 /\ last_line (msg ["ab"; "c"]%string) 5 = -1)
  \/ (0 <= last_line (msg ["ab"; "c"]%string) 5 < 5
      /\ line_start (msg ["ab"; "c"]%string)
           (last_line (msg ["ab"; "c"]%string) 5)
      /\ forall j, last_line (msg ["ab"; "c"]%string) 5 < j < 5 ->
           ~ line_start (msg ["ab"; "c"]%string) j).
Proof.
  apply (last_line_is_last_line_start (msg ["ab"; "c"]%string) 5).
  unfold INT_MAX. lia.
Defined.

(** ** The arithmetic of the dual rule fits an [int] *)

(** A line whose first two bytes are neither NUL nor a line feed has three
    bytes with its line feed, or two when the string ends with it. *)
Lemma line_span_two (line : list ascii) :
  (forall i, 0 <= i < 2 -> get line i <> NUL /\ get line i <> LF) ->
  3 <= line_span line \/ (line_span line = strlen line /\ 2 <= line_span line).
Proof.
  intros H.
  destruct line as [|x [|y r]].
  - destruct (H 0 ltac:(lia)) as [H0 _]. now elim H0.
  - destruct (H 1 ltac:(lia)) as [H1 _]. now elim H1.
  - destruct (H 0 ltac:(lia)) as [Hx0 Hx1].
    destruct (H 1 ltac:(lia)) as [Hy0 Hy1].
    change (get (x :: y :: r) 0) with x in *.
    change (get (x :: y :: r) 1) with y in *.
    apply ascii_eqb_false in Hx0, Hx1, Hy0, Hy1.
    cbn [line_span strlen]. rewrite Hx0, Hx1, Hy0, Hy1.
    destruct r as [|z r]; cbn [line_span strlen]; [right; lia|].
    destruct (Ascii.eqb z NUL); [right; lia|].
    destruct (Ascii.eqb z LF); [left; lia|].
    pose proof (line_span_nonneg r). left. lia.
Qed.

Lemma begins_with_two (a b : ascii) (rest str : list ascii) :
  begins_with (a :: b :: rest) str -> get str 0 = a /\ get str 1 = b.
Proof.
  unfold begins_with. cbn [List.length]. intros H.
  destruct str as [|x [|y r]]; cbn [firstn] in H; try discriminate H.
  injection H as -> -> _. split; reflexivity.
Qed.

(** A line with a generated prefix begins with two bytes that are neither
    NUL nor a line feed. *)
Lemma prefix_line_two (bol : list ascii) :
  existsb (fun p => git__prefixcmp bol p =? 0) git_generated_prefixes = true ->
  forall i, 0 <= i < 2 -> get bol i <> NUL /\ get bol i <> LF.
Proof.
  unfold git_generated_prefixes. cbn [existsb]. rewrite orb_false_r.
  intros H i Hi. apply orb_prop in H.
  assert (Hi' : i = 0 \/ i = 1) by lia.
  destruct H as [H|H]; apply Z.eqb_eq in H;
    apply git__prefixcmp_spec in H;
    try (repeat constructor; discriminate);
    apply begins_with_two in H; destruct H as [H0 H1];
    destruct Hi' as [-> | ->]; rewrite ?H0, ?H1; split; discriminate.
Qed.

(** So does a line in which [find_separator] finds a separator at an index
    of at least 1. *)
Lemma separator_line_two (bol : list ascii) :
  (find_separator bol TRAILER_SEPARATORS >=? 1) = true ->
  forall i, 0 <= i < 2 -> get bol i <> NUL /\ get bol i <> LF.
Proof.
  unfold find_separator. intros H.
  assert (Hx : get bol 0 <> NUL /\ get bol 0 <> LF
               /\ get bol 1 <> NUL /\ get bol 1 <> LF).
  { destruct bol as [|x r]; [discriminate H|].
    change (get (x :: r) 0) with x.
    replace (get (x :: r) 1) with (get r 0)
      by (symmetry; apply (get_cons x r 0); lia).
    cbn [find_separator_loop] in H.
    destruct (Ascii.eqb x NUL) eqn:Ex0; [discriminate H|].
    destruct (strchr_in TRAILER_SEPARATORS x) eqn:Es; [discriminate H|].
    cbn [negb andb Z.eqb] in H.
    destruct (isalnum x || Ascii.eqb x "-"%char) eqn:Et; [|discriminate H].
    apply ascii_eqb_false in Ex0.
    assert (Hxl : x <> LF) by (intros ->; discriminate Et).
    split; [exact Ex0|]. split; [exact Hxl|].
    destruct r as [|y r']; [discriminate H|].
    change (get (y :: r') 0) with y.
    cbn [find_separator_loop] in H.
    destruct (Ascii.eqb y NUL) eqn:Ey0; [discriminate H|].
    apply ascii_eqb_false in Ey0. split; [exact Ey0|].
    intros ->. vm_compute in H. discriminate H. }
  intros i Hi. assert (Hi' : i = 0 \/ i = 1) by lia.
  destruct Hi' as [-> | ->]; tauto.
Qed.

(** A trailer line has at least three bytes with its line feed, or at least
    two when the buffer ends with it. *)
Lemma trailer_line_span (buf : list ascii) (p : Z) :
  0 <= p <= strlen buf ->
  kind_of (suffix buf p) = PrefixLine \/ kind_of (suffix buf p) = TrailerLine ->
  p + 3 <= next_line buf p
  \/ (next_line buf p = strlen buf /\ p + 2 <= next_line buf p).
Proof.
  intros Hp Hk.
  assert (Htwo : forall i, 0 <= i < 2 ->
            get (suffix buf p) i <> NUL /\ get (suffix buf p) i <> LF).
  { unfold kind_of in Hk.
    destruct (Ascii.eqb _ COMMENT_LINE_CHAR); [destruct Hk; discriminate|].
    destruct (is_blank_line _); [destruct Hk; discriminate|].
    destruct (existsb _ _) eqn:Ep; [now apply prefix_line_two|].
    destruct (_ && _) eqn:Es.
    - apply andb_prop in Es. destruct Es as [Es _].
      now apply separator_line_two.
    - destruct (isspace _); destruct Hk; discriminate. }
  unfold next_line.
  destruct (line_span_two (suffix buf p) Htwo) as [H|[H1 H2]]; [left; lia|].
  right. rewrite strlen_suffix in H1 by lia. lia.
Qed.

(** The tally of the lines from [s] on: three bytes for each trailer line
    but the last, one byte at least for each other line. *)
Lemma tally_of_bounds (buf : list ascii) (len : Z) :
  len <= strlen buf ->
  forall (fuel : nat) (s : Z) (after_trailer : bool),
    0 <= s <= strlen buf ->
    let t := tally_of after_trailer
               (map (fun p => kind_of (suffix buf p))
                  (lines_from fuel buf len s)) in
    0 <= trailer_count t
    /\ trailer_count t * 3 <= strlen buf - s + 1
    /\ 0 <= non_trailer_count t <= strlen buf - s.
Proof.
  intros Hlen. induction fuel as [|fuel IH]; intros s after_trailer Hs;
    cbn [lines_from map tally_of]; cbv zeta;
    [cbn [trailer_count non_trailer_count]; lia|].
  destruct (s <? len) eqn:Elt;
    [|cbn [map tally_of trailer_count non_trailer_count]; lia].
  apply Z.ltb_lt in Elt.
  assert (Hnz : get buf s <> NUL) by (apply strlen_get_before; lia).
  destruct (next_line_spec buf s ltac:(lia)) as (Hb & _ & _ & Hpos).
  specialize (Hpos Hnz). rewrite strlen_suffix in Hb by lia.
  assert (Hrest : forall b,
    let t := tally_of b
               (map (fun p => kind_of (suffix buf p))
                  (lines_from fuel buf len (next_line buf s))) in
    0 <= trailer_count t
    /\ trailer_count t * 3 <= strlen buf - next_line buf s + 1
    /\ 0 <= non_trailer_count t <= strlen buf - next_line buf s
    /\ (next_line buf s = strlen buf -> trailer_count t = 0)).
  { intros b. cbv zeta.
    destruct (IH (next_line buf s) b ltac:(lia)) as (H1 & H2 & H3).
    repeat (split; [assumption|]). intros Hend.
    destruct fuel; cbn [lines_from]; [reflexivity|].
    replace (next_line buf s <? len) with false
      by (symmetry; apply Z.ltb_ge; lia).
    reflexivity. }
  cbn [map tally_of].
  pose proof (trailer_line_span buf s ltac:(lia)) as Hspan.
  destruct (kind_of (suffix buf s)) eqn:Ek.
  - destruct (Hrest false) as (H1 & H2 & H3 & _). cbv zeta in *. lia.
  - destruct (Hrest after_trailer) as (H1 & H2 & H3 & _). cbv zeta in *. lia.
  - destruct (Hrest true) as (H1 & H2 & H3 & H4). cbv zeta in *.
    cbn [trailer_count non_trailer_count].
    destruct (Hspan ltac:(now left)) as [Hs3|[He He2]]; [lia|].
    rewrite (H4 He). lia.
  - destruct (Hrest true) as (H1 & H2 & H3 & H4). cbv zeta in *.
    cbn [trailer_count non_trailer_count].
    destruct (Hspan ltac:(now right)) as [Hs3|[He He2]]; [lia|].
    rewrite (H4 He). lia.
  - destruct after_trailer.
    + destruct (Hrest true) as (H1 & H2 & H3 & _). cbv zeta in *. lia.
    + destruct (Hrest false) as (H1 & H2 & H3 & _). cbv zeta in *.
      cbn [trailer_count non_trailer_count]. lia.
  - destruct (Hrest false) as (H1 & H2 & H3 & _). cbv zeta in *.
    cbn [trailer_count non_trailer_count]. lia.
Qed.

(** X18.  In a buffer of at most [INT_MAX] bytes, when the scan of
    [find_trailer_start] stops at a blank line, the counters that the rule
    reads and the product that it computes are within [int]: the
    arithmetic of the rule does not overflow. *)
Theorem dual_rule_fits_int (buf : list ascii) (len l : Z) (c : counters) :
  strlen buf <= INT_MAX ->
  0 <= len <= strlen buf ->
  trailer_scan buf len = Some (AtBlankLine l c) ->
  0 <= trailer_lines c
  /\ trailer_lines c * 3 <= INT_MAX
  /\ 0 <= non_trailer_lines c <= INT_MAX.
Proof.
  intros Hfit Hlen Hx.
  destruct (trailer_scan_lines buf len Hlen)
    as [(l0 & c0 & Hx0 & Hq & Ht & Htally)|(c0 & Hx0 & _)];
    rewrite Hx in Hx0; [|discriminate Hx0].
  injection Hx0 as <- <-.
  destruct Hq as (Hl & Hls & [_ Hbl] & _).
  assert (Hnz : get buf l <> NUL) by (apply strlen_get_before; lia).
  destruct (next_line_spec buf l ltac:(lia)) as (Hb & _ & _ & Hpos).
  specialize (Hpos Hnz). rewrite strlen_suffix in Hb by lia.
  pose proof (tally_of_bounds buf len ltac:(lia)
                (Z.to_nat (len - next_line buf l)) (next_line buf l) false
                ltac:(lia)) as Hbound.
  cbv zeta in Hbound.
  unfold paragraph_tally, kinds_between, lines_between in Htally.
  rewrite <- Htally in Hbound.
  cbn [trailer_count non_trailer_count] in Hbound. lia.
Qed.

Lemma dual_rule_fits_int_witness :
  0 <= trailer_lines (Counters false false 2 1 0)
  /\ trailer_lines (Counters false false 2 1 0) * 3 <= INT_MAX
  /\ 0 <= non_trailer_lines (Counters false false 2 1 0) <= INT_MAX.
Proof.
  apply (dual_rule_fits_int scenario_C 44 8 (Counters false false 2 1 0)).
  - apply Z.leb_le. reflexivity.
  - split; [lia|vm_compute; discriminate].
  - vm_compute. reflexivity.
Defined.
